(** * Gallery controller of the family video archive

    A shallow embedding of the page script in its two revisions under
    [src/] (the chip-rendering [part_000] and [script.js], which differ only
    in the chip selector used by [filterVideos] and in the chip renderer
    being present) together with the properties the specification states
    about it.

    Strings are JavaScript strings: finite sequences of UTF-16 code units.
    The DOM is the part of the page the script reads and writes: one record
    per card, the filter control, the shared placeholder and the pending
    timers.  Handlers run in a state-and-exception monad over that page, so a
    fault leaves the mutations made before it in place, as in the browser. *)

From Stdlib Require Import ZArith NArith List String Ascii Lia Bool.
From Stdlib Require Import DecimalString Sorted Permutation.
From stdpp Require Import base decidable option list strings.

Set Default Proof Using "Type".
Local Open Scope N_scope.

(** ** JavaScript strings and the String / Array / Set primitives used *)

Module Js.

(** A string value: its UTF-16 code units. *)
Definition jsstring : Type := list N.

(** An ASCII literal of the source as a string value. *)
Definition lit (s : string) : jsstring :=
  List.map N_of_ascii (list_ascii_of_string s).

Definition str_true : jsstring := Eval cbv in lit "true".
Definition str_false : jsstring := Eval cbv in lit "false".
Definition str_undefined : jsstring := Eval cbv in lit "undefined".

(** The code unit of [','], the separator of [split(',')]. *)
Definition comma : N := 44.

(** ECMAScript WhiteSpace and LineTerminator code points, the characters
    [String.prototype.trim] strips (all of them lie in the BMP, so each is a
    single code unit). *)
Definition isWhiteSpace (c : N) : bool :=
  (c =? 9) || (c =? 10) || (c =? 11) || (c =? 12) || (c =? 13) || (c =? 32)
  || (c =? 160) || (c =? 5760) || ((8192 <=? c) && (c <=? 8202))
  || (c =? 8232) || (c =? 8233) || (c =? 8239) || (c =? 8287)
  || (c =? 12288) || (c =? 65279).

Fixpoint trimStart (s : jsstring) : jsstring :=
  match s with
  | c :: r => if isWhiteSpace c then trimStart r else s
  | [] => []
  end.

Definition trimEnd (s : jsstring) : jsstring := rev (trimStart (rev s)).

(** [s.trim()] *)
Definition trim (s : jsstring) : jsstring := trimEnd (trimStart s).

(** [s.split(',')]: always at least one piece; the empty string splits into
    one empty piece. *)
Fixpoint split_comma (s : jsstring) : list jsstring :=
  match s with
  | [] => [[]]
  | c :: r =>
      if c =? comma then [] :: split_comma r
      else match split_comma r with
           | piece :: more => (c :: piece) :: more
           | [] => [[c]]
           end
  end.

(** [arr.includes(x)] on an array of strings (SameValueZero on strings is
    equality of the code unit sequences). *)
Definition includes (arr : list jsstring) (x : jsstring) : bool :=
  existsb (fun y => bool_decide (y = x)) arr.

(** Truthiness of a string: only the empty string is falsy. *)
Definition truthy (s : jsstring) : bool :=
  match s with [] => false | _ => true end.

(** A [Set] of strings: insertion ordered, no repeated member. *)
Definition Set_add (x : jsstring) (s : list jsstring) : list jsstring :=
  if includes s x then s else s ++ [x].

(** [Number.prototype.toString] on an integer, as used by template
    literals. *)
Definition Number_toString (z : Z) : jsstring :=
  lit (NilZero.string_of_int (Z.to_int z)).

Section Sort.
Variable compareFn : jsstring -> jsstring -> Z.

(** [x] placed in front of the first entry it does not come after. *)
Fixpoint sort_insert (x : jsstring) (l : list jsstring) : list jsstring :=
  match l with
  | [] => [x]
  | y :: r => if (compareFn x y <=? 0)%Z then x :: y :: r
              else y :: sort_insert x r
  end.

(** [Array.prototype.sort(compareFn)].  The sort is stable, so for a
    consistent comparator the result is fixed whatever algorithm the engine
    runs; inserting the entries from the last to the first computes it. *)
Fixpoint sort (l : list jsstring) : list jsstring :=
  match l with
  | [] => []
  | x :: r => sort_insert x (sort r)
  end.
End Sort.

End Js.
Export Js.

(** ** The part of the document the script reads and writes *)

Module Dom.

(** A class name. *)
Definition token : Type := string.

(** [classList.add] and [classList.remove] on an ordered token set. *)
Definition classList_add (t : token) (cl : list token) : list token :=
  if bool_decide (t ∈ cl) then cl else cl ++ [t].

Definition classList_remove (t : token) (cl : list token) : list token :=
  List.filter (fun x => negb (bool_decide (x = t))) cl.

Definition classList_contains (t : token) (cl : list token) : bool :=
  bool_decide (t ∈ cl).

Inductive TagName : Type := SPAN | BUTTON.

(** A child of a card's [.video-card__chips] container: a participant chip
    or the expand control.  [el_onclick_toggleChips] records that the click
    listener of [generateChips] is registered on the element. *)
Record Element : Type := mkElement {
  el_tagName : TagName;
  el_classList : list token;
  el_textContent : jsstring;
  el_type : option jsstring;
  el_aria_expanded : option jsstring;
  el_title : option jsstring;
  el_onclick_toggleChips : bool
}.

Definition set_el_classList (f : list token -> list token) (e : Element) : Element :=
  mkElement (el_tagName e) (f (el_classList e)) (el_textContent e) (el_type e)
            (el_aria_expanded e) (el_title e) (el_onclick_toggleChips e).

Definition set_el_textContent (t : jsstring) (e : Element) : Element :=
  mkElement (el_tagName e) (el_classList e) t (el_type e)
            (el_aria_expanded e) (el_title e) (el_onclick_toggleChips e).

Definition set_el_type (t : jsstring) (e : Element) : Element :=
  mkElement (el_tagName e) (el_classList e) (el_textContent e) (Some t)
            (el_aria_expanded e) (el_title e) (el_onclick_toggleChips e).

Definition set_el_aria_expanded (v : jsstring) (e : Element) : Element :=
  mkElement (el_tagName e) (el_classList e) (el_textContent e) (el_type e)
            (Some v) (el_title e) (el_onclick_toggleChips e).

Definition set_el_title (v : jsstring) (e : Element) : Element :=
  mkElement (el_tagName e) (el_classList e) (el_textContent e) (el_type e)
            (el_aria_expanded e) (Some v) (el_onclick_toggleChips e).

Definition set_el_onclick_toggleChips (e : Element) : Element :=
  mkElement (el_tagName e) (el_classList e) (el_textContent e) (el_type e)
            (el_aria_expanded e) (el_title e) true.

(** [document.createElement(tag)] *)
Definition createElement (tag : TagName) : Element :=
  mkElement tag [] [] None None None false.

(** The embedded player element. *)
Record Iframe : Type := mkIframe {
  iframe_src : jsstring;
  iframe_title : jsstring;
  iframe_allow : jsstring;
  iframe_allowFullscreen : bool;
  iframe_referrerPolicy : jsstring;
  iframe_loading : jsstring
}.

(** A [.video-card] element with the sub-elements the host markup contract
    requires.  The two [data-] attributes may be absent.  Elements of class
    [chip] are taken to occur in the chip container only, so a card-wide
    [querySelectorAll] for chips ranges over [chips_children]. *)
Record Card : Type := mkCard {
  card_hidden : bool;                          (* card.hidden *)
  card_data_participants : option jsstring;    (* card.dataset.participants *)
  card_data_videoId : option jsstring;         (* card.dataset.videoId *)
  card_data_expanded : option jsstring;        (* attribute data-expanded *)
  thumbnail_aria_expanded : option jsstring;   (* .video-card__thumbnail *)
  embed_hidden : bool;                         (* .video-card__embed *)
  player_classList : list token;               (* .video-card__player *)
  player_iframes : list Iframe;                (* its iframes, document order *)
  title_textContent : jsstring;                (* .video-card__title *)
  chips_children : list Element                (* .video-card__chips *)
}.

Definition set_card_hidden (b : bool) (c : Card) : Card :=
  mkCard b (card_data_participants c) (card_data_videoId c) (card_data_expanded c)
         (thumbnail_aria_expanded c) (embed_hidden c) (player_classList c)
         (player_iframes c) (title_textContent c) (chips_children c).

Definition set_card_data_expanded (v : option jsstring) (c : Card) : Card :=
  mkCard (card_hidden c) (card_data_participants c) (card_data_videoId c) v
         (thumbnail_aria_expanded c) (embed_hidden c) (player_classList c)
         (player_iframes c) (title_textContent c) (chips_children c).

Definition set_thumbnail_aria_expanded (v : jsstring) (c : Card) : Card :=
  mkCard (card_hidden c) (card_data_participants c) (card_data_videoId c)
         (card_data_expanded c) (Some v) (embed_hidden c) (player_classList c)
         (player_iframes c) (title_textContent c) (chips_children c).

Definition set_embed_hidden (b : bool) (c : Card) : Card :=
  mkCard (card_hidden c) (card_data_participants c) (card_data_videoId c)
         (card_data_expanded c) (thumbnail_aria_expanded c) b (player_classList c)
         (player_iframes c) (title_textContent c) (chips_children c).

Definition set_player_classList (f : list token -> list token) (c : Card) : Card :=
  mkCard (card_hidden c) (card_data_participants c) (card_data_videoId c)
         (card_data_expanded c) (thumbnail_aria_expanded c) (embed_hidden c)
         (f (player_classList c)) (player_iframes c) (title_textContent c)
         (chips_children c).

Definition set_player_iframes (f : list Iframe -> list Iframe) (c : Card) : Card :=
  mkCard (card_hidden c) (card_data_participants c) (card_data_videoId c)
         (card_data_expanded c) (thumbnail_aria_expanded c) (embed_hidden c)
         (player_classList c) (f (player_iframes c)) (title_textContent c)
         (chips_children c).

Definition set_chips_children (f : list Element -> list Element) (c : Card) : Card :=
  mkCard (card_hidden c) (card_data_participants c) (card_data_videoId c)
         (card_data_expanded c) (thumbnail_aria_expanded c) (embed_hidden c)
         (player_classList c) (player_iframes c) (title_textContent c)
         (f (chips_children c)).

(** An [<option>] of the filter control. *)
Record HTMLOption : Type := mkOption {
  option_value : jsstring;
  option_textContent : jsstring
}.

(** The page: the static [videoCards] node list, the [.empty-state]
    placeholder, the [#participant-filter] control and the pending
    [setTimeout] callbacks (each scrolls the card of that index into view). *)
Record Gallery : Type := mkGallery {
  videoCards : list Card;
  emptyState_hidden : bool;
  participantFilter_value : jsstring;
  participantFilter_options : list HTMLOption;
  timers : list nat
}.

Definition set_videoCards (f : list Card -> list Card) (g : Gallery) : Gallery :=
  mkGallery (f (videoCards g)) (emptyState_hidden g) (participantFilter_value g)
            (participantFilter_options g) (timers g).

Definition set_emptyState_hidden (b : bool) (g : Gallery) : Gallery :=
  mkGallery (videoCards g) b (participantFilter_value g)
            (participantFilter_options g) (timers g).

Definition set_participantFilter_value (v : jsstring) (g : Gallery) : Gallery :=
  mkGallery (videoCards g) (emptyState_hidden g) v
            (participantFilter_options g) (timers g).

Definition set_participantFilter_options
    (f : list HTMLOption -> list HTMLOption) (g : Gallery) : Gallery :=
  mkGallery (videoCards g) (emptyState_hidden g) (participantFilter_value g)
            (f (participantFilter_options g)) (timers g).

Definition set_timers (f : list nat -> list nat) (g : Gallery) : Gallery :=
  mkGallery (videoCards g) (emptyState_hidden g) (participantFilter_value g)
            (participantFilter_options g) (f (timers g)).

End Dom.
Export Dom.

(** ** Handlers: state and exceptions *)

Module Run.

Inductive JsError : Type := TypeError.

Inductive completion (A : Type) : Type :=
| Normal (a : A)
| Throw (e : JsError).
Arguments Normal {A} a.
Arguments Throw {A} e.

(** A piece of script: it runs on the page, and either completes with a
    value or throws; the page it leaves behind is kept in both cases. *)
Definition Handler (A : Type) : Type := Gallery -> completion A * Gallery.

Definition ret {A} (a : A) : Handler A := fun g => (Normal a, g).

Definition throw {A} (e : JsError) : Handler A := fun g => (Throw e, g).

Definition bind {A B} (m : Handler A) (k : A -> Handler B) : Handler B :=
  fun g => match m g with
           | (Normal a, g') => k a g'
           | (Throw e, g') => (Throw e, g')
           end.

Definition modify (f : Gallery -> Gallery) : Handler unit :=
  fun g => (Normal tt, f g).

Definition gets {A} (f : Gallery -> A) : Handler A :=
  fun g => (Normal (f g), g).

End Run.
Export Run.

Declare Scope handler_scope.
Delimit Scope handler_scope with handler.
Notation "'let*' x ':=' m 'in' k" :=
  (bind m (fun x => k))
  (at level 10, x pattern, m at level 100, k at level 200) : handler_scope.
Notation "m ';;;' k" :=
  (bind m (fun _ => k))
  (at level 100, k at level 200, right associativity) : handler_scope.
Local Open Scope handler_scope.

(** ** The script *)

Module Script.

(** The two revisions of the script under [src/]. *)
Inductive Revision : Type :=
| part_000    (* chips are rendered by the script *)
| script_js.  (* chips, if any, come from the markup *)

Definition MAX_VISIBLE_CHIPS : nat := 4.

(** *** Access to the node list *)

(** Reading a property of, and writing to, the card at position [card] of
    [videoCards].  A position outside the node list is a null reference. *)
Definition readCard {A} (card : nat) (prop : Card -> A) : Handler A :=
  fun g => match videoCards g !! card with
           | Some c => (Normal (prop c), g)
           | None => (Throw TypeError, g)
           end.

Definition writeCard (card : nat) (f : Card -> Card) : Handler unit :=
  fun g => match videoCards g !! card with
           | Some c => (Normal tt, set_videoCards (fun cs => <[card := f c]> cs) g)
           | None => (Throw TypeError, g)
           end.

(** [arr.forEach(body)] *)
Fixpoint forEach {A} (arr : list A) (body : A -> Handler unit) : Handler unit :=
  match arr with
  | [] => ret tt
  | x :: r => body x ;;; forEach r body
  end.

(** [arr.forEach(body)] where [body] also updates a local variable of the
    enclosing function. *)
Fixpoint forEach_local {A L} (arr : list A) (local : L)
    (body : A -> L -> Handler L) : Handler L :=
  match arr with
  | [] => ret local
  | x :: r => let* local' := body x local in forEach_local r local' body
  end.

(** The positions of the static node list [videoCards]. *)
Definition videoCards_positions : Handler (list nat) :=
  gets (fun g => seq 0 (length (videoCards g))).

(** [card.dataset.participants.split(',')]: a [TypeError] when the
    attribute is absent ([undefined.split]). *)
Definition dataset_participants_split (card : nat) : Handler (list jsstring) :=
  let* attr := readCard card card_data_participants in
  match attr with
  | Some p => ret (split_comma p)
  | None => throw TypeError
  end.

(** *** Participants data *)

Section Collation.
(** [a.localeCompare(b, 'es', { sensitivity: 'base' })], the host's
    collator. *)
Variable localeCompare : jsstring -> jsstring -> Z.

Definition collectParticipants : Handler (list jsstring) :=
  let* cards := videoCards_positions in
  let* participantsSet :=
    forEach_local cards [] (fun card participantsSet =>
      let* participants := dataset_participants_split card in
      ret (fold_left (fun set p => Set_add (trim p) set) participants
                     participantsSet)) in
  ret (sort localeCompare participantsSet).

Definition populateFilterDropdown : Handler unit :=
  let* participants := collectParticipants in
  forEach participants (fun participant =>
    modify (set_participantFilter_options
              (fun opts => opts ++ [mkOption participant participant]))).
End Collation.

(** *** Chip generation *)

(** The character written between [m] and [s] in the label literals of the
    source: U+CE58. *)
Definition label_char : N := 52824.

(** [`+${hiddenCount} m?s`] with the source's literal characters. *)
Definition expand_label (hiddenCount : Z) : jsstring :=
  lit "+" ++ Number_toString hiddenCount ++ lit " m" ++ [label_char] ++ lit "s".

(** [`Ver ${hiddenCount} participantes m?s`] *)
Definition expand_title (hiddenCount : Z) : jsstring :=
  lit "Ver " ++ Number_toString hiddenCount ++ lit " participantes m"
  ++ [label_char] ++ lit "s".

(** The selector [.chip:not(.chip--expand)] *)
Definition sel_chip_not_expand (e : Element) : bool :=
  classList_contains "chip" (el_classList e)
  && negb (classList_contains "chip--expand" (el_classList e)).

(** The selector [.chip] *)
Definition sel_chip (e : Element) : bool :=
  classList_contains "chip" (el_classList e).

(** [participants.forEach((participant, index) => ...)] of [generateChips]:
    the chip elements in the order they are appended. *)
Definition create_chip (index : nat) (participant : jsstring) : Element :=
  let chip := createElement SPAN in
  let chip := set_el_classList (fun _ => ["chip"%string]) chip in
  let chip := set_el_textContent participant chip in
  if (MAX_VISIBLE_CHIPS <=? index)%nat
  then set_el_classList (classList_add "chip--hidden") chip
  else chip.

(** The expand control; [innerHTML] of a text without markup characters
    sets the text content. *)
Definition create_expandBtn (hiddenCount : Z) : Element :=
  let expandBtn := createElement BUTTON in
  let expandBtn :=
    set_el_classList (fun _ => ["chip"%string; "chip--expand"%string]) expandBtn in
  let expandBtn := set_el_type (lit "button") expandBtn in
  let expandBtn := set_el_aria_expanded str_false expandBtn in
  let expandBtn := set_el_textContent (expand_label hiddenCount) expandBtn in
  let expandBtn := set_el_title (expand_title hiddenCount) expandBtn in
  set_el_onclick_toggleChips expandBtn.

Definition generateChips (card : nat) : Handler unit :=
  let* pieces := dataset_participants_split card in
  let participants := List.map trim pieces in
  let totalCount := length participants in
  writeCard card (set_chips_children (fun _ => [])) ;;;
  forEach (imap pair participants) (fun '(index, participant) =>
    writeCard card (set_chips_children
                      (fun cs => cs ++ [create_chip index participant]))) ;;;
  if (MAX_VISIBLE_CHIPS <? totalCount)%nat then
    let hiddenCount := (Z.of_nat totalCount - Z.of_nat MAX_VISIBLE_CHIPS)%Z in
    writeCard card (set_chips_children
                      (fun cs => cs ++ [create_expandBtn hiddenCount]))
  else ret tt.

(** Applies [f] to the elements matched by [selector], except the first
    [skip] of them: [Array.from(querySelectorAll(..)).slice(skip).forEach]. *)
Fixpoint update_selected (selector : Element -> bool) (skip : nat)
    (f : Element -> Element) (children : list Element) : list Element :=
  match children with
  | [] => []
  | e :: r =>
      if selector e then
        match skip with
        | O => f e :: update_selected selector O f r
        | S k => e :: update_selected selector k f r
        end
      else e :: update_selected selector skip f r
  end.

(** [toggleChips(card, expandBtn)]; the control is the child at position
    [expandBtn] of the card's chip container. *)
Definition toggleChips (card expandBtn : nat) : Handler unit :=
  let* children := readCard card chips_children in
  match children !! expandBtn with
  | None => throw TypeError
  | Some btn =>
    let isExpanded := bool_decide (el_aria_expanded btn = Some str_true) in
    let* pieces := dataset_participants_split card in
    let participants := List.map trim pieces in
    let hiddenCount :=
      (Z.of_nat (length participants) - Z.of_nat MAX_VISIBLE_CHIPS)%Z in
    let onBtn (f : Element -> Element) :=
      writeCard card (set_chips_children (alter f expandBtn)) in
    let onToggleable (f : Element -> Element) :=
      writeCard card (set_chips_children
        (update_selected sel_chip_not_expand MAX_VISIBLE_CHIPS f)) in
    if isExpanded then
      onBtn (set_el_aria_expanded str_false) ;;;
      onBtn (set_el_textContent (expand_label hiddenCount)) ;;;
      onBtn (set_el_title (expand_title hiddenCount)) ;;;
      onToggleable (fun chip =>
        set_el_classList (classList_add "chip--hidden")
          (set_el_classList (classList_remove "chip--visible") chip))
    else
      onBtn (set_el_aria_expanded str_true) ;;;
      onBtn (set_el_textContent (lit "Ver menos")) ;;;
      onBtn (set_el_title (lit "Ocultar participantes")) ;;;
      onToggleable (fun chip =>
        set_el_classList (classList_add "chip--visible")
          (set_el_classList (classList_remove "chip--hidden") chip))
  end.

(** *** Video card interactions *)

(** [thumbnailBtn.getAttribute('aria-expanded') === 'true'] *)
Definition isExpanded (c : Card) : bool :=
  bool_decide (thumbnail_aria_expanded c = Some str_true).

Definition embed_url (videoId : option jsstring) : jsstring :=
  lit "https://www.youtube-nocookie.com/embed/"
  ++ default str_undefined videoId
  ++ lit "?rel=0&modestbranding=1&autoplay=1&enablejsapi=0".

(** Lazy load of the embed.  The [load] listener of the new iframe is the
    [IframeLoad] event below. *)
Definition loadYouTubeEmbed (card : nat) : Handler unit :=
  let* videoId := readCard card card_data_videoId in
  let* videoTitle := readCard card title_textContent in
  writeCard card
    (set_player_classList (classList_add "video-card__player--loading")) ;;;
  let iframe :=
    mkIframe (embed_url videoId) videoTitle
      (lit "accelerometer; autoplay; clipboard-write; encrypted-media; gyroscope; picture-in-picture; web-share")
      true (lit "strict-origin-when-cross-origin") (lit "lazy") in
  writeCard card (set_player_iframes (fun fs => fs ++ [iframe])).

(** [iframe.remove()] on the first iframe of the player, if there is one. *)
Definition remove_first_iframe (card : nat) : Handler unit :=
  let* iframes := readCard card player_iframes in
  match iframes with
  | _ :: _ => writeCard card (set_player_iframes (fun fs => tail fs))
  | [] => ret tt
  end.

Definition toggleVideoCard (card : nat) : Handler unit :=
  let* expanded := readCard card isExpanded in
  if expanded then
    (* Collapse *)
    writeCard card (set_thumbnail_aria_expanded str_false) ;;;
    writeCard card (set_embed_hidden true) ;;;
    writeCard card (set_card_data_expanded None) ;;;
    remove_first_iframe card
  else
    (* Collapse all other cards first *)
    let* cards := videoCards_positions in
    forEach cards (fun otherCard =>
      if bool_decide (otherCard <> card) then
        let* otherExpanded := readCard otherCard isExpanded in
        if otherExpanded then
          writeCard otherCard (set_thumbnail_aria_expanded str_false) ;;;
          writeCard otherCard (set_embed_hidden true) ;;;
          writeCard otherCard (set_card_data_expanded None) ;;;
          remove_first_iframe otherCard
        else ret tt
      else ret tt) ;;;
    (* Expand this card *)
    writeCard card (set_thumbnail_aria_expanded str_true) ;;;
    writeCard card (set_embed_hidden false) ;;;
    writeCard card (set_card_data_expanded (Some str_true)) ;;;
    loadYouTubeEmbed card ;;;
    (* setTimeout(() => card.scrollIntoView(..), 100) *)
    modify (set_timers (fun ts => ts ++ [card])).

(** *** Filtering *)

(** The chip selector of [filterVideos] in each revision. *)
Definition chip_selector (rev : Revision) : Element -> bool :=
  match rev with
  | part_000 => sel_chip_not_expand
  | script_js => sel_chip
  end.

(** The body of [chips.forEach] in [filterVideos]. *)
Definition highlight_chip (selectedParticipant : jsstring) (chip : Element) : Element :=
  if truthy selectedParticipant
     && bool_decide (trim (el_textContent chip) = selectedParticipant)
  then set_el_classList (classList_add "chip--highlighted") chip
  else set_el_classList (classList_remove "chip--highlighted") chip.

Definition filterVideos (rev : Revision) (selectedParticipant : jsstring)
    : Handler unit :=
  let* cards := videoCards_positions in
  let* visibleCount :=
    forEach_local cards 0%nat (fun card visibleCount =>
      let* pieces := dataset_participants_split card in
      let participants := List.map trim pieces in
      if negb (truthy selectedParticipant)
         || includes participants selectedParticipant
      then
        writeCard card (set_card_hidden false) ;;;
        let visibleCount := S visibleCount in
        writeCard card (set_chips_children
          (update_selected (chip_selector rev) 0
             (highlight_chip selectedParticipant))) ;;;
        ret visibleCount
      else
        writeCard card (set_card_hidden true) ;;;
        let* expanded := readCard card isExpanded in
        (if expanded then toggleVideoCard card else ret tt) ;;;
        ret visibleCount) in
  if (visibleCount =? 0)%nat
  then modify (set_emptyState_hidden false)
  else modify (set_emptyState_hidden true).

Definition resetFilter (rev : Revision) : Handler unit :=
  modify (set_participantFilter_value []) ;;;
  filterVideos rev [].

(** *** Event listeners *)

Definition key_Enter : jsstring := Eval cbv in lit "Enter".
Definition key_Space : jsstring := Eval cbv in lit " ".
Definition key_Escape : jsstring := Eval cbv in lit "Escape".

(** The [keydown] listener of a thumbnail. *)
Definition thumbnail_keydown (card : nat) (key : jsstring) : Handler unit :=
  if bool_decide (key = key_Enter) || bool_decide (key = key_Space)
  then toggleVideoCard card
  else ret tt.

(** The [keydown] listener of the document. *)
Definition document_keydown (key : jsstring) : Handler unit :=
  if bool_decide (key = key_Escape) then
    let* cards := videoCards_positions in
    forEach cards (fun card =>
      let* expanded := readCard card isExpanded in
      if expanded then toggleVideoCard card else ret tt)
  else ret tt.

(** The [change] listener of the filter control; the control already shows
    the chosen value when it runs. *)
Definition participantFilter_change (rev : Revision) (value : jsstring)
    : Handler unit :=
  modify (set_participantFilter_value value) ;;;
  filterVideos rev value.

(** The [load] listener of an embedded player. *)
Definition iframe_load (card : nat) : Handler unit :=
  writeCard card
    (set_player_classList (classList_remove "video-card__player--loading")).

(** What the user and the host can do to the page. *)
Inductive Event : Type :=
| ClickThumbnail (card : nat)
| KeydownThumbnail (card : nat) (key : jsstring)
| KeydownDocument (key : jsstring)
| ChangeFilter (value : jsstring)
| ClickReset
| ClickExpandControl (card expandBtn : nat)
| IframeLoad (card : nat)
| TimerFires.

(** An event can occur when its target exists and carries the listener. *)
Definition enabled (ev : Event) (g : Gallery) : bool :=
  match ev with
  | ClickThumbnail card | KeydownThumbnail card _ =>
      bool_decide (card < length (videoCards g))%nat
  | ClickExpandControl card expandBtn =>
      match videoCards g !! card with
      | Some c => match chips_children c !! expandBtn with
                  | Some btn => el_onclick_toggleChips btn
                  | None => false
                  end
      | None => false
      end
  | IframeLoad card =>
      match videoCards g !! card with
      | Some c => match player_iframes c with [] => false | _ => true end
      | None => false
      end
  | TimerFires => match timers g with [] => false | _ => true end
  | KeydownDocument _ | ChangeFilter _ | ClickReset => true
  end.

(** The listeners an event runs, in dispatch order (a key pressed on a
    thumbnail bubbles to the document). *)
Definition dispatch (rev : Revision) (ev : Event) : Handler unit :=
  match ev with
  | ClickThumbnail card => toggleVideoCard card
  | KeydownThumbnail card key =>
      thumbnail_keydown card key ;;; document_keydown key
  | KeydownDocument key => document_keydown key
  | ChangeFilter value => participantFilter_change rev value
  | ClickReset => resetFilter rev
  | ClickExpandControl card expandBtn => toggleChips card expandBtn
  | IframeLoad card => iframe_load card
  | TimerFires => modify (set_timers (fun ts => tail ts))
  end.

(** *** Initialization *)

Section Init.
Variable localeCompare : jsstring -> jsstring -> Z.

Definition init (rev : Revision) : Handler unit :=
  match rev with
  | part_000 =>
      let* cards := videoCards_positions in
      forEach cards generateChips ;;;
      populateFilterDropdown localeCompare
  | script_js => populateFilterDropdown localeCompare
  end.
End Init.

End Script.
Export Script.

(** ** Reachable pages *)

Module Reach.

(** What the static markup is taken to look like when the script starts:
    no card is expanded, no player holds an iframe, no chip of the markup is
    highlighted or carries a listener, no timer is pending and the filter
    control shows its empty entry. *)
Definition markup_card (c : Card) : Prop :=
  isExpanded c = false
  /\ player_iframes c = []
  /\ Forall (fun e => el_onclick_toggleChips e = false
                      /\ classList_contains "chip--highlighted" (el_classList e) = false)
            (chips_children c).

Definition markup (g : Gallery) : Prop :=
  Forall markup_card (videoCards g)
  /\ timers g = []
  /\ participantFilter_value g = [].

Section Reachable.
Variable localeCompare : jsstring -> jsstring -> Z.
Variable rev : Revision.

(** The pages the script can be in: the page left by [init] on the
    markup, and any page left by the listeners of an event that can occur
    (whether they complete or throw). *)
Inductive reachable : Gallery -> Prop :=
| reachable_init g0 g :
    markup g0 ->
    init localeCompare rev g0 = (Normal tt, g) ->
    reachable g
| reachable_step g ev r g' :
    reachable g ->
    enabled ev g = true ->
    dispatch rev ev g = (r, g') ->
    reachable g'.
End Reachable.

End Reach.
Export Reach.

(** ** The transitions of a card, as functions *)

Module Transitions.

(** The expanded -> collapsed transition of one card. *)
Definition collapse_card (c : Card) : Card :=
  set_player_iframes (fun fs => tail fs)
    (set_card_data_expanded None
       (set_embed_hidden true
          (set_thumbnail_aria_expanded str_false c))).

Definition collapse_if_expanded (c : Card) : Card :=
  if isExpanded c then collapse_card c else c.

(** The iframe [loadYouTubeEmbed] creates for a card. *)
Definition embed_iframe (c : Card) : Iframe :=
  mkIframe (embed_url (card_data_videoId c)) (title_textContent c)
    (lit "accelerometer; autoplay; clipboard-write; encrypted-media; gyroscope; picture-in-picture; web-share")
    true (lit "strict-origin-when-cross-origin") (lit "lazy").

(** The collapsed -> expanded transition of one card. *)
Definition expand_card (c : Card) : Card :=
  set_player_iframes (fun fs => fs ++ [embed_iframe c])
    (set_player_classList (classList_add "video-card__player--loading")
       (set_card_data_expanded (Some str_true)
          (set_embed_hidden false
             (set_thumbnail_aria_expanded str_true c)))).

(** The participant names of a card: its list attribute split and trimmed. *)
Definition participants_of (p : jsstring) : list jsstring :=
  List.map trim (split_comma p).

(** Whether [filterVideos(selection)] keeps a card with these names. *)
Definition matches (selection : jsstring) (p : jsstring) : bool :=
  negb (truthy selection) || includes (participants_of p) selection.

(** What one round of the loop of [filterVideos] does to a card. *)
Definition filter_card (rev : Revision) (selection : jsstring) (c : Card) : Card :=
  match card_data_participants c with
  | Some p =>
      if matches selection p then
        set_chips_children
          (update_selected (chip_selector rev) 0 (highlight_chip selection))
          (set_card_hidden false c)
      else collapse_if_expanded (set_card_hidden true c)
  | None => c
  end.

(** The local counter of [filterVideos] after a card. *)
Definition count_visible (selection : jsstring) (visibleCount : nat) (c : Card) : nat :=
  match card_data_participants c with
  | Some p => if matches selection p then S visibleCount else visibleCount
  | None => visibleCount
  end.

(** The local set of [collectParticipants] after a card. *)
Definition collect_card (participantsSet : list jsstring) (c : Card) : list jsstring :=
  match card_data_participants c with
  | Some p => fold_left (fun set x => Set_add (trim x) set) (split_comma p)
                        participantsSet
  | None => participantsSet
  end.

(** The [Set] of [collectParticipants] once every card is read, in
    insertion order. *)
Definition participants_set (cards : list Card) : list jsstring :=
  fold_left collect_card cards [].

(** Two names the comparator does not tell apart. *)
Definition collates_equal (compareFn : jsstring -> jsstring -> Z)
    (a b : jsstring) : bool :=
  (compareFn a b <=? 0)%Z && (compareFn b a <=? 0)%Z.

Definition has_participants (c : Card) : bool :=
  match card_data_participants c with Some _ => true | None => false end.

(** A chip carries the highlight class. *)
Definition highlighted (e : Element) : bool :=
  classList_contains "chip--highlighted" (el_classList e).

(** The children [generateChips] leaves in the chip container. *)
Definition render_chips (participants : list jsstring) : list Element :=
  imap create_chip participants
  ++ (if (MAX_VISIBLE_CHIPS <? length participants)%nat
      then [create_expandBtn
              (Z.of_nat (length participants) - Z.of_nat MAX_VISIBLE_CHIPS)]
      else []).

(** What [toggleChips] does to the overflow chips. *)
Definition hide_chip (chip : Element) : Element :=
  set_el_classList (classList_add "chip--hidden")
    (set_el_classList (classList_remove "chip--visible") chip).

Definition reveal_chip (chip : Element) : Element :=
  set_el_classList (classList_add "chip--visible")
    (set_el_classList (classList_remove "chip--hidden") chip).

(** The children of the chip container after [toggleChips] ran on the
    control at position [expandBtn] that reported [expanded], for a card
    with [count] listed names. *)
Definition toggle_children (expandBtn : nat) (count : nat) (expanded : bool)
    (children : list Element) : list Element :=
  let hiddenCount := (Z.of_nat count - Z.of_nat MAX_VISIBLE_CHIPS)%Z in
  if expanded then
    update_selected sel_chip_not_expand MAX_VISIBLE_CHIPS hide_chip
      (alter (set_el_title (expand_title hiddenCount)) expandBtn
         (alter (set_el_textContent (expand_label hiddenCount)) expandBtn
            (alter (set_el_aria_expanded str_false) expandBtn children)))
  else
    update_selected sel_chip_not_expand MAX_VISIBLE_CHIPS reveal_chip
      (alter (set_el_title (lit "Ocultar participantes")) expandBtn
         (alter (set_el_textContent (lit "Ver menos")) expandBtn
            (alter (set_el_aria_expanded str_true) expandBtn children))).

(** The shapes chips and the expand control take. *)
Definition chip_shown (name : jsstring) : Element :=
  mkElement SPAN ["chip"%string] name None None None false.

Definition chip_overflow (state : string) (name : jsstring) : Element :=
  mkElement SPAN ["chip"%string; state] name None None None false.

Definition expand_control (aria label title : jsstring) : Element :=
  mkElement BUTTON ["chip"%string; "chip--expand"%string] label
            (Some (lit "button")) (Some aria) (Some title) true.

(** A card once [generateChips] has rendered its chips. *)
Definition rendered_card (c : Card) : Card :=
  match card_data_participants c with
  | Some p => set_chips_children (fun _ => render_chips (participants_of p)) c
  | None => c
  end.

(** The label as the specification spells it, "+N más" with U+00E1. *)
Definition label_mas (hiddenCount : Z) : jsstring :=
  lit "+" ++ Number_toString hiddenCount ++ lit " m" ++ [225] ++ lit "s".

End Transitions.
Export Transitions.

(** ** What holds of every reachable page *)

Module Invariant.

(** A collapsed card has an empty player, an expanded one holds the one
    iframe its expansion created. *)
Definition player_ok (c : Card) : Prop :=
  if isExpanded c then length (player_iframes c) = 1%nat
  else player_iframes c = [].

(** The children of a chip container.  In [part_000] each is a rendered
    chip (its text a trimmed name, no listener) or the expand control
    (never highlighted); in [script_js] none carries the listener. *)
Definition chip_child_ok (rev : Revision) (e : Element) : Prop :=
  match rev with
  | part_000 =>
      (sel_chip_not_expand e = true
       /\ trim (el_textContent e) = el_textContent e
       /\ el_onclick_toggleChips e = false)
      \/ (sel_chip_not_expand e = false /\ highlighted e = false)
  | script_js => el_onclick_toggleChips e = false
  end.

(** A chip is highlighted exactly when a filter is active and names it. *)
Definition highlight_ok (rev : Revision) (selection : jsstring) (e : Element) : Prop :=
  chip_selector rev e = true ->
  (highlighted e = true
   <-> selection <> [] /\ trim (el_textContent e) = selection).

Definition card_ok (rev : Revision) (selection : jsstring) (c : Card) : Prop :=
  has_participants c = true
  /\ player_ok c
  /\ Forall (chip_child_ok rev) (chips_children c)
  /\ (card_hidden c = false ->
      Forall (highlight_ok rev selection) (chips_children c)).

(** No two cards are expanded. *)
Definition at_most_one_expanded (cards : list Card) : Prop :=
  forall i j ci cj,
    cards !! i = Some ci -> cards !! j = Some cj ->
    isExpanded ci = true -> isExpanded cj = true -> i = j.

Definition page_ok (rev : Revision) (g : Gallery) : Prop :=
  Forall (card_ok rev (participantFilter_value g)) (videoCards g)
  /\ at_most_one_expanded (videoCards g).

End Invariant.
Export Invariant.

(** ** Sample pages *)

Module Samples.

(** A card as the markup declares it: collapsed, visible, no chips yet. *)
Definition sample_card (participants videoId title : string) : Card :=
  mkCard false (Some (lit participants)) (Some (lit videoId)) None
         (Some str_false) true [] [] (lit title) [].

Definition card_ana_beto : Card := sample_card "Ana, Beto" "v1" "Paseo".
Definition card_beto : Card := sample_card "Beto" "v2" "Cena".

(** A card whose markup lacks the participant list. *)
Definition card_unlisted : Card :=
  mkCard false None (Some (lit "v3")) None (Some str_false) true [] []
         (lit "Fiesta") [].

Definition sample_page (cards : list Card) : Gallery :=
  mkGallery cards true [] [mkOption [] (lit "Todos")] [].

Definition page_two : Gallery := sample_page [card_ana_beto; card_beto].

(** A stand-in for the host's collator: code units compared after folding
    ASCII capitals to small letters.  It is used for examples only. *)
Definition fold_case (c : N) : N :=
  if (65 <=? c) && (c <=? 90) then c + 32 else c.

Fixpoint sample_compare (a b : jsstring) : Z :=
  match a, b with
  | [], [] => 0%Z
  | [], _ :: _ => (-1)%Z
  | _ :: _, [] => 1%Z
  | x :: a', y :: b' =>
      match N.compare (fold_case x) (fold_case y) with
      | Lt => (-1)%Z
      | Gt => 1%Z
      | Eq => sample_compare a' b'
      end
  end.

(** The two cards of the directory example. *)
Definition page_directory : Gallery :=
  sample_page [sample_card "beto, Ana" "v4" "Playa"; sample_card "ana" "v5" "Finca"].

(** [page_two] once the script has started, then with the first card
    playing, then filtered to "Beto" and after that to "Ana". *)
Definition page_two_ready : Gallery :=
  snd (init sample_compare part_000 page_two).

Definition page_two_playing : Gallery :=
  snd (dispatch part_000 (ClickThumbnail 0) page_two_ready).

Definition page_two_beto : Gallery :=
  snd (dispatch part_000 (ChangeFilter (lit "Beto")) page_two_ready).

Definition page_two_ana : Gallery :=
  snd (dispatch part_000 (ChangeFilter (lit "Ana")) page_two_beto).

End Samples.
Export Samples.

(** ** Further sample pages *)

Module MoreSamples.

(** A page whose second card lacks the participant list. *)
Definition page_unlisted : Gallery :=
  sample_page [card_ana_beto; card_unlisted; card_beto].

(** A card that lists seven names, one of them twice and one empty. *)
Definition card_seven : Card :=
  sample_card "Ana, Beto,  Caro ,Dani,,Ana,Fer" "v7" "Navidad".

Definition page_seven : Gallery := sample_page [card_seven; card_beto].

(** A card without a video identifier. *)
Definition card_no_video : Card :=
  mkCard false (Some (lit "Ana")) None None None true [] [] (lit "Sin video") [].

(** [page_seven] once the script has started, and after a click on the
    expand control of its first card. *)
Definition page_seven_ready : Gallery :=
  snd (init sample_compare part_000 page_seven).

Definition page_seven_revealed : Gallery :=
  snd (dispatch part_000 (ClickExpandControl 0 7) page_seven_ready).

End MoreSamples.
Export MoreSamples.

(** ** What one event can do to a card *)

Module Steps.

(** The ways the listeners of one event rewrite a single card.  An event
    that filters, with selection [v], runs a round of [filterVideos] on
    every card; any other event leaves a card alone, makes one of the two
    expansion transitions, runs [toggleChips] on a control that carries the
    listener, or is the load event of the card's player. *)
Inductive card_step (rev : Revision) : option jsstring -> Card -> Card -> Prop :=
| step_filter selection c :
    card_step rev (Some selection) c (filter_card rev selection c)
| step_same c :
    card_step rev None c c
| step_collapse c :
    isExpanded c = true ->
    card_step rev None c (collapse_card c)
| step_expand c :
    isExpanded c = false ->
    card_step rev None c (expand_card c)
| step_toggle_chips c expandBtn btn p :
    chips_children c !! expandBtn = Some btn ->
    el_onclick_toggleChips btn = true ->
    card_data_participants c = Some p ->
    card_step rev None c
      (set_chips_children
         (toggle_children expandBtn (length (split_comma p))
            (bool_decide (el_aria_expanded btn = Some str_true))) c)
| step_loaded c :
    card_step rev None c
      (set_player_classList
         (classList_remove "video-card__player--loading") c).

(** The filter control after an event of the given kind. *)
Definition value_after (kind : option jsstring) (g : Gallery) : jsstring :=
  match kind with
  | Some selection => selection
  | None => participantFilter_value g
  end.

(** The texts of the participant chips of a card, in document order. *)
Definition chip_texts (c : Card) : list jsstring :=
  List.map el_textContent (List.filter sel_chip_not_expand (chips_children c)).

(** An element without its highlight mark. *)
Definition without_highlight (e : Element) : Element :=
  set_el_classList (classList_remove "chip--highlighted") e.

(** The chip container of a card that lists [names], as [generateChips]
    renders it, or with the overflow revealed by one [toggleChips]. *)
Definition chips_view (names : list jsstring) (expanded : bool) : list Element :=
  if expanded
  then toggle_children (length names) (length names) false (render_chips names)
  else render_chips names.

End Steps.
Export Steps.


(** * Properties *)

(** ** Running handlers *)

Lemma bind_Normal {A B} (m : Handler A) (k : A -> Handler B) g a g' :
  m g = (Normal a, g') -> bind m k g = k a g'.
Proof. unfold bind. intros ->. reflexivity. Qed.

Lemma bind_Throw {A B} (m : Handler A) (k : A -> Handler B) g e g' :
  m g = (Throw e, g') -> bind m k g = (Throw e, g').
Proof. unfold bind. intros ->. reflexivity. Qed.

Lemma readCard_Some {A} card (prop : Card -> A) g c :
  videoCards g !! card = Some c -> readCard card prop g = (Normal (prop c), g).
Proof. unfold readCard. intros ->. reflexivity. Qed.

Lemma writeCard_Some card f g c :
  videoCards g !! card = Some c ->
  writeCard card f g
  = (Normal tt, set_videoCards (fun _ => <[card := f c]> (videoCards g)) g).
Proof. unfold writeCard. intros ->. reflexivity. Qed.

Lemma set_videoCards_same g :
  set_videoCards (fun _ => videoCards g) g = g.
Proof. destruct g; reflexivity. Qed.

Lemma lookup_set_videoCards_insert g card c x :
  videoCards g !! card = Some c ->
  videoCards (set_videoCards (fun _ => <[card := x]> (videoCards g)) g) !! card
  = Some x.
Proof.
  intros H. simpl. apply list_lookup_insert_eq. eapply lookup_lt_Some, H.
Qed.

(** Successive writes to one card compose. *)
Lemma writeCard_twice card f1 f2 g c :
  videoCards g !! card = Some c ->
  (writeCard card f1 ;;; writeCard card f2) g
  = (Normal tt, set_videoCards (fun _ => <[card := f2 (f1 c)]> (videoCards g)) g).
Proof.
  intros H. erewrite bind_Normal by (apply writeCard_Some, H).
  erewrite writeCard_Some by (eapply lookup_set_videoCards_insert, H).
  simpl. rewrite list_insert_insert_eq. reflexivity.
Qed.

Lemma remove_first_iframe_Some card g c :
  videoCards g !! card = Some c ->
  remove_first_iframe card g
  = (Normal tt,
     set_videoCards
       (fun _ => <[card := set_player_iframes (fun fs => tail fs) c]> (videoCards g)) g).
Proof.
  intros H. unfold remove_first_iframe.
  erewrite bind_Normal by (apply readCard_Some, H).
  destruct (player_iframes c) eqn:E.
  - unfold ret. f_equal.
    replace (set_player_iframes (fun fs => tail fs) c) with c
      by (destruct c; simpl in *; subst; reflexivity).
    rewrite list_insert_id by exact H. symmetry. apply set_videoCards_same.
  - apply writeCard_Some, H.
Qed.

(** The collapse sequence shared by [toggleVideoCard] and its loop over the
    other cards. *)
Lemma collapse_sequence card g c :
  videoCards g !! card = Some c ->
  (writeCard card (set_thumbnail_aria_expanded str_false) ;;;
   writeCard card (set_embed_hidden true) ;;;
   writeCard card (set_card_data_expanded None) ;;;
   remove_first_iframe card) g
  = (Normal tt,
     set_videoCards (fun _ => <[card := collapse_card c]> (videoCards g)) g).
Proof.
  intros H.
  erewrite bind_Normal by (apply writeCard_Some, H).
  erewrite bind_Normal
    by (apply writeCard_Some; eapply lookup_set_videoCards_insert, H).
  erewrite bind_Normal
    by (apply writeCard_Some; simpl; rewrite list_insert_insert_eq;
        apply list_lookup_insert_eq; eapply lookup_lt_Some, H).
  erewrite remove_first_iframe_Some
    by (simpl; rewrite !list_insert_insert_eq;
        apply list_lookup_insert_eq; eapply lookup_lt_Some, H).
  simpl. rewrite !list_insert_insert_eq. reflexivity.
Qed.

(** ** Loops over the node list *)

Lemma insert_middle {A} (pre rest : list A) (c x : A) :
  <[length pre := x]> (pre ++ c :: rest) = pre ++ x :: rest.
Proof.
  rewrite insert_app_r_alt by lia. rewrite Nat.sub_diag. reflexivity.
Qed.

Lemma lookup_middle {A} (pre rest : list A) (c : A) :
  (pre ++ c :: rest) !! length pre = Some c.
Proof. apply list_lookup_middle. reflexivity. Qed.

(** A loop whose round [j] rewrites card [j] alone rewrites every card. *)
Lemma forEach_positions_from (F : nat -> Card -> Card) (body : nat -> Handler unit) :
  (forall j g c, videoCards g !! j = Some c ->
     body j g = (Normal tt, set_videoCards (fun _ => <[j := F j c]> (videoCards g)) g)) ->
  forall rest pre g, videoCards g = pre ++ rest ->
    forEach (seq (length pre) (length rest)) body g
    = (Normal tt,
       set_videoCards (fun _ => pre ++ imap (fun j => F (length pre + j)%nat) rest) g).
Proof.
  intros Hbody. induction rest as [|c rest IH]; intros pre g Hg.
  - simpl. unfold ret. rewrite <- Hg, set_videoCards_same. reflexivity.
  - simpl. erewrite bind_Normal
      by (apply Hbody; rewrite Hg; apply lookup_middle).
    rewrite Hg, insert_middle.
    specialize (IH (pre ++ [F (length pre) c])
                  (set_videoCards (fun _ => pre ++ F (length pre) c :: rest) g)).
    rewrite length_app in IH. simpl in IH.
    rewrite Nat.add_1_r in IH. rewrite IH.
    + f_equal. unfold set_videoCards. simpl. f_equal.
      rewrite <- app_assoc. simpl. rewrite Nat.add_0_r. do 2 f_equal.
      apply imap_ext. intros i x _. simpl. f_equal. lia.
    + simpl. rewrite <- app_assoc. reflexivity.
Qed.

Lemma forEach_positions (F : nat -> Card -> Card) (body : nat -> Handler unit) g :
  (forall j g c, videoCards g !! j = Some c ->
     body j g = (Normal tt, set_videoCards (fun _ => <[j := F j c]> (videoCards g)) g)) ->
  forEach (seq 0 (length (videoCards g))) body g
  = (Normal tt, set_videoCards (fun _ => imap F (videoCards g)) g).
Proof.
  intros Hbody.
  apply (forEach_positions_from F body Hbody (videoCards g) [] g). reflexivity.
Qed.

(** The same for a loop that also updates a local variable and throws on the
    cards that fail [ok]. *)
Lemma forEach_local_positions_from {L} (F : Card -> Card) (upd : L -> Card -> L)
    (ok : Card -> bool) (body : nat -> L -> Handler L) :
  (forall j acc g c, videoCards g !! j = Some c -> ok c = true ->
     body j acc g
     = (Normal (upd acc c), set_videoCards (fun _ => <[j := F c]> (videoCards g)) g)) ->
  (forall j acc g c, videoCards g !! j = Some c -> ok c = false ->
     fst (body j acc g) = Throw TypeError) ->
  forall rest pre acc g, videoCards g = pre ++ rest ->
    (forallb ok rest = true ->
       forEach_local (seq (length pre) (length rest)) acc body g
       = (Normal (fold_left upd rest acc),
          set_videoCards (fun _ => pre ++ List.map F rest) g))
    /\ (forallb ok rest = false ->
        fst (forEach_local (seq (length pre) (length rest)) acc body g)
        = Throw TypeError).
Proof.
  intros Hok Hbad. induction rest as [|c rest IH]; intros pre acc g Hg.
  - split; [intros _ | discriminate].
    simpl. unfold ret. rewrite app_nil_r, <- (app_nil_r pre), <- Hg.
    rewrite set_videoCards_same. reflexivity.
  - assert (Hc : videoCards g !! length pre = Some c)
      by (rewrite Hg; apply lookup_middle).
    destruct (ok c) eqn:Eok.
    + specialize (IH (pre ++ [F c]) (upd acc c)
                    (set_videoCards (fun _ => pre ++ F c :: rest) g)).
      rewrite length_app in IH. simpl in IH. rewrite Nat.add_1_r in IH.
      destruct IH as [IH1 IH2]; [simpl; rewrite <- app_assoc; reflexivity|].
      simpl. rewrite Eok. simpl.
      erewrite !bind_Normal by (apply Hok; eassumption).
      rewrite Hg, insert_middle.
      split; intros Hrest.
      * rewrite IH1 by exact Hrest. simpl. rewrite <- app_assoc. reflexivity.
      * apply IH2, Hrest.
    + split; [simpl; rewrite Eok; discriminate | intros _].
      simpl. unfold bind.
      specialize (Hbad (length pre) acc g c Hc Eok).
      destruct (body (length pre) acc g) as [[a|e] g']; simpl in *; congruence.
Qed.

Lemma forEach_local_positions {L} (F : Card -> Card) (upd : L -> Card -> L)
    (ok : Card -> bool) (body : nat -> L -> Handler L) acc g :
  (forall j acc g c, videoCards g !! j = Some c -> ok c = true ->
     body j acc g
     = (Normal (upd acc c), set_videoCards (fun _ => <[j := F c]> (videoCards g)) g)) ->
  (forall j acc g c, videoCards g !! j = Some c -> ok c = false ->
     fst (body j acc g) = Throw TypeError) ->
  (forallb ok (videoCards g) = true ->
     forEach_local (seq 0 (length (videoCards g))) acc body g
     = (Normal (fold_left upd (videoCards g) acc),
        set_videoCards (fun _ => List.map F (videoCards g)) g))
  /\ (forallb ok (videoCards g) = false ->
      fst (forEach_local (seq 0 (length (videoCards g))) acc body g)
      = Throw TypeError).
Proof.
  intros Hok Hbad.
  apply (forEach_local_positions_from F upd ok body Hok Hbad (videoCards g) [] acc g).
  reflexivity.
Qed.

(** ** [toggleVideoCard] as a transition *)

Ltac lookup_written H :=
  simpl; rewrite ?list_insert_insert_eq;
  first [ exact H
        | apply list_lookup_insert_eq; eapply lookup_lt_Some, H ].

Ltac run_write H :=
  erewrite bind_Normal by (apply writeCard_Some; lookup_written H).

Ltac run_read H :=
  erewrite bind_Normal by (apply readCard_Some; lookup_written H).

Lemma videoCards_positions_eq g :
  videoCards_positions g = (Normal (seq 0 (length (videoCards g))), g).
Proof. reflexivity. Qed.

Lemma isExpanded_collapse_card c : isExpanded (collapse_card c) = false.
Proof. reflexivity. Qed.

Lemma isExpanded_expand_card c : isExpanded (expand_card c) = true.
Proof. reflexivity. Qed.

Lemma isExpanded_collapse_if_expanded c :
  isExpanded (collapse_if_expanded c) = false.
Proof.
  unfold collapse_if_expanded. destruct (isExpanded c) eqn:E; [reflexivity | exact E].
Qed.

Lemma collapse_if_expanded_id c :
  isExpanded c = false -> collapse_if_expanded c = c.
Proof. unfold collapse_if_expanded. intros ->. reflexivity. Qed.

Lemma toggleVideoCard_collapse card g c :
  videoCards g !! card = Some c ->
  isExpanded c = true ->
  toggleVideoCard card g
  = (Normal tt, set_videoCards (fun _ => <[card := collapse_card c]> (videoCards g)) g).
Proof.
  intros H E. unfold toggleVideoCard.
  erewrite bind_Normal by (apply readCard_Some, H). rewrite E.
  apply collapse_sequence, H.
Qed.

Lemma expand_sequence card g c :
  videoCards g !! card = Some c ->
  (writeCard card (set_thumbnail_aria_expanded str_true) ;;;
   writeCard card (set_embed_hidden false) ;;;
   writeCard card (set_card_data_expanded (Some str_true)) ;;;
   loadYouTubeEmbed card ;;;
   modify (set_timers (fun ts => ts ++ [card]))) g
  = (Normal tt,
     set_timers (fun ts => ts ++ [card])
       (set_videoCards (fun _ => <[card := expand_card c]> (videoCards g)) g)).
Proof.
  intros H. run_write H. run_write H. run_write H.
  unfold loadYouTubeEmbed.
  erewrite bind_Normal.
  2:{ run_read H. run_read H. run_write H.
      apply writeCard_Some. lookup_written H. }
  simpl. rewrite !list_insert_insert_eq. reflexivity.
Qed.

(** The loop of [toggleVideoCard] over the other cards. *)
Lemma collapse_others card g :
  forEach (seq 0 (length (videoCards g)))
    (fun otherCard =>
       if bool_decide (otherCard <> card) then
         let* otherExpanded := readCard otherCard isExpanded in
         if otherExpanded then
           writeCard otherCard (set_thumbnail_aria_expanded str_false) ;;;
           writeCard otherCard (set_embed_hidden true) ;;;
           writeCard otherCard (set_card_data_expanded None) ;;;
           remove_first_iframe otherCard
         else ret tt
       else ret tt) g
  = (Normal tt,
     set_videoCards
       (fun _ => imap (fun j c => if bool_decide (j <> card)
                                  then collapse_if_expanded c else c)
                      (videoCards g)) g).
Proof.
  apply forEach_positions. clear g. intros j g c H.
  assert (Hid : (ret tt : Handler unit) g
                = (Normal tt, set_videoCards (fun _ => <[j := c]> (videoCards g)) g)).
  { unfold ret. rewrite list_insert_id by exact H.
    rewrite set_videoCards_same. reflexivity. }
  destruct (bool_decide (j <> card)); [|exact Hid].
  erewrite bind_Normal by (apply readCard_Some, H).
  unfold collapse_if_expanded. destruct (isExpanded c); [|exact Hid].
  apply collapse_sequence, H.
Qed.

Lemma toggleVideoCard_expand card g c :
  videoCards g !! card = Some c ->
  isExpanded c = false ->
  toggleVideoCard card g
  = (Normal tt,
     set_timers (fun ts => ts ++ [card])
       (set_videoCards
          (fun _ => <[card := expand_card c]>
                      (List.map collapse_if_expanded (videoCards g))) g)).
Proof.
  intros H E. unfold toggleVideoCard.
  erewrite bind_Normal by (apply readCard_Some, H). rewrite E.
  erewrite bind_Normal by apply videoCards_positions_eq.
  erewrite bind_Normal by apply collapse_others.
  erewrite expand_sequence.
  2:{ simpl. rewrite list_lookup_imap, H. simpl.
      rewrite bool_decide_false by (intros Hne; apply Hne; reflexivity).
      reflexivity. }
  f_equal. unfold set_timers, set_videoCards. simpl. f_equal.
  apply list_eq. intros i.
  destruct (decide (i = card)) as [->|Hne].
  - rewrite !list_lookup_insert_eq; [reflexivity | |].
    + rewrite length_map. eapply lookup_lt_Some, H.
    + rewrite length_imap. eapply lookup_lt_Some, H.
  - rewrite !list_lookup_insert_ne by congruence.
    rewrite list_lookup_imap. change (List.map ?f ?l) with (f <$> l).
    rewrite list_lookup_fmap.
    destruct (videoCards g !! i); simpl; [|reflexivity].
    rewrite bool_decide_true by exact Hne. reflexivity.
Qed.

(** ** [filterVideos] as a map over the cards *)

Lemma dataset_participants_split_Some card g c p :
  videoCards g !! card = Some c ->
  card_data_participants c = Some p ->
  dataset_participants_split card g = (Normal (split_comma p), g).
Proof.
  intros H Hp. unfold dataset_participants_split.
  erewrite bind_Normal by (apply readCard_Some, H). rewrite Hp. reflexivity.
Qed.

Lemma dataset_participants_split_None card g c :
  videoCards g !! card = Some c ->
  card_data_participants c = None ->
  dataset_participants_split card g = (Throw TypeError, g).
Proof.
  intros H Hp. unfold dataset_participants_split.
  erewrite bind_Normal by (apply readCard_Some, H). rewrite Hp. reflexivity.
Qed.

Lemma filterVideos_round rev selection card visibleCount g c :
  videoCards g !! card = Some c ->
  has_participants c = true ->
  (let* pieces := dataset_participants_split card in
   let participants := List.map trim pieces in
   if negb (truthy selection) || includes participants selection
   then
     writeCard card (set_card_hidden false) ;;;
     let visibleCount := S visibleCount in
     writeCard card (set_chips_children
       (update_selected (chip_selector rev) 0 (highlight_chip selection))) ;;;
     ret visibleCount
   else
     writeCard card (set_card_hidden true) ;;;
     let* expanded := readCard card isExpanded in
     (if expanded then toggleVideoCard card else ret tt) ;;;
     ret visibleCount) g
  = (Normal (count_visible selection visibleCount c),
     set_videoCards (fun _ => <[card := filter_card rev selection c]> (videoCards g)) g).
Proof.
  intros H Hp. unfold has_participants in Hp.
  destruct (card_data_participants c) as [p|] eqn:Ep; [clear Hp | discriminate].
  erewrite bind_Normal by (eapply dataset_participants_split_Some; eassumption).
  unfold filter_card, count_visible. rewrite Ep.
  fold (participants_of p). fold (matches selection p).
  destruct (matches selection p).
  - run_write H. run_write H. simpl. rewrite !list_insert_insert_eq. reflexivity.
  - run_write H. run_read H.
    unfold collapse_if_expanded.
    change (isExpanded (set_card_hidden true c)) with (isExpanded c).
    destruct (isExpanded c) eqn:E.
    + erewrite bind_Normal.
      2:{ apply toggleVideoCard_collapse with (c := set_card_hidden true c);
          [lookup_written H | exact E]. }
      simpl. rewrite !list_insert_insert_eq. reflexivity.
    + reflexivity.
Qed.

Lemma filterVideos_Normal rev selection g :
  forallb has_participants (videoCards g) = true ->
  filterVideos rev selection g
  = (Normal tt,
     set_emptyState_hidden
       (negb (fold_left (count_visible selection) (videoCards g) 0 =? 0)%nat)
       (set_videoCards (fun _ => List.map (filter_card rev selection) (videoCards g)) g)).
Proof.
  intros Hall. unfold filterVideos.
  erewrite bind_Normal by apply videoCards_positions_eq.
  erewrite bind_Normal.
  2:{ eapply (forEach_local_positions (filter_card rev selection)
                (count_visible selection) has_participants); [| |exact Hall].
      - intros j acc g0 c H Hp. apply filterVideos_round; assumption.
      - intros j acc g0 c H Hp. unfold has_participants in Hp.
        destruct (card_data_participants c) eqn:Ep; [discriminate|].
        erewrite bind_Throw; [reflexivity|].
        eapply dataset_participants_split_None; eassumption. }
  destruct (fold_left _ _ _ =? 0)%nat; reflexivity.
Qed.

Lemma filterVideos_Throw rev selection g :
  forallb has_participants (videoCards g) = false ->
  fst (filterVideos rev selection g) = Throw TypeError.
Proof.
  intros Hall. unfold filterVideos.
  erewrite bind_Normal by apply videoCards_positions_eq.
  unfold bind at 1.
  match goal with |- context [forEach_local ?l ?a ?b g] =>
    pose proof (proj2 (forEach_local_positions (filter_card rev selection)
                (count_visible selection) has_participants b a g
                ltac:(intros; apply filterVideos_round; assumption)
                ltac:(intros j acc g0 c H Hp; unfold has_participants in Hp;
                      destruct (card_data_participants c) eqn:Ep; [discriminate|];
                      erewrite bind_Throw; [reflexivity|];
                      eapply dataset_participants_split_None; eassumption)) Hall) as HT;
    destruct (forEach_local l a b g) as [[v|e] g']
  end; simpl in HT; [discriminate | simpl; congruence].
Qed.

(** ** Strings, class lists and selections *)

Example split_comma_names :
  split_comma (lit "beto, Ana") = [lit "beto"; lit " Ana"]
  /\ split_comma (lit "a,,b,") = [lit "a"; []; lit "b"; []]
  /\ split_comma [] = [[]].
Proof. repeat split. Qed.

Example trim_names :
  trim (lit "  Ana Lucia ") = lit "Ana Lucia"
  /\ trim [160; 65; 10; 8232] = [65]
  /\ trim (lit "   ") = [].
Proof. repeat split. Qed.

Example Number_toString_values :
  Number_toString 12 = lit "12" /\ Number_toString (-3) = lit "-3"
  /\ Number_toString 0 = lit "0".
Proof. repeat split. Qed.

Lemma truthy_false s : truthy s = false <-> s = [].
Proof. destruct s; simpl; split; congruence. Qed.

Lemma includes_In arr x : includes arr x = true <-> In x arr.
Proof.
  unfold includes. rewrite existsb_exists. split.
  - intros (y & Hy & E). apply bool_decide_eq_true in E. subst. exact Hy.
  - intros H. exists x. split; [exact H | apply bool_decide_eq_true; reflexivity].
Qed.

Lemma matches_iff selection p :
  matches selection p = true
  <-> selection = [] \/ In selection (List.map trim (split_comma p)).
Proof.
  unfold matches, participants_of. rewrite orb_true_iff, negb_true_iff.
  rewrite truthy_false, includes_In. reflexivity.
Qed.

Lemma classList_contains_add t t' cl :
  classList_contains t (classList_add t' cl)
  = bool_decide (t = t') || classList_contains t cl.
Proof.
  unfold classList_contains, classList_add.
  destruct (bool_decide (t' ∈ cl)) eqn:E.
  - apply bool_decide_eq_true in E.
    destruct (bool_decide (t = t')) eqn:E'; [|reflexivity].
    apply bool_decide_eq_true in E'. subst. simpl.
    apply bool_decide_eq_true. exact E.
  - apply eq_true_iff_eq. rewrite orb_true_iff, !bool_decide_eq_true.
    rewrite elem_of_app, list_elem_of_singleton. tauto.
Qed.

Lemma classList_contains_remove t t' cl :
  classList_contains t (classList_remove t' cl)
  = negb (bool_decide (t = t')) && classList_contains t cl.
Proof.
  unfold classList_contains, classList_remove.
  apply eq_true_iff_eq.
  rewrite andb_true_iff, negb_true_iff, !bool_decide_eq_true, bool_decide_eq_false.
  rewrite list_elem_of_In, filter_In, <- list_elem_of_In.
  rewrite negb_true_iff, bool_decide_eq_false. tauto.
Qed.

Lemma highlighted_highlight_chip selection e :
  highlighted (highlight_chip selection e)
  = truthy selection && bool_decide (trim (el_textContent e) = selection).
Proof.
  unfold highlighted, highlight_chip.
  destruct (truthy selection && _); simpl.
  - rewrite classList_contains_add. reflexivity.
  - rewrite classList_contains_remove. reflexivity.
Qed.

Lemma chip_selector_highlight_chip rev selection e :
  chip_selector rev (highlight_chip selection e) = chip_selector rev e.
Proof.
  unfold highlight_chip.
  destruct rev, (truthy selection && _); simpl;
    unfold sel_chip_not_expand, sel_chip; simpl;
    rewrite ?classList_contains_add, ?classList_contains_remove; reflexivity.
Qed.

Lemma el_textContent_highlight_chip selection e :
  el_textContent (highlight_chip selection e) = el_textContent e.
Proof. unfold highlight_chip. destruct (truthy selection && _); reflexivity. Qed.

(** [querySelectorAll(..).forEach(f)] touches the matched children only. *)
Lemma update_selected_all selector f children :
  update_selected selector 0 f children
  = List.map (fun e => if selector e then f e else e) children.
Proof.
  induction children as [|e r IH]; simpl; [reflexivity|].
  rewrite IH. destruct (selector e); reflexivity.
Qed.

Lemma length_update_selected selector skip f children :
  length (update_selected selector skip f children) = length children.
Proof.
  revert skip. induction children as [|e r IH]; intros skip; simpl; [reflexivity|].
  destruct (selector e); [destruct skip|]; simpl; rewrite IH; reflexivity.
Qed.

(** ** What a round of [filterVideos] leaves on a card *)

Lemma card_hidden_collapse_if_expanded c :
  card_hidden (collapse_if_expanded c) = card_hidden c.
Proof. unfold collapse_if_expanded. destruct (isExpanded c); reflexivity. Qed.

Lemma card_hidden_filter_card rev selection c p :
  card_data_participants c = Some p ->
  card_hidden (filter_card rev selection c) = negb (matches selection p).
Proof.
  intros Hp. unfold filter_card. rewrite Hp.
  destruct (matches selection p); simpl; [reflexivity|].
  apply card_hidden_collapse_if_expanded.
Qed.

Lemma filter_card_hidden_expanded rev selection c p :
  card_data_participants c = Some p ->
  matches selection p = false ->
  isExpanded c = true ->
  filter_card rev selection c = collapse_card (set_card_hidden true c).
Proof.
  intros Hp Hm E. unfold filter_card. rewrite Hp, Hm.
  unfold collapse_if_expanded.
  change (isExpanded (set_card_hidden true c)) with (isExpanded c).
  rewrite E. reflexivity.
Qed.

Lemma has_participants_Some c :
  has_participants c = true -> exists p, card_data_participants c = Some p.
Proof.
  unfold has_participants. destruct (card_data_participants c); [eauto | discriminate].
Qed.

Lemma forallb_has_participants cs i c :
  forallb has_participants cs = true ->
  cs !! i = Some c ->
  exists p, card_data_participants c = Some p.
Proof.
  intros Hall H. apply has_participants_Some.
  rewrite forallb_forall in Hall. apply Hall.
  apply list_elem_of_In. eapply list_elem_of_lookup_2, H.
Qed.

Lemma count_visible_fold selection cs n :
  fold_left (count_visible selection) cs n
  = (n + length (List.filter
                   (fun c => match card_data_participants c with
                             | Some p => matches selection p
                             | None => false
                             end) cs))%nat.
Proof.
  revert n. induction cs as [|c cs IH]; intros n; simpl; [lia|].
  rewrite IH. unfold count_visible.
  destruct (card_data_participants c) as [p|]; [|reflexivity].
  destruct (matches selection p); simpl; lia.
Qed.

(** ** Properties of [filterVideos] *)

(** C1.  After [filterVideos(selection)] on cards that all carry a
    participant list, a card is visible exactly when the selection is empty
    or is one of the card's trimmed, comma-separated names; and a card the
    call hides while it is expanded is left collapsed by the call. *)
Theorem filterVideos_visibility rev selection g :
  forallb has_participants (videoCards g) = true ->
  exists g',
    filterVideos rev selection g = (Normal tt, g')
    /\ length (videoCards g') = length (videoCards g)
    /\ forall i c, videoCards g !! i = Some c ->
         exists c' p,
           videoCards g' !! i = Some c'
           /\ card_data_participants c = Some p
           /\ (card_hidden c' = false
               <-> selection = [] \/ In selection (List.map trim (split_comma p)))
           /\ (card_hidden c' = true -> isExpanded c = true ->
               c' = collapse_card (set_card_hidden true c)
               /\ isExpanded c' = false).
Proof.
  intros Hall. eexists. split; [apply filterVideos_Normal, Hall|].
  simpl. split; [apply length_map|].
  intros i c H. destruct (forallb_has_participants _ _ _ Hall H) as [p Hp].
  exists (filter_card rev selection c), p.
  split; [|split; [exact Hp|]].
  - change (List.map ?f ?l) with (f <$> l). rewrite list_lookup_fmap, H. reflexivity.
  - rewrite (card_hidden_filter_card _ _ _ _ Hp), negb_false_iff, matches_iff.
    split; [reflexivity|].
    rewrite negb_true_iff. intros Hm E.
    rewrite (filter_card_hidden_expanded _ _ _ _ Hp Hm E).
    split; reflexivity.
Qed.

Lemma filterVideos_visibility_witness :
  forallb has_participants (videoCards page_two) = true
  /\ exists g', filterVideos part_000 (lit "Ana") page_two = (Normal tt, g')
                /\ List.map card_hidden (videoCards g') = [false; true].
Proof.
  split; [reflexivity|].
  destruct (filterVideos_visibility part_000 (lit "Ana") page_two eq_refl)
    as (g' & Hrun & _).
  exists g'. split; [exact Hrun|].
  vm_compute in Hrun. injection Hrun as <-. reflexivity.
Defined.

Lemma length_filter_zero {A} (f : A -> bool) (l : list A) :
  length (List.filter f l) = 0%nat <-> forall x, In x l -> f x = false.
Proof.
  induction l as [|a l IH]; simpl.
  - split; [intros _ x [] | reflexivity].
  - destruct (f a) eqn:E; simpl.
    + split; [discriminate|]. intros H. specialize (H a (or_introl eq_refl)). congruence.
    + rewrite IH. split.
      * intros H x [<-|Hx]; [exact E | apply H, Hx].
      * intros H x Hx. apply H. right. exact Hx.
Qed.

(** C6.  After [filterVideos] the shared placeholder is shown exactly when
    no card is visible; it is hidden exactly when the selection is empty or
    names a participant of at least one card. *)
Theorem filterVideos_placeholder rev selection g :
  forallb has_participants (videoCards g) = true ->
  exists g',
    filterVideos rev selection g = (Normal tt, g')
    /\ (emptyState_hidden g' = false
        <-> forall c', In c' (videoCards g') -> card_hidden c' = true)
    /\ (emptyState_hidden g' = true
        <-> exists c p, In c (videoCards g)
              /\ card_data_participants c = Some p
              /\ (selection = [] \/ In selection (List.map trim (split_comma p)))).
Proof.
  intros Hall. eexists. split; [apply filterVideos_Normal, Hall|].
  simpl. rewrite count_visible_fold. simpl.
  rewrite negb_false_iff, negb_true_iff, Nat.eqb_eq, Nat.eqb_neq.
  rewrite length_filter_zero.
  assert (Hp : forall c, In c (videoCards g) ->
                 exists p, card_data_participants c = Some p).
  { intros c Hc. apply has_participants_Some.
    rewrite forallb_forall in Hall. apply Hall, Hc. }
  split.
  - split.
    + intros H c' Hc'. apply in_map_iff in Hc' as (c & <- & Hc).
      destruct (Hp c Hc) as [p Ep].
      rewrite (card_hidden_filter_card _ _ _ _ Ep).
      specialize (H c Hc). rewrite Ep in H. rewrite H. reflexivity.
    + intros H c Hc. destruct (Hp c Hc) as [p Ep]. rewrite Ep.
      specialize (H (filter_card rev selection c) (in_map _ _ _ Hc)).
      rewrite (card_hidden_filter_card _ _ _ _ Ep) in H.
      apply negb_true_iff in H. exact H.
  - split.
    + intros H.
      destruct (existsb (fun c => match card_data_participants c with
                                  | Some p => matches selection p
                                  | None => false end) (videoCards g)) eqn:Ex.
      * apply existsb_exists in Ex as (c & Hc & Hm).
        destruct (card_data_participants c) as [p|] eqn:Ep; [|discriminate].
        exists c, p. rewrite <- matches_iff. auto.
      * exfalso. apply H. intros c Hc.
        destruct (_ : bool) eqn:E in |- *; [|reflexivity].
        assert (existsb (fun c => match card_data_participants c with
                                  | Some p => matches selection p
                                  | None => false end) (videoCards g) = true)
          by (apply existsb_exists; eauto).
        congruence.
    + intros (c & p & Hc & Ep & Hm) H. specialize (H c Hc).
      rewrite Ep in H. apply matches_iff in Hm. congruence.
Qed.

Lemma filterVideos_placeholder_witness :
  forallb has_participants (videoCards page_two) = true
  /\ exists g', filterVideos part_000 (lit "Carla") page_two = (Normal tt, g')
                /\ emptyState_hidden g' = false.
Proof.
  split; [reflexivity|].
  destruct (filterVideos_placeholder part_000 (lit "Carla") page_two eq_refl)
    as (g' & Hrun & _).
  exists g'. split; [exact Hrun|].
  vm_compute in Hrun. injection Hrun as <-. reflexivity.
Defined.

(** C8.  [filterVideos('')], and [resetFilter], which calls it, leave every
    card visible and no chip of any card highlighted, whatever the filter
    was before. *)
Theorem empty_filter_restores rev g :
  forallb has_participants (videoCards g) = true ->
  (exists g',
     filterVideos rev [] g = (Normal tt, g')
     /\ forall c', In c' (videoCards g') ->
          card_hidden c' = false
          /\ forall e, In e (chips_children c') ->
               chip_selector rev e = true -> highlighted e = false)
  /\ (exists g',
        resetFilter rev g = (Normal tt, g')
        /\ participantFilter_value g' = []
        /\ forall c', In c' (videoCards g') ->
             card_hidden c' = false
             /\ forall e, In e (chips_children c') ->
                  chip_selector rev e = true -> highlighted e = false).
Proof.
  intros Hall.
  assert (Hcard : forall c', In c' (List.map (filter_card rev []) (videoCards g)) ->
            card_hidden c' = false
            /\ forall e, In e (chips_children c') ->
                 chip_selector rev e = true -> highlighted e = false).
  { intros c' Hc'. apply in_map_iff in Hc' as (c & <- & Hc).
    rewrite forallb_forall in Hall.
    destruct (has_participants_Some c (Hall c Hc)) as [p Ep].
    unfold filter_card. rewrite Ep. simpl. split; [reflexivity|].
    intros e He Hsel. rewrite update_selected_all in He.
    apply in_map_iff in He as (e0 & <- & He0).
    destruct (chip_selector rev e0) eqn:E0.
    - rewrite highlighted_highlight_chip. reflexivity.
    - rewrite Hsel in E0. discriminate. }
  split.
  - eexists. split; [apply filterVideos_Normal, Hall|]. exact Hcard.
  - eexists. split; [|split].
    + unfold resetFilter. erewrite bind_Normal by reflexivity.
      apply filterVideos_Normal. exact Hall.
    + reflexivity.
    + exact Hcard.
Qed.

(** ** [collectParticipants] *)

Lemma collectParticipants_round card participantsSet g c :
  videoCards g !! card = Some c ->
  has_participants c = true ->
  (let* participants := dataset_participants_split card in
   ret (fold_left (fun set p => Set_add (trim p) set) participants participantsSet)) g
  = (Normal (collect_card participantsSet c),
     set_videoCards (fun _ => <[card := c]> (videoCards g)) g).
Proof.
  intros H Hp. destruct (has_participants_Some c Hp) as [p Ep].
  erewrite bind_Normal by (eapply dataset_participants_split_Some; eassumption).
  unfold collect_card, ret. rewrite Ep.
  rewrite list_insert_id by exact H. rewrite set_videoCards_same. reflexivity.
Qed.

Lemma collectParticipants_round_fault card (participantsSet : list jsstring) g c :
  videoCards g !! card = Some c ->
  has_participants c = false ->
  (let* participants := dataset_participants_split card in
   ret (fold_left (fun set p => Set_add (trim p) set) participants participantsSet)) g
  = (Throw TypeError, g).
Proof.
  intros H Hp. unfold has_participants in Hp.
  destruct (card_data_participants c) eqn:Ep; [discriminate|].
  erewrite bind_Throw; [reflexivity|].
  eapply dataset_participants_split_None; eassumption.
Qed.

Lemma collectParticipants_Normal cmp g :
  forallb has_participants (videoCards g) = true ->
  collectParticipants cmp g
  = (Normal (sort cmp (fold_left collect_card (videoCards g) [])), g).
Proof.
  intros Hall. unfold collectParticipants.
  erewrite bind_Normal by apply videoCards_positions_eq.
  erewrite bind_Normal.
  2:{ eapply (forEach_local_positions (fun c => c) collect_card has_participants);
        [| |exact Hall].
      - intros j acc g0 c H Hp. apply collectParticipants_round; assumption.
      - intros j acc g0 c H Hp. cbv beta.
        rewrite (collectParticipants_round_fault _ _ _ _ H Hp). reflexivity. }
  unfold ret. rewrite map_id, set_videoCards_same. reflexivity.
Qed.

(** A loop of rounds that leave the page alone leaves the page alone. *)
Lemma forEach_local_readonly {A L} (arr : list A) (body : A -> L -> Handler L) :
  (forall x acc g, snd (body x acc g) = g) ->
  forall acc g, snd (forEach_local arr acc body g) = g.
Proof.
  intros Hbody. induction arr as [|x r IH]; intros acc g; simpl; [reflexivity|].
  unfold bind. specialize (Hbody x acc g).
  destruct (body x acc g) as [[a|e] g1]; simpl in *; subst; [apply IH | reflexivity].
Qed.

Lemma collectParticipants_readonly cmp g :
  snd (collectParticipants cmp g) = g.
Proof.
  unfold collectParticipants.
  erewrite bind_Normal by apply videoCards_positions_eq.
  unfold bind at 1.
  match goal with |- context [forEach_local ?l ?a ?b g] =>
    pose proof (forEach_local_readonly l b) as Hro;
    specialize (Hro ltac:(
      intros x acc g0; unfold bind, dataset_participants_split, bind, readCard;
      destruct (videoCards g0 !! x) as [c|]; [|reflexivity];
      destruct (card_data_participants c); reflexivity) a g);
    destruct (forEach_local l a b g) as [[v|e] g1]
  end; simpl in *; subst; reflexivity.
Qed.

Lemma collectParticipants_Throw cmp g :
  forallb has_participants (videoCards g) = false ->
  collectParticipants cmp g = (Throw TypeError, g).
Proof.
  intros Hall.
  pose proof (collectParticipants_readonly cmp g) as Hro.
  assert (Hf : fst (collectParticipants cmp g) = Throw TypeError).
  { unfold collectParticipants.
    erewrite bind_Normal by apply videoCards_positions_eq.
    unfold bind at 1.
    match goal with |- context [forEach_local ?l ?a ?b g] =>
      pose proof (proj2 (forEach_local_positions (fun c => c) collect_card
                  has_participants b a g
                  ltac:(intros; apply collectParticipants_round; assumption)
                  ltac:(intros j acc g0 c H Hp; cbv beta;
                        rewrite (collectParticipants_round_fault _ _ _ _ H Hp);
                        reflexivity)) Hall) as HT;
      destruct (forEach_local l a b g) as [[v|e] g1]
    end; simpl in HT; [discriminate | simpl; congruence]. }
  destruct (collectParticipants cmp g) as [r g1]. simpl in *. congruence.
Qed.

Lemma forallb_has_participants_false cs :
  (exists c, In c cs /\ card_data_participants c = None) ->
  forallb has_participants cs = false.
Proof.
  intros (c & Hc & Ep).
  destruct (forallb has_participants cs) eqn:E; [|reflexivity].
  rewrite forallb_forall in E. specialize (E c Hc).
  unfold has_participants in E. rewrite Ep in E. discriminate.
Qed.

(** C9.  When some card lacks the participant-list attribute,
    [collectParticipants()] and [filterVideos(selection)] do not return:
    each ends in an uncaught [TypeError]. *)
Theorem missing_participants_fault cmp rev selection g :
  (exists c, In c (videoCards g) /\ card_data_participants c = None) ->
  collectParticipants cmp g = (Throw TypeError, g)
  /\ fst (filterVideos rev selection g) = Throw TypeError.
Proof.
  intros H. apply forallb_has_participants_false in H. split.
  - apply collectParticipants_Throw, H.
  - apply filterVideos_Throw, H.
Qed.

Lemma missing_participants_fault_witness :
  (exists c, In c [card_ana_beto; card_unlisted; card_beto]
             /\ card_data_participants c = None)
  /\ collectParticipants sample_compare
       (sample_page [card_ana_beto; card_unlisted; card_beto])
     = (Throw TypeError, sample_page [card_ana_beto; card_unlisted; card_beto])
  /\ fst (filterVideos part_000 (lit "Beto")
            (sample_page [card_ana_beto; card_unlisted; card_beto]))
     = Throw TypeError.
Proof.
  assert (H : exists c, In c [card_ana_beto; card_unlisted; card_beto]
                        /\ card_data_participants c = None).
  { exists card_unlisted. split; [right; left; reflexivity | reflexivity]. }
  split; [exact H|].
  exact (missing_participants_fault sample_compare part_000 (lit "Beto")
           (sample_page [card_ana_beto; card_unlisted; card_beto]) H).
Defined.

(** ** The Escape key *)

Lemma document_keydown_Escape g :
  document_keydown key_Escape g
  = (Normal tt,
     set_videoCards (fun _ => List.map collapse_if_expanded (videoCards g)) g).
Proof.
  unfold document_keydown. rewrite bool_decide_true by reflexivity.
  erewrite bind_Normal by apply videoCards_positions_eq.
  rewrite (forEach_positions (fun _ => collapse_if_expanded)).
  - unfold set_videoCards. do 2 f_equal.
    exact (imap_const collapse_if_expanded (videoCards g)).
  - clear g. intros j g c H.
    erewrite bind_Normal by (apply readCard_Some, H).
    unfold collapse_if_expanded. destruct (isExpanded c) eqn:E.
    + apply toggleVideoCard_collapse; assumption.
    + unfold ret. rewrite list_insert_id by exact H.
      rewrite set_videoCards_same. reflexivity.
Qed.

Lemma map_collapse_if_expanded_none cs :
  (forall c, In c cs -> isExpanded c = false) ->
  List.map collapse_if_expanded cs = cs.
Proof.
  intros H. rewrite <- (map_id cs) at 2. apply map_ext_in.
  intros c Hc. apply collapse_if_expanded_id, H, Hc.
Qed.

Lemma map_collapse_if_expanded_one cs a ca :
  cs !! a = Some ca ->
  isExpanded ca = true ->
  (forall j c, j <> a -> cs !! j = Some c -> isExpanded c = false) ->
  List.map collapse_if_expanded cs = <[a := collapse_card ca]> cs.
Proof.
  intros Ha Ea Hothers. apply list_eq. intros i.
  change (List.map ?f ?l) with (f <$> l). rewrite list_lookup_fmap.
  destruct (decide (i = a)) as [->|Hne].
  - rewrite list_lookup_insert_eq by (eapply lookup_lt_Some, Ha).
    rewrite Ha. simpl. unfold collapse_if_expanded. rewrite Ea. reflexivity.
  - rewrite list_lookup_insert_ne by congruence.
    destruct (cs !! i) as [c|] eqn:Ei; simpl; [|reflexivity].
    rewrite collapse_if_expanded_id; [reflexivity|].
    eapply Hothers; eassumption.
Qed.

(** C7.  Escape with no card expanded changes nothing on the page; with
    exactly one card expanded it collapses that card, as a press of its own
    thumbnail would, and changes nothing else.  The key does the same
    whether it is pressed on the document or on a thumbnail. *)
Theorem escape_key g :
  ((forall c, In c (videoCards g) -> isExpanded c = false) ->
   document_keydown key_Escape g = (Normal tt, g))
  /\ (forall a ca,
        videoCards g !! a = Some ca ->
        isExpanded ca = true ->
        (forall j c, j <> a -> videoCards g !! j = Some c -> isExpanded c = false) ->
        document_keydown key_Escape g
        = (Normal tt,
           set_videoCards (fun _ => <[a := collapse_card ca]> (videoCards g)) g)
        /\ document_keydown key_Escape g = toggleVideoCard a g)
  /\ (forall rev card,
        dispatch rev (KeydownDocument key_Escape) g = document_keydown key_Escape g
        /\ dispatch rev (KeydownThumbnail card key_Escape) g
           = document_keydown key_Escape g).
Proof.
  split; [|split].
  - intros H. rewrite document_keydown_Escape.
    rewrite map_collapse_if_expanded_none by exact H.
    rewrite set_videoCards_same. reflexivity.
  - intros a ca Ha Ea Hothers. rewrite document_keydown_Escape.
    rewrite (map_collapse_if_expanded_one _ _ _ Ha Ea Hothers).
    split; [reflexivity|].
    symmetry. apply toggleVideoCard_collapse; assumption.
  - intros rev card. split; reflexivity.
Qed.

(** ** Toggling a card twice *)

(** C10.  A card that is collapsed with an empty player, toggled twice, is
    collapsed again: [aria-expanded] is ["false"], the embed container is
    hidden, the [data-expanded] marker is absent and the iframe that the
    first toggle created is gone from the player. *)
Theorem toggleVideoCard_twice card g c :
  videoCards g !! card = Some c ->
  isExpanded c = false ->
  player_iframes c = [] ->
  exists g1 g2 c1 c2,
    toggleVideoCard card g = (Normal tt, g1)
    /\ toggleVideoCard card g1 = (Normal tt, g2)
    /\ videoCards g1 !! card = Some c1
    /\ isExpanded c1 = true
    /\ player_iframes c1 = [embed_iframe c]
    /\ videoCards g2 !! card = Some c2
    /\ c2 = collapse_card c1
    /\ thumbnail_aria_expanded c2 = Some str_false
    /\ embed_hidden c2 = true
    /\ card_data_expanded c2 = None
    /\ player_iframes c2 = [].
Proof.
  intros H E Hif.
  assert (Hlen : (card < length (List.map collapse_if_expanded (videoCards g)))%nat)
    by (rewrite length_map; eapply lookup_lt_Some, H).
  eexists _, _, (expand_card c), (collapse_card (expand_card c)).
  split; [apply toggleVideoCard_expand; eassumption|].
  split.
  { apply toggleVideoCard_collapse with (c := expand_card c); [|reflexivity].
    simpl. apply list_lookup_insert_eq, Hlen. }
  split; [simpl; apply list_lookup_insert_eq, Hlen|].
  split; [reflexivity|].
  split; [simpl; rewrite Hif; reflexivity|].
  split.
  { simpl. rewrite list_insert_insert_eq. apply list_lookup_insert_eq, Hlen. }
  split; [reflexivity|].
  repeat split. simpl. rewrite Hif. reflexivity.
Qed.

Lemma toggleVideoCard_twice_witness :
  exists g1 g2,
    toggleVideoCard 1 page_two = (Normal tt, g1)
    /\ toggleVideoCard 1 g1 = (Normal tt, g2)
    /\ List.map player_iframes (videoCards g2) = [[]; []]
    /\ List.map isExpanded (videoCards g2) = [false; false].
Proof.
  destruct (toggleVideoCard_twice 1 page_two card_beto eq_refl eq_refl eq_refl)
    as (g1 & g2 & c1 & c2 & H1 & H2 & _).
  exists g1, g2. split; [exact H1|]. split; [exact H2|].
  vm_compute in H1. injection H1 as <-.
  vm_compute in H2. injection H2 as <-.
  split; reflexivity.
Defined.

(** ** Chip rendering *)

Lemma forEach_append_chips card (l : list (nat * jsstring)) g c :
  videoCards g !! card = Some c ->
  forEach l (fun '(index, participant) =>
    writeCard card (set_chips_children
                      (fun cs => cs ++ [create_chip index participant]))) g
  = (Normal tt,
     set_videoCards
       (fun _ => <[card := set_chips_children
                             (fun cs => cs ++ List.map (fun ip => create_chip ip.1 ip.2) l) c]>
                   (videoCards g)) g).
Proof.
  revert g c. induction l as [|[index participant] l IH]; intros g c H.
  - simpl. unfold ret.
    replace (set_chips_children _ c) with c
      by (destruct c; unfold set_chips_children; simpl; rewrite app_nil_r; reflexivity).
    rewrite list_insert_id by exact H. rewrite set_videoCards_same. reflexivity.
  - simpl. run_write H. erewrite IH by lookup_written H.
    simpl. rewrite list_insert_insert_eq.
    unfold set_chips_children. simpl. rewrite <- app_assoc. reflexivity.
Qed.

Lemma generateChips_Some card g c p :
  videoCards g !! card = Some c ->
  card_data_participants c = Some p ->
  generateChips card g
  = (Normal tt,
     set_videoCards
       (fun _ => <[card := set_chips_children
                             (fun _ => render_chips (participants_of p)) c]>
                   (videoCards g)) g).
Proof.
  intros H Hp. unfold generateChips.
  erewrite bind_Normal by (eapply dataset_participants_split_Some; eassumption).
  fold (participants_of p). run_write H.
  erewrite bind_Normal by (apply forEach_append_chips; lookup_written H).
  unfold render_chips.
  assert (Hmap : List.map (fun ip : nat * jsstring => create_chip ip.1 ip.2)
                   (imap pair (participants_of p))
                 = imap create_chip (participants_of p)).
  { change (List.map ?f ?l) with (f <$> l). rewrite fmap_imap. reflexivity. }
  destruct (MAX_VISIBLE_CHIPS <? length (participants_of p))%nat.
  - erewrite writeCard_Some by lookup_written H.
    simpl. rewrite !list_insert_insert_eq, Hmap. reflexivity.
  - unfold ret. simpl. rewrite !list_insert_insert_eq, Hmap, app_nil_r. reflexivity.
Qed.

Lemma generateChips_None card g c :
  videoCards g !! card = Some c ->
  card_data_participants c = None ->
  generateChips card g = (Throw TypeError, g).
Proof.
  intros H Hp. unfold generateChips.
  erewrite bind_Throw; [reflexivity|].
  eapply dataset_participants_split_None; eassumption.
Qed.

Lemma toggleChips_Some card expandBtn g c p btn :
  videoCards g !! card = Some c ->
  card_data_participants c = Some p ->
  chips_children c !! expandBtn = Some btn ->
  toggleChips card expandBtn g
  = (Normal tt,
     set_videoCards
       (fun _ => <[card := set_chips_children
                    (toggle_children expandBtn (length (split_comma p))
                       (bool_decide (el_aria_expanded btn = Some str_true))) c]>
                   (videoCards g)) g).
Proof.
  intros H Hp Hb. unfold toggleChips.
  erewrite bind_Normal by (apply readCard_Some, H). rewrite Hb.
  erewrite bind_Normal by (eapply dataset_participants_split_Some; eassumption).
  rewrite length_map. unfold toggle_children.
  destruct (bool_decide (el_aria_expanded btn = Some str_true)).
  - run_write H. run_write H. run_write H.
    erewrite writeCard_Some by lookup_written H.
    simpl. rewrite !list_insert_insert_eq. reflexivity.
  - run_write H. run_write H. run_write H.
    erewrite writeCard_Some by lookup_written H.
    simpl. rewrite !list_insert_insert_eq. reflexivity.
Qed.

Lemma render_chips_six n1 n2 n3 n4 n5 n6 :
  render_chips [n1; n2; n3; n4; n5; n6]
  = [chip_shown n1; chip_shown n2; chip_shown n3; chip_shown n4;
     chip_overflow "chip--hidden" n5; chip_overflow "chip--hidden" n6;
     expand_control str_false (expand_label 2) (expand_title 2)].
Proof. reflexivity. Qed.

Lemma toggle_children_six_expand n1 n2 n3 n4 n5 n6 :
  toggle_children 6 6 false
    [chip_shown n1; chip_shown n2; chip_shown n3; chip_shown n4;
     chip_overflow "chip--hidden" n5; chip_overflow "chip--hidden" n6;
     expand_control str_false (expand_label 2) (expand_title 2)]
  = [chip_shown n1; chip_shown n2; chip_shown n3; chip_shown n4;
     chip_overflow "chip--visible" n5; chip_overflow "chip--visible" n6;
     expand_control str_true (lit "Ver menos") (lit "Ocultar participantes")].
Proof. reflexivity. Qed.

Lemma toggle_children_six_collapse n1 n2 n3 n4 n5 n6 :
  toggle_children 6 6 true
    [chip_shown n1; chip_shown n2; chip_shown n3; chip_shown n4;
     chip_overflow "chip--visible" n5; chip_overflow "chip--visible" n6;
     expand_control str_true (lit "Ver menos") (lit "Ocultar participantes")]
  = [chip_shown n1; chip_shown n2; chip_shown n3; chip_shown n4;
     chip_overflow "chip--hidden" n5; chip_overflow "chip--hidden" n6;
     expand_control str_false (expand_label 2) (expand_title 2)].
Proof. reflexivity. Qed.

Lemma expand_label_two :
  expand_label 2 = [43; 50; 32; 109; 52824; 115]
  /\ label_mas 2 = [43; 50; 32; 109; 225; 115].
Proof. split; reflexivity. Qed.

(** C5.  For a card that lists six names, [generateChips] renders four
    shown chips, two hidden chips and one expand control; a first
    [toggleChips] turns the control to "Ver menos" and reveals the two
    hidden chips; a second one hides the same two chips and restores the
    control, its count being recomputed from the card's list.  The label
    the control carries is the source's literal, ["+2 m"], U+CE58, ["s"],
    which is not the text "+2 m", U+00E1, "s". *)
Theorem chip_overflow_six card g c p :
  videoCards g !! card = Some c ->
  card_data_participants c = Some p ->
  length (split_comma p) = 6%nat ->
  exists n1 n2 n3 n4 n5 n6 g1 g2 c1 c2,
    participants_of p = [n1; n2; n3; n4; n5; n6]
    /\ generateChips card g = (Normal tt, g1)
    /\ videoCards g1 !! card = Some c1
    /\ chips_children c1
       = [chip_shown n1; chip_shown n2; chip_shown n3; chip_shown n4;
          chip_overflow "chip--hidden" n5; chip_overflow "chip--hidden" n6;
          expand_control str_false (expand_label 2) (expand_title 2)]
    /\ toggleChips card 6 g1 = (Normal tt, g2)
    /\ videoCards g2 !! card = Some c2
    /\ chips_children c2
       = [chip_shown n1; chip_shown n2; chip_shown n3; chip_shown n4;
          chip_overflow "chip--visible" n5; chip_overflow "chip--visible" n6;
          expand_control str_true (lit "Ver menos") (lit "Ocultar participantes")]
    /\ toggleChips card 6 g2 = (Normal tt, g1)
    /\ expand_label (Z.of_nat (length (split_comma p)) - Z.of_nat MAX_VISIBLE_CHIPS)
       = lit "+2 m" ++ [52824] ++ lit "s"
    /\ expand_label 2 <> label_mas 2.
Proof.
  intros H Hp Hlen.
  assert (Hnames : exists n1 n2 n3 n4 n5 n6,
             participants_of p = [n1; n2; n3; n4; n5; n6]).
  { unfold participants_of.
    destruct (split_comma p) as [|x1 [|x2 [|x3 [|x4 [|x5 [|x6 [|x7 r]]]]]]];
      try discriminate Hlen.
    simpl. eauto 7. }
  destruct Hnames as (n1 & n2 & n3 & n4 & n5 & n6 & Hn).
  assert (Hi : (card < length (videoCards g))%nat) by (eapply lookup_lt_Some, H).
  set (L1 := [chip_shown n1; chip_shown n2; chip_shown n3; chip_shown n4;
              chip_overflow "chip--hidden" n5; chip_overflow "chip--hidden" n6;
              expand_control str_false (expand_label 2) (expand_title 2)]).
  set (L2 := [chip_shown n1; chip_shown n2; chip_shown n3; chip_shown n4;
              chip_overflow "chip--visible" n5; chip_overflow "chip--visible" n6;
              expand_control str_true (lit "Ver menos") (lit "Ocultar participantes")]).
  set (c1 := set_chips_children (fun _ => L1) c).
  set (c2 := set_chips_children (fun _ => L2) c).
  set (g1 := set_videoCards (fun _ => <[card := c1]> (videoCards g)) g).
  set (g2 := set_videoCards (fun _ => <[card := c2]> (videoCards g)) g).
  assert (H1 : videoCards g1 !! card = Some c1)
    by (simpl; apply list_lookup_insert_eq, Hi).
  assert (H2 : videoCards g2 !! card = Some c2)
    by (simpl; apply list_lookup_insert_eq, Hi).
  exists n1, n2, n3, n4, n5, n6, g1, g2, c1, c2.
  split; [exact Hn|].
  split.
  { rewrite (generateChips_Some _ _ _ _ H Hp), Hn, render_chips_six. reflexivity. }
  split; [exact H1|]. split; [reflexivity|].
  split.
  { rewrite (toggleChips_Some card 6 g1 c1 p
               (expand_control str_false (expand_label 2) (expand_title 2))
               H1 Hp eq_refl).
    rewrite Hlen. unfold g1, g2. simpl. rewrite list_insert_insert_eq.
    reflexivity. }
  split; [exact H2|]. split; [reflexivity|].
  split.
  { rewrite (toggleChips_Some card 6 g2 c2 p
               (expand_control str_true (lit "Ver menos") (lit "Ocultar participantes"))
               H2 Hp eq_refl).
    rewrite Hlen. unfold g1, g2. simpl. rewrite list_insert_insert_eq.
    reflexivity. }
  split; [rewrite Hlen; reflexivity|].
  discriminate.
Qed.

Lemma chip_overflow_six_witness :
  exists g1 c1,
    generateChips 0 (sample_page [sample_card "Ana, Beto, Caro, Dani, Eva, Fer" "v9" "Boda"])
    = (Normal tt, g1)
    /\ videoCards g1 !! 0%nat = Some c1
    /\ List.map el_textContent (chips_children c1)
       = [lit "Ana"; lit "Beto"; lit "Caro"; lit "Dani"; lit "Eva"; lit "Fer";
          [43; 50; 32; 109; 52824; 115]].
Proof.
  destruct (chip_overflow_six 0
              (sample_page [sample_card "Ana, Beto, Caro, Dani, Eva, Fer" "v9" "Boda"])
              (sample_card "Ana, Beto, Caro, Dani, Eva, Fer" "v9" "Boda")
              (lit "Ana, Beto, Caro, Dani, Eva, Fer") eq_refl eq_refl eq_refl)
    as (n1 & n2 & n3 & n4 & n5 & n6 & g1 & g2 & c1 & c2 & Hn & Hgen & Hc1 & _).
  exists g1, c1. split; [exact Hgen|]. split; [exact Hc1|].
  vm_compute in Hgen. injection Hgen as <-.
  vm_compute in Hc1. injection Hc1 as <-. reflexivity.
Defined.

(** ** The participant directory *)

Lemma Set_add_In x y s : In x (Set_add y s) <-> x = y \/ In x s.
Proof.
  unfold Set_add. destruct (includes s y) eqn:E.
  - apply includes_In in E. split; [auto|]. intros [->|H]; assumption.
  - rewrite in_app_iff. simpl. split; [intros [H|[H|[]]] | intros [H|H]]; auto.
Qed.

Lemma Set_add_NoDup y s : NoDup s -> NoDup (Set_add y s).
Proof.
  intros Hs. unfold Set_add. destruct (includes s y) eqn:E; [exact Hs|].
  apply NoDup_app. split; [exact Hs|]. split; [|apply NoDup_singleton].
  intros x Hx Hxy. apply list_elem_of_singleton in Hxy. subst.
  apply list_elem_of_In, includes_In in Hx. congruence.
Qed.

Lemma fold_Set_add_In x pieces s :
  In x (fold_left (fun set p => Set_add (trim p) set) pieces s)
  <-> In x s \/ In x (List.map trim pieces).
Proof.
  revert s. induction pieces as [|p r IH]; intros s; simpl; [tauto|].
  rewrite IH, Set_add_In. split; [intros [[H|H]|H] | intros [H|[H|H]]]; auto.
Qed.

Lemma fold_Set_add_NoDup pieces s :
  NoDup s ->
  NoDup (fold_left (fun set p => Set_add (trim p) set) pieces s).
Proof.
  revert s. induction pieces as [|p r IH]; intros s Hs; simpl; [exact Hs|].
  apply IH, Set_add_NoDup, Hs.
Qed.

Lemma fold_collect_card_In x cards s :
  In x (fold_left collect_card cards s)
  <-> In x s \/ exists c p, In c cards /\ card_data_participants c = Some p
                            /\ In x (List.map trim (split_comma p)).
Proof.
  revert s. induction cards as [|c r IH]; intros s; simpl.
  - split; [auto | intros [H|(c & p & [] & _)]; exact H].
  - rewrite IH. unfold collect_card.
    destruct (card_data_participants c) as [p|] eqn:Ep.
    + rewrite fold_Set_add_In. split.
      * intros [[H|H]|(c' & p' & Hc' & Hp' & Hx)]; [auto | right | right].
        -- exists c, p. auto.
        -- exists c', p'. auto.
      * intros [H|(c' & p' & [<-|Hc'] & Hp' & Hx)]; [auto | |].
        -- left. right. congruence.
        -- right. exists c', p'. auto.
    + split.
      * intros [H|(c' & p' & Hc' & Hp' & Hx)]; [auto|]. right. exists c', p'. auto.
      * intros [H|(c' & p' & [<-|Hc'] & Hp' & Hx)]; [auto | congruence |].
        right. exists c', p'. auto.
Qed.

Lemma fold_collect_card_NoDup cards s :
  NoDup s -> NoDup (fold_left collect_card cards s).
Proof.
  revert s. induction cards as [|c r IH]; intros s Hs; simpl; [exact Hs|].
  apply IH. unfold collect_card.
  destruct (card_data_participants c); [apply fold_Set_add_NoDup|]; exact Hs.
Qed.

Section SortFacts.
Variable compareFn : jsstring -> jsstring -> Z.

Lemma sort_insert_Permutation x l :
  Permutation (sort_insert compareFn x l) (x :: l).
Proof.
  induction l as [|y r IH]; simpl; [reflexivity|].
  destruct (compareFn x y <=? 0)%Z; [reflexivity|].
  rewrite IH. apply perm_swap.
Qed.

Lemma sort_Permutation l : Permutation (sort compareFn l) l.
Proof.
  induction l as [|x r IH]; simpl; [reflexivity|].
  rewrite sort_insert_Permutation, IH. reflexivity.
Qed.

(** A consistent comparator: any two names are ordered one way or the
    other, and the order is transitive. *)
Hypothesis compareFn_total :
  forall a b, (compareFn a b <= 0 \/ compareFn b a <= 0)%Z.
Hypothesis compareFn_trans :
  forall a b c,
    (compareFn a b <= 0 -> compareFn b c <= 0 -> compareFn a c <= 0)%Z.

Lemma sort_insert_sorted x l :
  StronglySorted (fun a b => (compareFn a b <= 0)%Z) l ->
  StronglySorted (fun a b => (compareFn a b <= 0)%Z) (sort_insert compareFn x l).
Proof using compareFn_total compareFn_trans.
  induction l as [|y r IH]; intros Hl; simpl.
  - constructor; constructor.
  - destruct (compareFn x y <=? 0)%Z eqn:E.
    + apply Z.leb_le in E. constructor; [exact Hl|].
      constructor; [exact E|].
      apply StronglySorted_inv in Hl as [_ Hy].
      eapply Forall_impl; [exact Hy|]. intros z Hz.
      simpl in Hz. eapply compareFn_trans; eassumption.
    + apply Z.leb_gt in E.
      apply StronglySorted_inv in Hl as [Hr Hy].
      constructor; [apply IH, Hr|].
      apply list.Forall_forall. intros z Hz.
      apply list_elem_of_In in Hz.
      apply (Permutation_in _ (sort_insert_Permutation x r)) in Hz.
      destruct Hz as [<-|Hz].
      * destruct (compareFn_total y x); [assumption | lia].
      * apply list_elem_of_In in Hz.
        revert z Hz. apply list.Forall_forall. exact Hy.
Qed.

Lemma sort_sorted l :
  StronglySorted (fun a b => (compareFn a b <= 0)%Z) (sort compareFn l).
Proof using compareFn_total compareFn_trans.
  induction l as [|x r IH]; simpl; [constructor|].
  apply sort_insert_sorted, IH.
Qed.

(** The sort is stable: names that collate equal keep their order. *)
Lemma sort_insert_stable z x l :
  List.filter (collates_equal compareFn z) (sort_insert compareFn x l)
  = List.filter (collates_equal compareFn z) (x :: l).
Proof using compareFn_trans.
  induction l as [|y r IH]; [reflexivity|].
  simpl sort_insert. destruct (compareFn x y <=? 0)%Z eqn:E; [reflexivity|].
  apply Z.leb_gt in E.
  change (List.filter ?f (y :: ?t))
    with (if f y then y :: List.filter f t else List.filter f t).
  rewrite IH. simpl.
  destruct (collates_equal compareFn z x) eqn:Ex;
    destruct (collates_equal compareFn z y) eqn:Ey; try reflexivity.
  exfalso. unfold collates_equal in Ex, Ey.
  apply andb_true_iff in Ex as [Ezx Exz]. apply andb_true_iff in Ey as [Ezy Eyz].
  apply Z.leb_le in Ezx, Exz, Ezy, Eyz.
  pose proof (compareFn_trans x z y Exz Ezy). lia.
Qed.

Lemma sort_stable z l :
  List.filter (collates_equal compareFn z) (sort compareFn l)
  = List.filter (collates_equal compareFn z) l.
Proof using compareFn_trans.
  induction l as [|x r IH]; [reflexivity|].
  simpl sort. rewrite sort_insert_stable. simpl. rewrite IH. reflexivity.
Qed.
End SortFacts.

Lemma sample_compare_total a b :
  (sample_compare a b <= 0 \/ sample_compare b a <= 0)%Z.
Proof.
  revert b. induction a as [|x a IH]; intros [|y b]; simpl; try lia.
  rewrite (N.compare_antisym (fold_case x) (fold_case y)).
  destruct (N.compare (fold_case x) (fold_case y)); simpl; try lia. apply IH.
Qed.

Lemma sample_compare_trans a b c :
  (sample_compare a b <= 0 -> sample_compare b c <= 0 -> sample_compare a c <= 0)%Z.
Proof.
  revert b c. induction a as [|x a IH]; intros [|y b] [|z c]; simpl; try lia.
  destruct (N.compare_spec (fold_case x) (fold_case y)),
           (N.compare_spec (fold_case y) (fold_case z)),
           (N.compare_spec (fold_case x) (fold_case z));
    intros; try lia; eauto.
Qed.

(** C3, as the code has it.  For cards that all carry a participant list
    and a consistent comparator, [collectParticipants()] returns the names
    of all cards (comma-split, trimmed), each exactly once where "the same
    name" means the same string, ordered by the comparator, names that the
    comparator does not tell apart staying separate entries in the order
    they were first met.  For the lists "beto, Ana" and "ana" and a
    collation that ignores case, the result is ["Ana"; "ana"; "beto"]. *)
Theorem collectParticipants_directory cmp :
  (forall a b, (cmp a b <= 0 \/ cmp b a <= 0)%Z) ->
  (forall a b c, (cmp a b <= 0 -> cmp b c <= 0 -> cmp a c <= 0)%Z) ->
  (forall g,
     forallb has_participants (videoCards g) = true ->
     exists l,
       collectParticipants cmp g = (Normal l, g)
       /\ NoDup l
       /\ (forall x, In x l
             <-> exists c p, In c (videoCards g)
                   /\ card_data_participants c = Some p
                   /\ In x (List.map trim (split_comma p)))
       /\ StronglySorted (fun a b => (cmp a b <= 0)%Z) l
       /\ (forall z, List.filter (collates_equal cmp z) l
                     = List.filter (collates_equal cmp z)
                                   (participants_set (videoCards g))))
  /\ ((cmp (lit "Ana") (lit "ana") <= 0)%Z ->
      (0 < cmp (lit "beto") (lit "Ana"))%Z ->
      (0 < cmp (lit "beto") (lit "ana"))%Z ->
      forall g c1 c2,
        videoCards g = [c1; c2] ->
        card_data_participants c1 = Some (lit "beto, Ana") ->
        card_data_participants c2 = Some (lit "ana") ->
        collectParticipants cmp g
        = (Normal [lit "Ana"; lit "ana"; lit "beto"], g)).
Proof.
  intros Htotal Htrans. split.
  - intros g Hall. eexists. split; [apply collectParticipants_Normal, Hall|].
    pose proof (sort_Permutation cmp (fold_left collect_card (videoCards g) [])) as HP.
    split; [|split; [|split]].
    + rewrite HP. apply fold_collect_card_NoDup. constructor.
    + intros x. split.
      * intros Hx. apply (Permutation_in _ HP) in Hx.
        apply fold_collect_card_In in Hx as [[]|Hx]. exact Hx.
      * intros Hx. apply (Permutation_in _ (Permutation_sym HP)).
        apply fold_collect_card_In. right. exact Hx.
    + apply sort_sorted; assumption.
    + intros z. apply sort_stable. exact Htrans.
  - intros H1 H2 H3 g c1 c2 Hg Hp1 Hp2.
    rewrite collectParticipants_Normal.
    2:{ rewrite Hg. simpl. unfold has_participants. rewrite Hp1, Hp2. reflexivity. }
    rewrite Hg. simpl. unfold collect_card. rewrite Hp1, Hp2.
    match goal with |- context [sort cmp ?s] =>
      change s with [lit "beto"; lit "Ana"; lit "ana"]
    end.
    apply Z.leb_le in H1. apply Z.leb_gt in H2, H3.
    cbn [sort sort_insert]. rewrite H1.
    cbn [sort_insert]. rewrite H2.
    cbn [sort_insert]. rewrite H3. reflexivity.
Qed.

Lemma collectParticipants_directory_witness :
  collectParticipants sample_compare page_directory
  = (Normal [lit "Ana"; lit "ana"; lit "beto"], page_directory).
Proof.
  refine (proj2 (collectParticipants_directory sample_compare
                   sample_compare_total sample_compare_trans)
                _ _ _ page_directory _ _ eq_refl eq_refl eq_refl);
    vm_compute; congruence.
Defined.

(** C3 as stated fails on its own example: whatever the comparator, the
    directory of "beto, Ana" and "ana" has three entries, and with a
    collation that ignores case it is ["Ana"; "ana"; "beto"]. *)
Lemma collectParticipants_directory_counterexample :
  (~ exists cmp,
       fst (collectParticipants cmp page_directory) = Normal [lit "Ana"; lit "Beto"])
  /\ fst (collectParticipants sample_compare page_directory)
     = Normal [lit "Ana"; lit "ana"; lit "beto"].
Proof.
  split; [|reflexivity].
  intros [cmp H].
  rewrite (collectParticipants_Normal cmp page_directory eq_refl) in H.
  cbn [fst] in H.
  assert (Hlen : forall l : list jsstring,
             Normal l = Normal [lit "Ana"; lit "Beto"] -> length l = 2%nat)
    by (intros l [= ->]; reflexivity).
  apply Hlen in H.
  rewrite (Permutation_length (sort_Permutation cmp _)) in H.
  discriminate H.
Qed.

(** ** Trimming *)

Lemma trimStart_fixed s :
  trimStart s = s
  <-> match s with [] => True | c :: _ => isWhiteSpace c = false end.
Proof.
  destruct s as [|c r]; simpl; [tauto|].
  destruct (isWhiteSpace c) eqn:E; [|tauto].
  split; [|discriminate]. intros H. exfalso.
  assert (Hlen : forall t, (length (trimStart t) <= length t)%nat).
  { induction t as [|d t IH]; simpl; [lia|].
    destruct (isWhiteSpace d); simpl; lia. }
  specialize (Hlen r). rewrite H in Hlen. simpl in Hlen. lia.
Qed.

Lemma trimStart_idempotent s : trimStart (trimStart s) = trimStart s.
Proof.
  induction s as [|c r IH]; simpl; [reflexivity|].
  destruct (isWhiteSpace c) eqn:E; [exact IH|]. simpl. rewrite E. reflexivity.
Qed.

(** What [trimStart] drops. *)
Lemma trimStart_suffix s : exists w, s = w ++ trimStart s.
Proof.
  induction s as [|c r [w IH]]; simpl; [exists []; reflexivity|].
  destruct (isWhiteSpace c).
  - exists (c :: w). simpl. f_equal. exact IH.
  - exists []. reflexivity.
Qed.

Lemma trimEnd_keeps_start s : trimStart s = s -> trimStart (trimEnd s) = trimEnd s.
Proof.
  intros Hs. unfold trimEnd.
  destruct (trimStart_suffix (rev s)) as [w Hw].
  apply (f_equal (@rev N)) in Hw. rewrite rev_involutive, rev_app_distr in Hw.
  apply trimStart_fixed. apply trimStart_fixed in Hs.
  destruct (rev (trimStart (rev s))) as [|c t]; [exact I|].
  rewrite Hw in Hs. exact Hs.
Qed.

Lemma trim_idempotent s : trim (trim s) = trim s.
Proof.
  unfold trim.
  rewrite (trimEnd_keeps_start (trimStart s)) by apply trimStart_idempotent.
  unfold trimEnd. rewrite rev_involutive, trimStart_idempotent. reflexivity.
Qed.

(** ** Class changes that leave selection and highlight alone *)

Ltac class_facts :=
  unfold sel_chip_not_expand, sel_chip, highlighted, hide_chip, reveal_chip; simpl;
  rewrite ?classList_contains_add, ?classList_contains_remove; reflexivity.

Lemma sel_chip_not_expand_hide_chip e :
  sel_chip_not_expand (hide_chip e) = sel_chip_not_expand e.
Proof. class_facts. Qed.

Lemma sel_chip_not_expand_reveal_chip e :
  sel_chip_not_expand (reveal_chip e) = sel_chip_not_expand e.
Proof. class_facts. Qed.

Lemma sel_chip_hide_chip e : sel_chip (hide_chip e) = sel_chip e.
Proof. class_facts. Qed.

Lemma sel_chip_reveal_chip e : sel_chip (reveal_chip e) = sel_chip e.
Proof. class_facts. Qed.

Lemma highlighted_hide_chip e : highlighted (hide_chip e) = highlighted e.
Proof. class_facts. Qed.

Lemma highlighted_reveal_chip e : highlighted (reveal_chip e) = highlighted e.
Proof. class_facts. Qed.

Lemma Forall_update_selected (P : Element -> Prop) selector skip f children :
  Forall P children ->
  (forall e, P e -> selector e = true -> P (f e)) ->
  Forall P (update_selected selector skip f children).
Proof.
  intros Hall Hf. revert skip.
  induction Hall as [|e r He Hr IH]; intros skip; simpl; [constructor|].
  destruct (selector e) eqn:E; [destruct skip|]; constructor; auto.
Qed.

(** ** The card transitions keep a card well formed *)

Lemma player_ok_collapse_if_expanded c :
  player_ok c -> player_ok (collapse_if_expanded c).
Proof.
  unfold collapse_if_expanded, player_ok.
  destruct (isExpanded c) eqn:E; [|rewrite E; auto].
  intros H. simpl. destruct (player_iframes c) as [|x [|y r]]; simpl in *;
    try discriminate; reflexivity.
Qed.

Lemma card_ok_collapse_if_expanded rev selection c :
  card_ok rev selection c -> card_ok rev selection (collapse_if_expanded c).
Proof.
  intros (Hp & Hpl & Hch & Hhl).
  pose proof (player_ok_collapse_if_expanded c Hpl) as Hpl'.
  unfold collapse_if_expanded in *. destruct (isExpanded c); [|repeat split; assumption].
  repeat split; assumption.
Qed.

Lemma card_ok_collapse_card rev selection c :
  card_ok rev selection c -> isExpanded c = true ->
  card_ok rev selection (collapse_card c).
Proof.
  intros H E. pose proof (card_ok_collapse_if_expanded _ _ _ H) as H'.
  unfold collapse_if_expanded in H'. rewrite E in H'. exact H'.
Qed.

Lemma card_ok_expand_card rev selection c :
  card_ok rev selection c -> isExpanded c = false ->
  card_ok rev selection (expand_card c).
Proof.
  intros (Hp & Hpl & Hch & Hhl) E. unfold player_ok in Hpl. rewrite E in Hpl.
  repeat split; try assumption.
  unfold player_ok. simpl. rewrite Hpl. reflexivity.
Qed.

Lemma card_ok_set_player_classList rev selection f c :
  card_ok rev selection c -> card_ok rev selection (set_player_classList f c).
Proof. intros (Hp & Hpl & Hch & Hhl). repeat split; assumption. Qed.

Lemma chip_child_ok_highlight_chip rev selection e :
  chip_child_ok rev e -> chip_selector rev e = true ->
  chip_child_ok rev (highlight_chip selection e).
Proof.
  destruct rev; simpl.
  - intros [(Hs & Ht & Hl)|(Hs & _)] Hsel; [|congruence].
    left. pose proof (chip_selector_highlight_chip part_000 selection e) as Hs'.
    simpl in Hs'. rewrite Hs', el_textContent_highlight_chip.
    repeat split; try assumption.
    unfold highlight_chip. destruct (truthy selection && _); exact Hl.
  - intros Hl _. unfold highlight_chip. destruct (truthy selection && _); exact Hl.
Qed.

Lemma highlight_ok_highlight_chip rev selection e :
  highlight_ok rev selection (highlight_chip selection e).
Proof.
  intros _. rewrite highlighted_highlight_chip, el_textContent_highlight_chip.
  rewrite andb_true_iff, bool_decide_eq_true.
  destruct selection; simpl; split; intros [H1 H2]; split; congruence.
Qed.

Lemma card_ok_filter_card rev old selection c :
  card_ok rev old c -> card_ok rev selection (filter_card rev selection c).
Proof.
  intros (Hp & Hpl & Hch & Hhl).
  destruct (has_participants_Some c Hp) as [p Ep].
  unfold filter_card. rewrite Ep. destruct (matches selection p).
  - split; [exact Hp|]. split; [exact Hpl|]. simpl. split.
    + apply Forall_update_selected; [exact Hch|].
      intros e He Hs. apply chip_child_ok_highlight_chip; assumption.
    + intros _. rewrite update_selected_all. apply list.Forall_forall.
      intros e' He'. apply list_elem_of_In, in_map_iff in He' as (e & <- & He).
      destruct (chip_selector rev e) eqn:Es.
      * apply highlight_ok_highlight_chip.
      * intros Hs. congruence.
  - apply card_ok_collapse_if_expanded.
    split; [exact Hp|]. split; [exact Hpl|]. split; [exact Hch|].
    simpl. discriminate.
Qed.

Section ToggleChildren.
(** [control] stands for what [toggleChips] writes on the control and
    [overflow] for what it does to an overflow chip. *)
Variables control overflow : Element -> Element.
Hypothesis control_classes :
  forall e, el_classList (control e) = el_classList e.
Hypothesis overflow_selected :
  forall e, sel_chip_not_expand (overflow e) = sel_chip_not_expand e.
Hypothesis overflow_highlighted :
  forall e, highlighted (overflow e) = highlighted e.
Hypothesis overflow_text :
  forall e, el_textContent (overflow e) = el_textContent e.
Hypothesis overflow_listener :
  forall e, el_onclick_toggleChips (overflow e) = el_onclick_toggleChips e.

Lemma chip_children_ok_toggle expandBtn btn children :
  children !! expandBtn = Some btn ->
  el_onclick_toggleChips btn = true ->
  Forall (chip_child_ok part_000) children ->
  Forall (chip_child_ok part_000)
    (update_selected sel_chip_not_expand MAX_VISIBLE_CHIPS overflow
       (alter control expandBtn children)).
Proof using control_classes overflow_selected overflow_highlighted
            overflow_text overflow_listener.
  intros Hb Hl Hall. apply Forall_update_selected.
  - apply Forall_alter; [exact Hall|].
    intros x Hx. rewrite Hb in Hx. injection Hx as <-.
    intros [(_ & _ & Hl')|(Hs & Hh)]; [congruence|].
    right. unfold sel_chip_not_expand, highlighted in *.
    rewrite control_classes. auto.
  - intros e [(Hs & Ht & Hl')|(Hs & _)] Hsel; [|congruence].
    left. rewrite overflow_selected, overflow_text, overflow_listener. auto.
Qed.

Lemma highlight_children_ok_toggle selection expandBtn btn children :
  children !! expandBtn = Some btn ->
  el_onclick_toggleChips btn = true ->
  Forall (chip_child_ok part_000) children ->
  Forall (highlight_ok part_000 selection) children ->
  Forall (highlight_ok part_000 selection)
    (update_selected sel_chip_not_expand MAX_VISIBLE_CHIPS overflow
       (alter control expandBtn children)).
Proof using control_classes overflow_selected overflow_highlighted overflow_text.
  intros Hb Hl Hok Hall. apply Forall_update_selected.
  - apply Forall_alter; [exact Hall|].
    intros x Hx. rewrite Hb in Hx. injection Hx as <-. intros _.
    assert (Hs : sel_chip_not_expand btn = false).
    { rewrite list.Forall_forall in Hok.
      destruct (Hok btn (list_elem_of_lookup_2 _ _ _ Hb)) as [(_ & _ & Hl')|(Hs & _)];
        congruence. }
    intros Hsel. simpl in Hsel. unfold sel_chip_not_expand in Hsel, Hs.
    rewrite control_classes in Hsel. congruence.
  - intros e He _ Hsel. simpl in Hsel. rewrite overflow_selected in Hsel.
    rewrite overflow_highlighted, overflow_text. apply He, Hsel.
Qed.
End ToggleChildren.

Lemma toggle_children_alter expandBtn count expanded children :
  exists control overflow,
    toggle_children expandBtn count expanded children
    = update_selected sel_chip_not_expand MAX_VISIBLE_CHIPS overflow
        (alter control expandBtn children)
    /\ (forall e, el_classList (control e) = el_classList e)
    /\ (forall e, sel_chip_not_expand (overflow e) = sel_chip_not_expand e)
    /\ (forall e, highlighted (overflow e) = highlighted e)
    /\ (forall e, el_textContent (overflow e) = el_textContent e)
    /\ (forall e, el_onclick_toggleChips (overflow e) = el_onclick_toggleChips e).
Proof.
  unfold toggle_children. destruct expanded.
  - eexists (fun e => set_el_title _ (set_el_textContent _ (set_el_aria_expanded _ e))),
            hide_chip.
    split; [rewrite !list_alter_alter_eq; reflexivity|].
    split; [reflexivity|]. split; [apply sel_chip_not_expand_hide_chip|].
    split; [apply highlighted_hide_chip|]. split; reflexivity.
  - eexists (fun e => set_el_title _ (set_el_textContent _ (set_el_aria_expanded _ e))),
            reveal_chip.
    split; [rewrite !list_alter_alter_eq; reflexivity|].
    split; [reflexivity|]. split; [apply sel_chip_not_expand_reveal_chip|].
    split; [apply highlighted_reveal_chip|]. split; reflexivity.
Qed.

Lemma card_ok_toggle_children rev selection c expandBtn btn count expanded :
  card_ok rev selection c ->
  chips_children c !! expandBtn = Some btn ->
  el_onclick_toggleChips btn = true ->
  card_ok rev selection
    (set_chips_children (toggle_children expandBtn count expanded) c).
Proof.
  intros (Hp & Hpl & Hch & Hhl) Hb Hl.
  destruct rev.
  - destruct (toggle_children_alter expandBtn count expanded (chips_children c))
      as (control & overflow & Heq & H1 & H2 & H3 & H4 & H5).
    split; [exact Hp|]. split; [exact Hpl|]. simpl. rewrite Heq. split.
    + eapply chip_children_ok_toggle; eassumption.
    + intros Hv. eapply highlight_children_ok_toggle; eauto.
  - exfalso. rewrite list.Forall_forall in Hch.
    specialize (Hch btn (list_elem_of_lookup_2 _ _ _ Hb)). simpl in Hch. congruence.
Qed.

(** ** Every listener keeps the page well formed *)

Lemma at_most_one_shrink cs cs' :
  (forall j c', cs' !! j = Some c' -> isExpanded c' = true ->
     exists c, cs !! j = Some c /\ isExpanded c = true) ->
  at_most_one_expanded cs -> at_most_one_expanded cs'.
Proof.
  intros Hsub H i j ci cj Hi Hj Ei Ej.
  destruct (Hsub i ci Hi Ei) as (ci0 & Hi0 & Ei0).
  destruct (Hsub j cj Hj Ej) as (cj0 & Hj0 & Ej0).
  eapply H; eassumption.
Qed.

Lemma page_ok_has_participants rev g :
  page_ok rev g -> forallb has_participants (videoCards g) = true.
Proof.
  intros [Hall _]. apply forallb_forall. intros c Hc.
  rewrite list.Forall_forall in Hall.
  apply list_elem_of_In, Hall in Hc. apply Hc.
Qed.

Lemma page_ok_lookup rev g i c :
  page_ok rev g -> videoCards g !! i = Some c ->
  card_ok rev (participantFilter_value g) c.
Proof.
  intros [Hall _] H. rewrite list.Forall_forall in Hall.
  apply Hall. eapply list_elem_of_lookup_2, H.
Qed.

(** Replacing one card by a card with the same expansion state. *)
Lemma page_ok_insert_same rev g i c c' :
  page_ok rev g ->
  videoCards g !! i = Some c ->
  card_ok rev (participantFilter_value g) c' ->
  (isExpanded c' = true -> isExpanded c = true) ->
  page_ok rev (set_videoCards (fun _ => <[i := c']> (videoCards g)) g).
Proof.
  intros [Hall Hone] H Hc' Hexp. split; simpl.
  - apply Forall_insert; assumption.
  - eapply at_most_one_shrink; [|exact Hone].
    intros j cj Hj Ej. destruct (decide (j = i)) as [->|Hne].
    + rewrite list_lookup_insert_eq in Hj by (eapply lookup_lt_Some, H).
      injection Hj as <-. eauto.
    + rewrite list_lookup_insert_ne in Hj by congruence. eauto.
Qed.

Lemma page_ok_collapse_all rev g :
  page_ok rev g ->
  page_ok rev (set_videoCards (fun _ => List.map collapse_if_expanded (videoCards g)) g).
Proof.
  intros [Hall Hone]. split; simpl.
  - change (List.map ?f ?l) with (f <$> l). apply Forall_fmap.
    eapply Forall_impl; [exact Hall|]. intros c Hc.
    apply card_ok_collapse_if_expanded, Hc.
  - intros i j ci cj Hi _ Ei _. exfalso.
    change (List.map ?f ?l) with (f <$> l) in Hi.
    rewrite list_lookup_fmap in Hi.
    destruct (videoCards g !! i) as [c|]; simpl in Hi; [|discriminate].
    injection Hi as <-. rewrite isExpanded_collapse_if_expanded in Ei. discriminate.
Qed.

Lemma page_ok_toggleVideoCard rev g card :
  page_ok rev g ->
  (card < length (videoCards g))%nat ->
  exists g', toggleVideoCard card g = (Normal tt, g') /\ page_ok rev g'.
Proof.
  intros Hok Hlt. destruct (lookup_lt_is_Some_2 _ _ Hlt) as [c H].
  pose proof (page_ok_lookup _ _ _ _ Hok H) as Hc.
  destruct (isExpanded c) eqn:E.
  - eexists. split; [apply toggleVideoCard_collapse; eassumption|].
    eapply page_ok_insert_same; try eassumption.
    + apply card_ok_collapse_card; assumption.
    + auto.
  - eexists. split; [apply toggleVideoCard_expand; eassumption|].
    destruct (page_ok_collapse_all _ _ Hok) as [Hall Hone]. simpl in Hall, Hone.
    split; simpl.
    + apply Forall_insert; [exact Hall|]. apply card_ok_expand_card; assumption.
    + assert (Hother : forall j cj,
                 <[card := expand_card c]>
                   (List.map collapse_if_expanded (videoCards g)) !! j = Some cj ->
                 isExpanded cj = true -> j = card).
      { intros j cj Hj Ej. destruct (decide (j = card)) as [->|Hne]; [reflexivity|].
        exfalso. rewrite list_lookup_insert_ne in Hj by congruence.
        change (List.map ?f ?l) with (f <$> l) in Hj.
        rewrite list_lookup_fmap in Hj.
        destruct (videoCards g !! j) as [c0|]; simpl in Hj; [|discriminate].
        injection Hj as <-. rewrite isExpanded_collapse_if_expanded in Ej.
        discriminate. }
      intros i j ci cj Hi Hj Ei Ej.
      rewrite (Hother i ci Hi Ei), (Hother j cj Hj Ej). reflexivity.
Qed.

Lemma page_ok_document_keydown rev g key :
  page_ok rev g ->
  exists g', document_keydown key g = (Normal tt, g') /\ page_ok rev g'.
Proof.
  intros Hok. destruct (decide (key = key_Escape)) as [->|Hne].
  - eexists. split; [apply document_keydown_Escape|].
    apply page_ok_collapse_all, Hok.
  - exists g. split; [|exact Hok].
    unfold document_keydown. rewrite bool_decide_false by exact Hne. reflexivity.
Qed.

Lemma page_ok_filterVideos rev g value :
  page_ok rev g ->
  exists g',
    participantFilter_change rev value g = (Normal tt, g')
    /\ participantFilter_value g' = value
    /\ page_ok rev g'.
Proof.
  intros Hok. pose proof (page_ok_has_participants _ _ Hok) as Hp.
  destruct Hok as [Hall Hone].
  eexists. split; [|split].
  - unfold participantFilter_change. erewrite bind_Normal by reflexivity.
    apply filterVideos_Normal. exact Hp.
  - reflexivity.
  - split; simpl.
    + change (List.map ?f ?l) with (f <$> l). apply Forall_fmap.
      eapply Forall_impl; [exact Hall|]. intros c Hc.
      eapply card_ok_filter_card, Hc.
    + eapply at_most_one_shrink; [|exact Hone].
      intros j c' Hj Ej. change (List.map ?f ?l) with (f <$> l) in Hj.
      rewrite list_lookup_fmap in Hj.
      destruct (videoCards g !! j) as [c|]; simpl in Hj; [|discriminate].
      injection Hj as <-. exists c. split; [reflexivity|].
      unfold filter_card in Ej.
      destruct (card_data_participants c) as [p|]; [|exact Ej].
      destruct (matches value p); [exact Ej|].
      rewrite isExpanded_collapse_if_expanded in Ej. discriminate.
Qed.

Lemma page_ok_toggleChips rev g card expandBtn :
  page_ok rev g ->
  enabled (ClickExpandControl card expandBtn) g = true ->
  exists g', toggleChips card expandBtn g = (Normal tt, g') /\ page_ok rev g'.
Proof.
  intros Hok He. simpl in He.
  destruct (videoCards g !! card) as [c|] eqn:H; [|discriminate].
  destruct (chips_children c !! expandBtn) as [btn|] eqn:Hb; [|discriminate].
  pose proof (page_ok_lookup _ _ _ _ Hok H) as Hc.
  destruct (has_participants_Some c (proj1 Hc)) as [p Ep].
  eexists. split; [eapply toggleChips_Some; eassumption|].
  eapply page_ok_insert_same; try eassumption.
  - eapply card_ok_toggle_children; eassumption.
  - auto.
Qed.

Lemma page_ok_iframe_load rev g card :
  page_ok rev g ->
  enabled (IframeLoad card) g = true ->
  exists g', iframe_load card g = (Normal tt, g') /\ page_ok rev g'.
Proof.
  intros Hok He. simpl in He.
  destruct (videoCards g !! card) as [c|] eqn:H; [|discriminate].
  eexists. split; [apply writeCard_Some, H|].
  eapply page_ok_insert_same; try eassumption.
  - apply card_ok_set_player_classList. eapply page_ok_lookup; eassumption.
  - auto.
Qed.

(** No listener throws on a well formed page, and each leaves it well
    formed. *)
Lemma dispatch_ok rev g ev :
  page_ok rev g ->
  enabled ev g = true ->
  exists g', dispatch rev ev g = (Normal tt, g') /\ page_ok rev g'.
Proof.
  intros Hok He. destruct ev as [card|card key|key|value| |card expandBtn|card| ]; simpl.
  - apply page_ok_toggleVideoCard; [exact Hok|].
    simpl in He. apply bool_decide_eq_true in He. exact He.
  - simpl in He. apply bool_decide_eq_true in He.
    unfold thumbnail_keydown.
    destruct (bool_decide (key = key_Enter) || bool_decide (key = key_Space)).
    + destruct (page_ok_toggleVideoCard rev g card Hok He) as (g1 & H1 & Hok1).
      destruct (page_ok_document_keydown rev g1 key Hok1) as (g2 & H2 & Hok2).
      exists g2. split; [|exact Hok2].
      erewrite bind_Normal by exact H1. exact H2.
    + destruct (page_ok_document_keydown rev g key Hok) as (g2 & H2 & Hok2).
      exists g2. split; [|exact Hok2].
      erewrite bind_Normal by reflexivity. exact H2.
  - apply page_ok_document_keydown, Hok.
  - destruct (page_ok_filterVideos rev g value Hok) as (g' & H & _ & Hok').
    eauto.
  - destruct (page_ok_filterVideos rev g [] Hok) as (g' & H & _ & Hok').
    eauto.
  - apply page_ok_toggleChips; assumption.
  - apply page_ok_iframe_load; assumption.
  - exists (set_timers (fun ts => tail ts) g). split; [reflexivity | exact Hok].
Qed.

(** ** Initialization *)

Lemma forEach_as_local {A} (arr : list A) (body : A -> Handler unit) g :
  forEach arr body g = forEach_local arr tt (fun x _ => body x) g.
Proof.
  revert g. induction arr as [|x r IH]; intros g; simpl; [reflexivity|].
  unfold bind. destruct (body x g) as [[[]|e] g1]; [apply IH | reflexivity].
Qed.

Lemma has_participants_rendered_card c :
  has_participants (rendered_card c) = has_participants c.
Proof.
  unfold rendered_card, has_participants.
  destruct (card_data_participants c) eqn:E; simpl; rewrite ?E; reflexivity.
Qed.

Lemma forallb_has_participants_rendered cs :
  forallb has_participants (List.map rendered_card cs)
  = forallb has_participants cs.
Proof.
  induction cs as [|c r IH]; simpl; [reflexivity|].
  rewrite has_participants_rendered_card, IH. reflexivity.
Qed.

Lemma generateChips_all g :
  (forallb has_participants (videoCards g) = true ->
   forEach (seq 0 (length (videoCards g))) generateChips g
   = (Normal tt, set_videoCards (fun _ => List.map rendered_card (videoCards g)) g))
  /\ (forallb has_participants (videoCards g) = false ->
      fst (forEach (seq 0 (length (videoCards g))) generateChips g) = Throw TypeError).
Proof.
  rewrite forEach_as_local.
  destruct (forEach_local_positions rendered_card (fun (_ : unit) _ => tt)
              has_participants (fun x _ => generateChips x) tt g) as [H1 H2].
  - intros j [] g0 c H Hp. destruct (has_participants_Some c Hp) as [p Ep].
    rewrite (generateChips_Some _ _ _ _ H Ep). unfold rendered_card.
    rewrite Ep. reflexivity.
  - intros j [] g0 c H Hp. unfold has_participants in Hp.
    destruct (card_data_participants c) eqn:Ep; [discriminate|].
    rewrite (generateChips_None _ _ _ H Ep). reflexivity.
  - split; [|exact H2]. intros Hall. rewrite (H1 Hall). f_equal.
    clear. induction (videoCards g) as [|c r IH]; simpl; [reflexivity | exact IH].
Qed.

Lemma forEach_append_options (l : list jsstring) g :
  forEach l (fun participant =>
    modify (set_participantFilter_options
              (fun opts => opts ++ [mkOption participant participant]))) g
  = (Normal tt,
     set_participantFilter_options
       (fun opts => opts ++ List.map (fun x => mkOption x x) l) g).
Proof.
  revert g. induction l as [|x l IH]; intros g; simpl.
  - unfold ret. destruct g. unfold set_participantFilter_options. simpl.
    rewrite app_nil_r. reflexivity.
  - erewrite bind_Normal by reflexivity. rewrite IH.
    unfold set_participantFilter_options. simpl. rewrite <- app_assoc. reflexivity.
Qed.

Lemma populateFilterDropdown_Normal cmp g :
  forallb has_participants (videoCards g) = true ->
  populateFilterDropdown cmp g
  = (Normal tt,
     set_participantFilter_options
       (fun opts => opts ++ List.map (fun x => mkOption x x)
                              (sort cmp (participants_set (videoCards g)))) g).
Proof.
  intros Hall. unfold populateFilterDropdown.
  erewrite bind_Normal by (apply collectParticipants_Normal, Hall).
  apply forEach_append_options.
Qed.

Lemma populateFilterDropdown_Throw cmp g :
  forallb has_participants (videoCards g) = false ->
  populateFilterDropdown cmp g = (Throw TypeError, g).
Proof.
  intros Hall. unfold populateFilterDropdown.
  erewrite bind_Throw; [reflexivity|]. apply collectParticipants_Throw, Hall.
Qed.

(** [init] completes exactly on markup whose cards all list participants,
    and then leaves the rendered cards and the filled filter control. *)
Lemma init_Normal cmp rev g0 g :
  init cmp rev g0 = (Normal tt, g) ->
  forallb has_participants (videoCards g0) = true
  /\ videoCards g
     = match rev with
       | part_000 => List.map rendered_card (videoCards g0)
       | script_js => videoCards g0
       end
  /\ participantFilter_value g = participantFilter_value g0
  /\ timers g = timers g0.
Proof.
  intros Hinit.
  destruct (forallb has_participants (videoCards g0)) eqn:Hall.
  - split; [reflexivity|]. destruct rev; simpl in Hinit.
    + erewrite bind_Normal in Hinit by apply videoCards_positions_eq.
      erewrite bind_Normal in Hinit by (apply generateChips_all, Hall).
      rewrite populateFilterDropdown_Normal in Hinit.
      * injection Hinit as <-. repeat split.
      * simpl. rewrite forallb_has_participants_rendered. exact Hall.
    + rewrite (populateFilterDropdown_Normal _ _ Hall) in Hinit.
      injection Hinit as <-. repeat split.
  - exfalso. destruct rev; simpl in Hinit.
    + erewrite bind_Normal in Hinit by apply videoCards_positions_eq.
      pose proof (proj2 (generateChips_all g0) Hall) as HT.
      unfold bind in Hinit.
      destruct (forEach (seq 0 (length (videoCards g0))) generateChips g0)
        as [[[]|e] g1]; simpl in HT; discriminate.
    + rewrite (populateFilterDropdown_Throw _ _ Hall) in Hinit. discriminate.
Qed.

Lemma Forall_imap_all {A B} (P : B -> Prop) (f : nat -> A -> B) (l : list A) :
  (forall i x, In x l -> P (f i x)) -> Forall P (imap f l).
Proof.
  revert f. induction l as [|a l IH]; intros f H; simpl; constructor.
  - apply H. left. reflexivity.
  - apply IH. intros i x Hx. apply H. right. exact Hx.
Qed.

Lemma create_chip_facts index name :
  sel_chip_not_expand (create_chip index name) = true
  /\ el_textContent (create_chip index name) = name
  /\ el_onclick_toggleChips (create_chip index name) = false
  /\ highlighted (create_chip index name) = false.
Proof.
  unfold create_chip. destruct (MAX_VISIBLE_CHIPS <=? index)%nat; repeat split.
Qed.

Lemma rendered_chips_ok p :
  Forall (fun e => chip_child_ok part_000 e /\ highlighted e = false)
         (render_chips (participants_of p)).
Proof.
  unfold render_chips. apply Forall_app. split.
  - apply Forall_imap_all. intros i x Hx.
    destruct (create_chip_facts i x) as (Hs & Ht & Hl & Hh).
    split; [|exact Hh]. left. rewrite Ht. repeat split; try assumption.
    unfold participants_of in Hx. apply in_map_iff in Hx as (y & <- & _).
    apply trim_idempotent.
  - destruct (MAX_VISIBLE_CHIPS <? length (participants_of p))%nat;
      constructor; [|constructor].
    split; [right; split|]; reflexivity.
Qed.

Lemma card_ok_markup rev c :
  markup_card c ->
  has_participants c = true ->
  card_ok rev [] match rev with part_000 => rendered_card c | script_js => c end.
Proof.
  intros (E & Hif & Hch) Hp.
  assert (Hpl : player_ok c) by (unfold player_ok; rewrite E; exact Hif).
  destruct rev.
  - destruct (has_participants_Some c Hp) as [p Ep].
    unfold rendered_card. rewrite Ep.
    split; [exact Hp|]. split; [exact Hpl|]. simpl.
    pose proof (rendered_chips_ok p) as Hr. split.
    + eapply Forall_impl; [exact Hr|]. intros e [He _]. exact He.
    + intros _. eapply Forall_impl; [exact Hr|]. intros e [_ He] _.
      rewrite He. split; [discriminate | intros [Hne _]; congruence].
  - split; [exact Hp|]. split; [exact Hpl|]. split.
    + eapply Forall_impl; [exact Hch|]. intros e [He _]. exact He.
    + intros _. eapply Forall_impl; [exact Hch|]. intros e [_ He] _.
      unfold highlighted. rewrite He.
      split; [discriminate | intros [Hne _]; congruence].
Qed.

Lemma init_ok cmp rev g0 g :
  markup g0 ->
  init cmp rev g0 = (Normal tt, g) ->
  page_ok rev g.
Proof.
  intros (Hcards & _ & Hvalue) Hinit.
  destruct (init_Normal _ _ _ _ Hinit) as (Hall & Hcs & Hv & _).
  rewrite forallb_forall in Hall.
  assert (Hok : Forall (fun c => card_ok rev []
                          match rev with
                          | part_000 => rendered_card c
                          | script_js => c
                          end) (videoCards g0)).
  { apply list.Forall_forall. intros c Hc.
    apply card_ok_markup.
    - rewrite list.Forall_forall in Hcards. apply Hcards, Hc.
    - apply Hall, list_elem_of_In, Hc. }
  assert (Hnone : forall c, c ∈ videoCards g0 ->
            isExpanded match rev with
                       | part_000 => rendered_card c
                       | script_js => c
                       end = false).
  { intros c Hc. rewrite list.Forall_forall in Hcards.
    destruct (Hcards c Hc) as (E & _).
    destruct rev; [|exact E]. unfold rendered_card.
    destruct (card_data_participants c); exact E. }
  unfold page_ok. rewrite Hv, Hvalue, Hcs. destruct rev.
  - split.
    + change (List.map ?f ?l) with (f <$> l). apply Forall_fmap. exact Hok.
    + intros i j ci cj Hi _ Ei _. exfalso.
      change (List.map ?f ?l) with (f <$> l) in Hi.
      rewrite list_lookup_fmap in Hi.
      destruct (videoCards g0 !! i) as [c|] eqn:Hc; simpl in Hi; [|discriminate].
      injection Hi as <-.
      rewrite (Hnone c (list_elem_of_lookup_2 _ _ _ Hc)) in Ei. discriminate.
  - split.
    + eapply Forall_impl; [exact Hok|]. auto.
    + intros i j ci cj Hi _ Ei _. exfalso.
      rewrite (Hnone ci (list_elem_of_lookup_2 _ _ _ Hi)) in Ei. discriminate.
Qed.

(** Every reachable page is well formed. *)
Lemma reachable_ok cmp rev g : reachable cmp rev g -> page_ok rev g.
Proof.
  induction 1 as [g0 g Hm Hinit | g ev r g' _ IH He Hd].
  - eapply init_ok; eassumption.
  - destruct (dispatch_ok rev g ev IH He) as (g1 & Hd1 & Hok1). congruence.
Qed.

(** On a reachable page no listener throws. *)
Lemma reachable_dispatch_Normal cmp rev g ev :
  reachable cmp rev g -> enabled ev g = true ->
  exists g', dispatch rev ev g = (Normal tt, g').
Proof.
  intros Hr He. destruct (dispatch_ok rev g ev (reachable_ok _ _ _ Hr) He) as (g' & H & _).
  eauto.
Qed.

(** ** The sample pages are reachable *)

Lemma markup_page_two : markup page_two.
Proof.
  split; [|split; reflexivity].
  repeat constructor.
Qed.

Lemma reachable_page_two_ready : reachable sample_compare part_000 page_two_ready.
Proof.
  apply (reachable_init _ _ page_two); [exact markup_page_two|].
  vm_compute. reflexivity.
Qed.

Lemma reachable_page_two_playing :
  reachable sample_compare part_000 page_two_playing.
Proof.
  apply (reachable_step _ _ page_two_ready (ClickThumbnail 0) (Normal tt));
    [exact reachable_page_two_ready | reflexivity |].
  vm_compute. reflexivity.
Qed.

Lemma reachable_page_two_beto : reachable sample_compare part_000 page_two_beto.
Proof.
  apply (reachable_step _ _ page_two_ready (ChangeFilter (lit "Beto")) (Normal tt));
    [exact reachable_page_two_ready | reflexivity |].
  vm_compute. reflexivity.
Qed.

Lemma reachable_page_two_ana : reachable sample_compare part_000 page_two_ana.
Proof.
  apply (reachable_step _ _ page_two_beto (ChangeFilter (lit "Ana")) (Normal tt));
    [exact reachable_page_two_beto | reflexivity |].
  vm_compute. reflexivity.
Qed.

(** ** Expansion exclusivity *)

(** C2.  On every reachable page at most one card is expanded, and every
    event that can occur leaves it so.  Expanding a collapsed card [b]
    first collapses every other expanded card exactly as a toggle of that
    card would (aria-expanded "false", embed container hidden, marker
    removed, player emptied), leaves the remaining cards alone, and ends
    with [b] expanded and its player holding the new iframe. *)
Theorem expansion_exclusive cmp rev g :
  reachable cmp rev g ->
  at_most_one_expanded (videoCards g)
  /\ (forall ev, enabled ev g = true ->
        exists g', dispatch rev ev g = (Normal tt, g')
                   /\ at_most_one_expanded (videoCards g'))
  /\ (forall b cb,
        videoCards g !! b = Some cb ->
        isExpanded cb = false ->
        exists g',
          toggleVideoCard b g = (Normal tt, g')
          /\ videoCards g' !! b = Some (expand_card cb)
          /\ isExpanded (expand_card cb) = true
          /\ player_iframes (expand_card cb) = [embed_iframe cb]
          /\ forall a ca,
               a <> b ->
               videoCards g !! a = Some ca ->
               if isExpanded ca then
                 videoCards g' !! a = Some (collapse_card ca)
                 /\ toggleVideoCard a g
                    = (Normal tt,
                       set_videoCards
                         (fun _ => <[a := collapse_card ca]> (videoCards g)) g)
                 /\ thumbnail_aria_expanded (collapse_card ca) = Some str_false
                 /\ embed_hidden (collapse_card ca) = true
                 /\ card_data_expanded (collapse_card ca) = None
                 /\ player_iframes (collapse_card ca) = []
               else videoCards g' !! a = Some ca).
Proof.
  intros Hr. pose proof (reachable_ok _ _ _ Hr) as Hok.
  split; [apply Hok|]. split.
  - intros ev He. destruct (dispatch_ok rev g ev Hok He) as (g' & Hd & Hok').
    exists g'. split; [exact Hd | apply Hok'].
  - intros b cb Hb Eb.
    assert (Hlt : (b < length (List.map collapse_if_expanded (videoCards g)))%nat)
      by (rewrite length_map; eapply lookup_lt_Some, Hb).
    eexists. split; [apply toggleVideoCard_expand; eassumption|].
    split; [simpl; apply list_lookup_insert_eq, Hlt|].
    split; [reflexivity|].
    split.
    { destruct (page_ok_lookup _ _ _ _ Hok Hb) as (_ & Hpl & _).
      unfold player_ok in Hpl. rewrite Eb in Hpl. simpl. rewrite Hpl. reflexivity. }
    intros a ca Hne Ha.
    assert (Ha' : <[b := expand_card cb]>
                    (List.map collapse_if_expanded (videoCards g)) !! a
                  = Some (collapse_if_expanded ca)).
    { rewrite list_lookup_insert_ne by congruence.
      change (List.map ?f ?l) with (f <$> l).
      rewrite list_lookup_fmap, Ha. reflexivity. }
    simpl. rewrite Ha'. unfold collapse_if_expanded.
    destruct (isExpanded ca) eqn:Ea; [|reflexivity].
    split; [reflexivity|].
    split; [apply toggleVideoCard_collapse; assumption|].
    repeat split.
    destruct (page_ok_lookup _ _ _ _ Hok Ha) as (_ & Hpl & _).
    unfold player_ok in Hpl. rewrite Ea in Hpl. simpl.
    destruct (player_iframes ca) as [|x [|y r]]; simpl in Hpl; try discriminate.
    reflexivity.
Qed.

Lemma expansion_exclusive_witness :
  exists g',
    toggleVideoCard 1 page_two_playing = (Normal tt, g')
    /\ List.map isExpanded (videoCards g') = [false; true]
    /\ List.map (fun c => length (player_iframes c)) (videoCards g') = [0; 1]%nat.
Proof.
  destruct (expansion_exclusive sample_compare part_000 page_two_playing
              reachable_page_two_playing) as (_ & _ & Hexp).
  destruct (Hexp 1%nat (rendered_card card_beto) eq_refl eq_refl) as (g' & Hrun & _).
  exists g'. split; [exact Hrun|].
  vm_compute in Hrun. injection Hrun as <-. split; reflexivity.
Defined.

(** ** Chip highlights *)

(** C4, as the code has it.  On every reachable page, each chip of each
    visible card is highlighted exactly when a filter is active and the
    chip's trimmed text is the selection; the chips [part_000] renders are
    already trimmed, so there the text itself is compared. *)
Theorem chip_highlight_visible cmp rev g :
  reachable cmp rev g ->
  forall c e,
    In c (videoCards g) ->
    card_hidden c = false ->
    In e (chips_children c) ->
    chip_selector rev e = true ->
    (highlighted e = true
     <-> participantFilter_value g <> []
         /\ trim (el_textContent e) = participantFilter_value g)
    /\ (rev = part_000 ->
        (highlighted e = true
         <-> participantFilter_value g <> []
             /\ el_textContent e = participantFilter_value g)).
Proof.
  intros Hr c e Hc Hv He Hs.
  destruct (reachable_ok _ _ _ Hr) as [Hall _].
  rewrite list.Forall_forall in Hall.
  destruct (Hall c (proj2 (list_elem_of_In _ _) Hc)) as (_ & _ & Hch & Hhl).
  specialize (Hhl Hv). rewrite list.Forall_forall in Hch, Hhl.
  apply list_elem_of_In in He.
  pose proof (Hhl e He Hs) as Hiff. split; [exact Hiff|].
  intros ->. specialize (Hch e He). simpl in Hch, Hs.
  destruct Hch as [(_ & Ht & _)|(Hs' & _)]; [|congruence].
  rewrite <- Ht. exact Hiff.
Qed.

Lemma chip_highlight_visible_witness :
  exists c e,
    videoCards page_two_ana !! 0%nat = Some c
    /\ chips_children c !! 0%nat = Some e
    /\ (highlighted e = true
        <-> participantFilter_value page_two_ana <> []
            /\ el_textContent e = participantFilter_value page_two_ana).
Proof.
  eexists _, _. split; [reflexivity|]. split; [reflexivity|].
  refine (proj2 (chip_highlight_visible sample_compare part_000 page_two_ana
                   reachable_page_two_ana _ _ _ _ _ _) eq_refl).
  - vm_compute. left. reflexivity.
  - reflexivity.
  - vm_compute. left. reflexivity.
  - reflexivity.
Defined.

(** C4 as stated fails for the chips of hidden cards: after filtering to
    "Beto" and then to "Ana", the card that lists only "Beto" is hidden and
    its chip "Beto" is still highlighted although the selection is "Ana". *)
Lemma chip_highlight_counterexample :
  reachable sample_compare part_000 page_two_ana
  /\ participantFilter_value page_two_ana = lit "Ana"
  /\ exists c e,
       videoCards page_two_ana !! 1%nat = Some c
       /\ card_hidden c = true
       /\ chips_children c !! 0%nat = Some e
       /\ chip_selector part_000 e = true
       /\ el_textContent e = lit "Beto"
       /\ highlighted e = true
       /\ ~ (highlighted e = true
             <-> participantFilter_value page_two_ana <> []
                 /\ el_textContent e = participantFilter_value page_two_ana).
Proof.
  split; [exact reachable_page_two_ana|]. split; [reflexivity|].
  eexists _, _. repeat (split; [reflexivity|]).
  intros [H _]. destruct (H eq_refl) as [_ Heq]. vm_compute in Heq. discriminate Heq.
Qed.

(** ** Witnesses on the sample pages *)

Lemma escape_key_witness :
  document_keydown key_Escape page_two_ready = (Normal tt, page_two_ready)
  /\ document_keydown key_Escape page_two_playing
     = toggleVideoCard 0 page_two_playing.
Proof.
  split.
  - apply (proj1 (escape_key page_two_ready)).
    intros c Hc. vm_compute in Hc. destruct Hc as [<-|[<-|[]]]; reflexivity.
  - refine (proj2 (proj1 (proj2 (escape_key page_two_playing))
                     0%nat _ eq_refl eq_refl _)).
    intros [|[|j]] c Hne Hc; [congruence | | discriminate Hc].
    vm_compute in Hc. injection Hc as <-. reflexivity.
Defined.

Lemma empty_filter_restores_witness :
  exists g',
    resetFilter part_000 page_two_ana = (Normal tt, g')
    /\ List.map card_hidden (videoCards g') = [false; false]
    /\ List.map (fun c => List.map highlighted (chips_children c)) (videoCards g')
       = [[false; false]; [false]].
Proof.
  destruct (proj2 (empty_filter_restores part_000 page_two_ana eq_refl))
    as (g' & Hrun & _).
  exists g'. split; [exact Hrun|].
  vm_compute in Hrun. injection Hrun as <-. split; reflexivity.
Defined.

(** * Further properties of the script *)

(** ** A loop that faults part of the way *)

Lemma forallb_false_split {A} (ok : A -> bool) (l : list A) :
  forallb ok l = false ->
  exists good c bad,
    l = good ++ c :: bad /\ forallb ok good = true /\ ok c = false.
Proof.
  induction l as [|a l IH]; simpl; [discriminate|].
  destruct (ok a) eqn:E; simpl.
  - intros H. destruct (IH H) as (good & c & bad & -> & Hg & Hc).
    exists (a :: good), c, bad. simpl. rewrite E, Hg. auto.
  - intros _. exists [], a, l. auto.
Qed.

(** The rounds before the first faulting card are kept, the faulting card
    and the cards after it are not reached. *)
Lemma forEach_local_fault_from {L} (F : Card -> Card) (upd : L -> Card -> L)
    (ok : Card -> bool) (body : nat -> L -> Handler L) :
  (forall j acc g c, videoCards g !! j = Some c -> ok c = true ->
     body j acc g
     = (Normal (upd acc c), set_videoCards (fun _ => <[j := F c]> (videoCards g)) g)) ->
  (forall j acc g c, videoCards g !! j = Some c -> ok c = false ->
     body j acc g = (Throw TypeError, g)) ->
  forall good pre acc g c bad,
    videoCards g = pre ++ good ++ c :: bad ->
    forallb ok good = true ->
    ok c = false ->
    forEach_local (seq (length pre) (length (good ++ c :: bad))) acc body g
    = (Throw TypeError,
       set_videoCards (fun _ => pre ++ List.map F good ++ c :: bad) g).
Proof.
  intros Hok Hbad. induction good as [|x good IH]; intros pre acc g c bad Hg Hgood Hc.
  - simpl in *. erewrite bind_Throw.
    2:{ apply Hbad with (c := c); [rewrite Hg; apply lookup_middle | exact Hc]. }
    rewrite <- Hg, set_videoCards_same. reflexivity.
  - simpl in Hgood. apply andb_true_iff in Hgood as [Hx Hgood].
    simpl length. simpl seq.
    cbn [forEach_local]. erewrite bind_Normal.
    2:{ apply Hok with (c := x); [rewrite Hg; apply lookup_middle | exact Hx]. }
    rewrite Hg. simpl app. rewrite insert_middle.
    specialize (IH (pre ++ [F x]) (upd acc x)
                  (set_videoCards (fun _ => pre ++ F x :: good ++ c :: bad) g) c bad).
    rewrite length_app in IH. simpl in IH. rewrite Nat.add_1_r in IH.
    rewrite IH; [|rewrite <- app_assoc; reflexivity | exact Hgood | exact Hc].
    unfold set_videoCards. simpl. rewrite <- app_assoc. reflexivity.
Qed.

Lemma forEach_local_fault {L} (F : Card -> Card) (upd : L -> Card -> L)
    (ok : Card -> bool) (body : nat -> L -> Handler L) acc g good c bad :
  (forall j acc g c, videoCards g !! j = Some c -> ok c = true ->
     body j acc g
     = (Normal (upd acc c), set_videoCards (fun _ => <[j := F c]> (videoCards g)) g)) ->
  (forall j acc g c, videoCards g !! j = Some c -> ok c = false ->
     body j acc g = (Throw TypeError, g)) ->
  videoCards g = good ++ c :: bad ->
  forallb ok good = true ->
  ok c = false ->
  forEach_local (seq 0 (length (videoCards g))) acc body g
  = (Throw TypeError, set_videoCards (fun _ => List.map F good ++ c :: bad) g).
Proof.
  intros Hok Hbad Hg Hgood Hc. rewrite Hg at 1.
  apply (forEach_local_fault_from F upd ok body Hok Hbad good [] acc g c bad);
    assumption.
Qed.

(** ** [filterVideos] on a page with a faulty card *)

(** X1.  When the first card without a participant list is reached,
    [filterVideos] stops with a [TypeError]: the cards before it are
    already filtered, that card and the cards after it are untouched, and
    the placeholder is not updated. *)
Theorem filterVideos_fault_keeps_prefix rev selection g good c bad :
  videoCards g = good ++ c :: bad ->
  forallb has_participants good = true ->
  card_data_participants c = None ->
  filterVideos rev selection g
  = (Throw TypeError,
     set_videoCards
       (fun _ => List.map (filter_card rev selection) good ++ c :: bad) g).
Proof.
  intros Hg Hgood Hc. unfold filterVideos.
  erewrite bind_Normal by apply videoCards_positions_eq.
  erewrite bind_Throw; [reflexivity|].
  apply (forEach_local_fault (filter_card rev selection) (count_visible selection)
           has_participants) with (c := c) (bad := bad); try assumption.
  - intros j acc g0 c0 H Hp. apply filterVideos_round; assumption.
  - intros j acc g0 c0 H Hp. unfold has_participants in Hp.
    destruct (card_data_participants c0) eqn:Ep; [discriminate|].
    erewrite bind_Throw; [reflexivity|].
    eapply dataset_participants_split_None; eassumption.
  - unfold has_participants. rewrite Hc. reflexivity.
Qed.

Lemma filterVideos_fault_keeps_prefix_witness :
  exists g',
    filterVideos part_000 (lit "Carla") page_unlisted = (Throw TypeError, g')
    /\ List.map card_hidden (videoCards g') = [true; false; false]
    /\ emptyState_hidden g' = emptyState_hidden page_unlisted.
Proof.
  eexists. split.
  - exact (filterVideos_fault_keeps_prefix part_000 (lit "Carla") page_unlisted
             [card_ana_beto] card_unlisted [card_beto] eq_refl eq_refl eq_refl).
  - split; reflexivity.
Defined.

(** ** Filtering twice, and what filtering leaves alone *)

Lemma classList_add_idempotent t cl :
  classList_add t (classList_add t cl) = classList_add t cl.
Proof.
  unfold classList_add. destruct (bool_decide (t ∈ cl)) eqn:E.
  - rewrite E. reflexivity.
  - rewrite bool_decide_true; [reflexivity|].
    apply elem_of_app. right. apply list_elem_of_singleton. reflexivity.
Qed.

Lemma classList_remove_idempotent t cl :
  classList_remove t (classList_remove t cl) = classList_remove t cl.
Proof.
  unfold classList_remove. induction cl as [|x cl IH]; simpl; [reflexivity|].
  destruct (negb (bool_decide (x = t))) eqn:E; simpl; rewrite ?E, IH; reflexivity.
Qed.

Lemma highlight_chip_idempotent selection e :
  highlight_chip selection (highlight_chip selection e) = highlight_chip selection e.
Proof.
  unfold highlight_chip at 1. rewrite el_textContent_highlight_chip.
  unfold highlight_chip.
  destruct (truthy selection && _); unfold set_el_classList; simpl;
    rewrite ?classList_add_idempotent, ?classList_remove_idempotent; reflexivity.
Qed.

Lemma update_selected_highlight_idempotent rev selection children :
  update_selected (chip_selector rev) 0 (highlight_chip selection)
    (update_selected (chip_selector rev) 0 (highlight_chip selection) children)
  = update_selected (chip_selector rev) 0 (highlight_chip selection) children.
Proof.
  rewrite !update_selected_all, map_map. apply map_ext. intros e.
  destruct (chip_selector rev e) eqn:E; [|rewrite E; reflexivity].
  rewrite chip_selector_highlight_chip, E. apply highlight_chip_idempotent.
Qed.

Lemma card_data_participants_filter_card rev selection c :
  card_data_participants (filter_card rev selection c) = card_data_participants c.
Proof.
  unfold filter_card. destruct (card_data_participants c) as [p|] eqn:Ep; [|exact Ep].
  destruct (matches selection p); [exact Ep|].
  unfold collapse_if_expanded. destruct (isExpanded _); exact Ep.
Qed.

Lemma filter_card_idempotent rev selection c :
  filter_card rev selection (filter_card rev selection c)
  = filter_card rev selection c.
Proof.
  unfold filter_card at 1. rewrite card_data_participants_filter_card.
  unfold filter_card. destruct (card_data_participants c) as [p|] eqn:Ep; [|reflexivity].
  destruct (matches selection p).
  - unfold set_chips_children, set_card_hidden. simpl.
    rewrite update_selected_highlight_idempotent. reflexivity.
  - unfold collapse_if_expanded.
    change (isExpanded (set_card_hidden true c)) with (isExpanded c).
    destruct (isExpanded c) eqn:E.
    + reflexivity.
    + change (isExpanded (set_card_hidden true (set_card_hidden true c)))
        with (isExpanded c).
      rewrite E. reflexivity.
Qed.

Lemma forallb_has_participants_filtered rev selection cs :
  forallb has_participants (List.map (filter_card rev selection) cs)
  = forallb has_participants cs.
Proof.
  induction cs as [|c r IH]; simpl; [reflexivity|].
  rewrite IH. unfold has_participants at 1.
  rewrite card_data_participants_filter_card. reflexivity.
Qed.

Lemma count_visible_filtered rev selection cs n :
  fold_left (count_visible selection) (List.map (filter_card rev selection) cs) n
  = fold_left (count_visible selection) cs n.
Proof.
  revert n. induction cs as [|c r IH]; intros n; simpl; [reflexivity|].
  rewrite IH. unfold count_visible at 2 4.
  rewrite card_data_participants_filter_card. reflexivity.
Qed.

(** X2.  Running [filterVideos] with the same selection a second time
    changes nothing: it completes and returns the page the first run left. *)
Theorem filterVideos_idempotent rev selection g :
  forallb has_participants (videoCards g) = true ->
  exists g',
    filterVideos rev selection g = (Normal tt, g')
    /\ filterVideos rev selection g' = (Normal tt, g').
Proof.
  intros Hall. eexists. split; [apply filterVideos_Normal, Hall|].
  rewrite filterVideos_Normal
    by (simpl; rewrite forallb_has_participants_filtered; exact Hall).
  simpl. rewrite count_visible_filtered.
  unfold set_emptyState_hidden, set_videoCards. simpl.
  do 2 f_equal. rewrite map_map. apply map_ext. intros c.
  apply filter_card_idempotent.
Qed.

Lemma filterVideos_idempotent_witness :
  exists g',
    filterVideos part_000 (lit "Ana") page_two_playing = (Normal tt, g')
    /\ filterVideos part_000 (lit "Ana") g' = (Normal tt, g').
Proof.
  exact (filterVideos_idempotent part_000 (lit "Ana") page_two_playing eq_refl).
Defined.

Lemma map_el_textContent_update_selected selector skip f children :
  (forall e, el_textContent (f e) = el_textContent e) ->
  List.map el_textContent (update_selected selector skip f children)
  = List.map el_textContent children.
Proof.
  intros Hf. revert skip. induction children as [|e r IH]; intros skip; simpl;
    [reflexivity|].
  destruct (selector e); [destruct skip|]; simpl; rewrite ?Hf, IH; reflexivity.
Qed.

(** X3.  [filterVideos] touches nothing but visibility, chip highlights and
    the placeholder, except that it collapses the cards it hides: timers,
    the filter control and each card's attributes, title and chip texts are
    kept; no card becomes expanded; a card left visible keeps its expansion
    state and its player; a card left hidden keeps its chips as they were. *)
Theorem filterVideos_frame rev selection g :
  forallb has_participants (videoCards g) = true ->
  exists g',
    filterVideos rev selection g = (Normal tt, g')
    /\ timers g' = timers g
    /\ participantFilter_value g' = participantFilter_value g
    /\ participantFilter_options g' = participantFilter_options g
    /\ forall i c, videoCards g !! i = Some c ->
         exists c',
           videoCards g' !! i = Some c'
           /\ card_data_participants c' = card_data_participants c
           /\ card_data_videoId c' = card_data_videoId c
           /\ title_textContent c' = title_textContent c
           /\ List.map el_textContent (chips_children c')
              = List.map el_textContent (chips_children c)
           /\ (isExpanded c' = true -> isExpanded c = true)
           /\ (card_hidden c' = false ->
               thumbnail_aria_expanded c' = thumbnail_aria_expanded c
               /\ embed_hidden c' = embed_hidden c
               /\ card_data_expanded c' = card_data_expanded c
               /\ player_classList c' = player_classList c
               /\ player_iframes c' = player_iframes c)
           /\ (card_hidden c' = true -> chips_children c' = chips_children c).
Proof.
  intros Hall. eexists. split; [apply filterVideos_Normal, Hall|].
  simpl. do 3 (split; [reflexivity|]).
  intros i c H. exists (filter_card rev selection c).
  split; [change (List.map ?f ?l) with (f <$> l); rewrite list_lookup_fmap, H;
          reflexivity|].
  destruct (forallb_has_participants _ _ _ Hall H) as [p Ep].
  unfold filter_card. rewrite Ep. destruct (matches selection p).
  - simpl. split; [exact Ep|]. split; [reflexivity|]. split; [reflexivity|].
    split; [apply map_el_textContent_update_selected;
            apply el_textContent_highlight_chip|].
    split; [auto|]. split; [intros _; repeat split | discriminate].
  - unfold collapse_if_expanded.
    change (isExpanded (set_card_hidden true c)) with (isExpanded c).
    destruct (isExpanded c) eqn:E; simpl;
      (split; [exact Ep|]); do 3 (split; [reflexivity|]);
      (split; [intros He;
               first [reflexivity
                     | change (isExpanded c = true) in He; congruence] |]);
      (split; [discriminate | intros _; reflexivity]).
Qed.

Lemma filterVideos_frame_witness :
  exists g',
    filterVideos part_000 (lit "Ana") page_two_playing = (Normal tt, g')
    /\ List.map isExpanded (videoCards g') = [true; false]
    /\ List.map (fun c => length (player_iframes c)) (videoCards g') = [1; 0]%nat.
Proof.
  destruct (filterVideos_frame part_000 (lit "Ana") page_two_playing eq_refl)
    as (g' & Hrun & _).
  exists g'. split; [exact Hrun|].
  vm_compute in Hrun. injection Hrun as <-. split; reflexivity.
Defined.

(** ** [toggleVideoCard] on any page *)

(** X4.  Whatever the page looked like, after a collapsed card is toggled
    it is the only expanded card. *)
Theorem toggleVideoCard_sole_expanded card g c :
  videoCards g !! card = Some c ->
  isExpanded c = false ->
  exists g',
    toggleVideoCard card g = (Normal tt, g')
    /\ forall j cj, videoCards g' !! j = Some cj ->
         (isExpanded cj = true <-> j = card).
Proof.
  intros H E. eexists. split; [apply toggleVideoCard_expand; eassumption|].
  simpl. intros j cj Hj.
  assert (Hlt : (card < length (List.map collapse_if_expanded (videoCards g)))%nat)
    by (rewrite length_map; eapply lookup_lt_Some, H).
  destruct (decide (j = card)) as [->|Hne].
  - rewrite list_lookup_insert_eq in Hj by exact Hlt. injection Hj as <-.
    split; reflexivity.
  - rewrite list_lookup_insert_ne in Hj by congruence.
    change (List.map ?f ?l) with (f <$> l) in Hj. rewrite list_lookup_fmap in Hj.
    destruct (videoCards g !! j) as [c0|]; simpl in Hj; [|discriminate].
    injection Hj as <-. rewrite isExpanded_collapse_if_expanded.
    split; [discriminate | contradiction].
Qed.

Lemma toggleVideoCard_sole_expanded_witness :
  exists g',
    toggleVideoCard 1 page_two_playing = (Normal tt, g')
    /\ List.map isExpanded (videoCards g') = [false; true].
Proof.
  destruct (toggleVideoCard_sole_expanded 1 page_two_playing
              (rendered_card card_beto) eq_refl eq_refl) as (g' & Hrun & _).
  exists g'. split; [exact Hrun|].
  vm_compute in Hrun. injection Hrun as <-. reflexivity.
Defined.

(** X5.  [toggleVideoCard] never changes which cards are visible, any
    card's attributes, title or chips, the filter control or the
    placeholder; a card that is neither the toggled one nor expanded is
    left exactly as it was. *)
Theorem toggleVideoCard_frame card g c :
  videoCards g !! card = Some c ->
  exists g',
    toggleVideoCard card g = (Normal tt, g')
    /\ emptyState_hidden g' = emptyState_hidden g
    /\ participantFilter_value g' = participantFilter_value g
    /\ participantFilter_options g' = participantFilter_options g
    /\ forall j cj, videoCards g !! j = Some cj ->
         exists cj',
           videoCards g' !! j = Some cj'
           /\ card_hidden cj' = card_hidden cj
           /\ card_data_participants cj' = card_data_participants cj
           /\ card_data_videoId cj' = card_data_videoId cj
           /\ title_textContent cj' = title_textContent cj
           /\ chips_children cj' = chips_children cj
           /\ (j <> card -> isExpanded cj = false -> cj' = cj).
Proof.
  intros H.
  assert (Hcollapse : forall x,
            card_hidden (collapse_if_expanded x) = card_hidden x
            /\ card_data_participants (collapse_if_expanded x) = card_data_participants x
            /\ card_data_videoId (collapse_if_expanded x) = card_data_videoId x
            /\ title_textContent (collapse_if_expanded x) = title_textContent x
            /\ chips_children (collapse_if_expanded x) = chips_children x).
  { intros x. unfold collapse_if_expanded. destruct (isExpanded x); repeat split. }
  destruct (isExpanded c) eqn:E.
  - eexists. split; [apply toggleVideoCard_collapse; eassumption|].
    do 3 (split; [reflexivity|]). simpl. intros j cj Hj.
    destruct (decide (j = card)) as [->|Hne].
    + rewrite list_lookup_insert_eq by (eapply lookup_lt_Some, H).
      rewrite H in Hj. injection Hj as <-.
      eexists. split; [reflexivity|]. repeat split. contradiction.
    + rewrite list_lookup_insert_ne by congruence.
      exists cj. repeat split. exact Hj.
  - eexists. split; [apply toggleVideoCard_expand; eassumption|].
    do 3 (split; [reflexivity|]). simpl. intros j cj Hj.
    destruct (decide (j = card)) as [->|Hne].
    + rewrite list_lookup_insert_eq
        by (rewrite length_map; eapply lookup_lt_Some, H).
      rewrite H in Hj. injection Hj as <-.
      eexists. split; [reflexivity|]. repeat split. contradiction.
    + rewrite list_lookup_insert_ne by congruence.
      change (List.map ?f ?l) with (f <$> l). rewrite list_lookup_fmap, Hj.
      eexists. split; [reflexivity|].
      destruct (Hcollapse cj) as (H1 & H2 & H3 & H4 & H5).
      repeat (split; [assumption|]).
      intros _ Ej. apply collapse_if_expanded_id, Ej.
Qed.

Lemma toggleVideoCard_frame_witness :
  exists g',
    toggleVideoCard 0 page_two_ana = (Normal tt, g')
    /\ List.map card_hidden (videoCards g') = [false; true]
    /\ participantFilter_value g' = lit "Ana".
Proof.
  destruct (toggleVideoCard_frame 0 page_two_ana _ eq_refl) as (g' & Hrun & _).
  exists g'. split; [exact Hrun|].
  vm_compute in Hrun. injection Hrun as <-. split; reflexivity.
Defined.

(** X6.  Expanding a card schedules one scroll of that card; collapsing it
    again does not cancel the scroll, which stays pending and can still
    fire on the collapsed card. *)
Theorem toggleVideoCard_scroll_stays_pending rev card g c :
  videoCards g !! card = Some c ->
  isExpanded c = false ->
  exists g1 g2,
    toggleVideoCard card g = (Normal tt, g1)
    /\ timers g1 = timers g ++ [card]
    /\ toggleVideoCard card g1 = (Normal tt, g2)
    /\ timers g2 = timers g ++ [card]
    /\ enabled TimerFires g2 = true
    /\ exists g3, dispatch rev TimerFires g2 = (Normal tt, g3)
                  /\ videoCards g3 = videoCards g2
                  /\ timers g3 = tail (timers g ++ [card]).
Proof.
  intros H E.
  assert (Hlt : (card < length (List.map collapse_if_expanded (videoCards g)))%nat)
    by (rewrite length_map; eapply lookup_lt_Some, H).
  eexists _, _. split; [apply toggleVideoCard_expand; eassumption|].
  split; [reflexivity|].
  split.
  { apply toggleVideoCard_collapse with (c := expand_card c); [|reflexivity].
    simpl. apply list_lookup_insert_eq, Hlt. }
  split; [reflexivity|].
  split; [simpl; destruct (timers g); reflexivity|].
  eexists. split; [reflexivity|]. split; reflexivity.
Qed.

Lemma toggleVideoCard_scroll_stays_pending_witness :
  exists g1 g2,
    toggleVideoCard 0 page_two_ready = (Normal tt, g1)
    /\ toggleVideoCard 0 g1 = (Normal tt, g2)
    /\ timers g2 = [0%nat]
    /\ List.map isExpanded (videoCards g2) = [false; false].
Proof.
  destruct (toggleVideoCard_scroll_stays_pending part_000 0 page_two_ready _
              eq_refl eq_refl) as (g1 & g2 & H1 & _ & H2 & _).
  exists g1, g2. split; [exact H1|]. split; [exact H2|].
  vm_compute in H1. injection H1 as <-.
  vm_compute in H2. injection H2 as <-. split; reflexivity.
Defined.

(** ** Keys *)

(** X7.  Escape collapses every expanded card, however many there are,
    leaves the pending timers alone, and pressing it again changes
    nothing. *)
Theorem escape_collapses_all g :
  exists g',
    document_keydown key_Escape g = (Normal tt, g')
    /\ (forall c', In c' (videoCards g') -> isExpanded c' = false)
    /\ timers g' = timers g
    /\ document_keydown key_Escape g' = (Normal tt, g').
Proof.
  eexists. split; [apply document_keydown_Escape|].
  assert (Hnone : forall c', In c' (List.map collapse_if_expanded (videoCards g)) ->
                    isExpanded c' = false).
  { intros c' Hc'. apply in_map_iff in Hc' as (c & <- & _).
    apply isExpanded_collapse_if_expanded. }
  split; [exact Hnone|]. split; [reflexivity|].
  rewrite document_keydown_Escape. simpl.
  rewrite (map_collapse_if_expanded_none _ Hnone). reflexivity.
Qed.

Lemma bind_ret_tt (m : Handler unit) g :
  (m ;;; ret tt) g = m g.
Proof. unfold bind. destruct (m g) as [[[]|e] g']; reflexivity. Qed.

(** X8.  On a thumbnail, Enter and Space do exactly what a click does; a
    key other than Enter, Space and Escape does nothing, on a thumbnail or
    elsewhere. *)
Theorem thumbnail_keys rev card g :
  dispatch rev (KeydownThumbnail card key_Enter) g
  = dispatch rev (ClickThumbnail card) g
  /\ dispatch rev (KeydownThumbnail card key_Space) g
     = dispatch rev (ClickThumbnail card) g
  /\ forall key,
       key <> key_Enter -> key <> key_Space -> key <> key_Escape ->
       dispatch rev (KeydownThumbnail card key) g = (Normal tt, g)
       /\ dispatch rev (KeydownDocument key) g = (Normal tt, g).
Proof.
  split; [apply bind_ret_tt|]. split; [apply bind_ret_tt|].
  intros key H1 H2 H3. simpl. unfold thumbnail_keydown, document_keydown.
  rewrite !bool_decide_false by assumption. split; reflexivity.
Qed.

Lemma thumbnail_keys_witness :
  dispatch part_000 (KeydownThumbnail 0 (lit "Tab")) page_two_playing
  = (Normal tt, page_two_playing)
  /\ dispatch part_000 (KeydownThumbnail 1 key_Space) page_two_playing
     = dispatch part_000 (ClickThumbnail 1) page_two_playing.
Proof.
  split.
  - apply (proj2 (proj2 (thumbnail_keys part_000 0 page_two_playing)) (lit "Tab"));
      discriminate.
  - apply (proj1 (proj2 (thumbnail_keys part_000 1 page_two_playing))).
Defined.

(** ** Chip rendering in general *)

Lemma split_comma_nonempty s : split_comma s <> [].
Proof.
  destruct s as [|c r]; simpl; [discriminate|].
  destruct (c =? comma); [discriminate|].
  destruct (split_comma r); discriminate.
Qed.

(** A list of names has one piece more than it has commas. *)
Lemma length_split_comma s :
  length (split_comma s) = S (length (List.filter (fun c => c =? comma) s)).
Proof.
  induction s as [|c r IH]; simpl; [reflexivity|].
  destruct (c =? comma); simpl; [rewrite IH; reflexivity|].
  destruct (split_comma r) as [|piece more] eqn:E; [|exact IH].
  exfalso. exact (split_comma_nonempty r E).
Qed.

Lemma filter_imap_create_chip names :
  List.filter sel_chip_not_expand (imap create_chip names) = imap create_chip names.
Proof.
  generalize create_chip_facts. generalize create_chip. intros f Hf.
  revert f Hf. induction names as [|x r IH]; intros f Hf; simpl; [reflexivity|].
  destruct (Hf 0%nat x) as (-> & _). f_equal. apply IH.
  intros i y. apply Hf.
Qed.

Lemma map_el_textContent_imap_create_chip names :
  List.map el_textContent (imap create_chip names) = names.
Proof.
  generalize create_chip_facts. generalize create_chip. intros f Hf.
  revert f Hf. induction names as [|x r IH]; intros f Hf; simpl; [reflexivity|].
  destruct (Hf 0%nat x) as (_ & -> & _). f_equal. apply IH.
  intros i y. apply Hf.
Qed.

Lemma create_chip_hidden index name :
  classList_contains "chip--hidden" (el_classList (create_chip index name)) = true
  <-> (MAX_VISIBLE_CHIPS <= index)%nat.
Proof.
  unfold create_chip. destruct (MAX_VISIBLE_CHIPS <=? index)%nat eqn:E.
  - apply Nat.leb_le in E. split; [intros _; exact E | reflexivity].
  - apply Nat.leb_gt in E. split; [discriminate | lia].
Qed.

(** X9.  For a card that lists its participants, [generateChips] discards
    what the chip container held and renders one chip per listed name
    (one more than the list has commas), in order, with the trimmed name as
    text, none highlighted, the chips from the fifth on hidden; the expand
    control follows exactly when there are more than four names; the other
    cards are untouched and rendering again changes nothing. *)
Theorem generateChips_renders card g c p :
  videoCards g !! card = Some c ->
  card_data_participants c = Some p ->
  exists g' c',
    generateChips card g = (Normal tt, g')
    /\ videoCards g' !! card = Some c'
    /\ (forall j, j <> card -> videoCards g' !! j = videoCards g !! j)
    /\ length (participants_of p)
       = S (length (List.filter (fun x => x =? comma) p))
    /\ length (chips_children c')
       = (if (MAX_VISIBLE_CHIPS <? length (participants_of p))%nat
          then S (length (participants_of p))
          else length (participants_of p))
    /\ List.map el_textContent
         (List.filter sel_chip_not_expand (chips_children c'))
       = participants_of p
    /\ (forall i e,
          (i < length (participants_of p))%nat ->
          chips_children c' !! i = Some e ->
          sel_chip_not_expand e = true
          /\ highlighted e = false
          /\ (classList_contains "chip--hidden" (el_classList e) = true
              <-> (MAX_VISIBLE_CHIPS <= i)%nat))
    /\ chips_children c' !! length (participants_of p)
       = (if (MAX_VISIBLE_CHIPS <? length (participants_of p))%nat
          then Some (create_expandBtn
                       (Z.of_nat (length (participants_of p))
                        - Z.of_nat MAX_VISIBLE_CHIPS))
          else None)
    /\ generateChips card g' = (Normal tt, g').
Proof.
  intros H Hp.
  assert (Hlt : (card < length (videoCards g))%nat) by (eapply lookup_lt_Some, H).
  set (names := participants_of p).
  exists (set_videoCards
            (fun _ => <[card := set_chips_children (fun _ => render_chips names) c]>
                        (videoCards g)) g),
         (set_chips_children (fun _ => render_chips names) c).
  split; [apply generateChips_Some; assumption|].
  split; [simpl; apply list_lookup_insert_eq, Hlt|].
  split; [intros j Hne; simpl; apply list_lookup_insert_ne; congruence|].
  split; [unfold names, participants_of; rewrite length_map; apply length_split_comma|].
  assert (Hlen : length (imap create_chip names) = length names) by apply length_imap.
  simpl. unfold render_chips. fold names.
  split.
  { rewrite length_app, Hlen.
    destruct (MAX_VISIBLE_CHIPS <? length names)%nat; simpl; lia. }
  split.
  { rewrite List.filter_app, filter_imap_create_chip, List.map_app,
      map_el_textContent_imap_create_chip.
    destruct (MAX_VISIBLE_CHIPS <? length names)%nat; simpl; apply app_nil_r. }
  split.
  { intros i e Hi He. rewrite lookup_app_l in He by lia.
    rewrite list_lookup_imap in He.
    destruct (names !! i) as [x|]; simpl in He; [|discriminate].
    injection He as <-. destruct (create_chip_facts i x) as (Hs & _ & _ & Hh).
    split; [exact Hs|]. split; [exact Hh|]. apply create_chip_hidden. }
  split.
  { rewrite lookup_app_r by lia. rewrite Hlen, Nat.sub_diag.
    destruct (MAX_VISIBLE_CHIPS <? length names)%nat; reflexivity. }
  erewrite generateChips_Some; [|simpl; apply list_lookup_insert_eq, Hlt | exact Hp].
  simpl. rewrite list_insert_insert_eq. reflexivity.
Qed.

Lemma generateChips_renders_witness :
  exists g' c',
    generateChips 0 page_seven = (Normal tt, g')
    /\ videoCards g' !! 0%nat = Some c'
    /\ List.map el_textContent (chips_children c')
       = [lit "Ana"; lit "Beto"; lit "Caro"; lit "Dani"; []; lit "Ana"; lit "Fer";
          expand_label 3].
Proof.
  destruct (generateChips_renders 0 page_seven card_seven
              (lit "Ana, Beto,  Caro ,Dani,,Ana,Fer") eq_refl eq_refl)
    as (g' & c' & Hrun & Hc' & _).
  exists g', c'. split; [exact Hrun|]. split; [exact Hc'|].
  vm_compute in Hrun. injection Hrun as <-.
  vm_compute in Hc'. injection Hc' as <-. reflexivity.
Defined.

(** ** Toggling the overflow chips in general *)

Lemma alter_after_map {A} (f : Element -> Element) (h : A -> Element)
    (rest : list A) (b : Element) :
  alter f (length rest) (List.map h rest ++ [b]) = List.map h rest ++ [f b].
Proof. induction rest as [|x r IH]; simpl; [reflexivity | f_equal; exact IH]. Qed.

Lemma update_selected_skip_shown f n1 n2 n3 n4 l :
  update_selected sel_chip_not_expand MAX_VISIBLE_CHIPS f
    (chip_shown n1 :: chip_shown n2 :: chip_shown n3 :: chip_shown n4 :: l)
  = chip_shown n1 :: chip_shown n2 :: chip_shown n3 :: chip_shown n4
      :: update_selected sel_chip_not_expand 0 f l.
Proof. reflexivity. Qed.

Lemma update_selected_overflow f (h : jsstring -> Element) rest btn :
  (forall x, sel_chip_not_expand (h x) = true) ->
  sel_chip_not_expand btn = false ->
  update_selected sel_chip_not_expand 0 f (List.map h rest ++ [btn])
  = List.map (fun x => f (h x)) rest ++ [btn].
Proof.
  intros Hh Hb. rewrite update_selected_all, List.map_app, map_map. simpl.
  rewrite Hb. f_equal. apply map_ext. intros x. rewrite Hh. reflexivity.
Qed.

Lemma render_chips_overflow n1 n2 n3 n4 x rest :
  render_chips (n1 :: n2 :: n3 :: n4 :: x :: rest)
  = chip_shown n1 :: chip_shown n2 :: chip_shown n3 :: chip_shown n4
      :: List.map (chip_overflow "chip--hidden") (x :: rest)
      ++ [expand_control str_false
            (expand_label (Z.of_nat (5 + length rest) - Z.of_nat MAX_VISIBLE_CHIPS))
            (expand_title (Z.of_nat (5 + length rest) - Z.of_nat MAX_VISIBLE_CHIPS))].
Proof.
  unfold render_chips. cbn [imap length app]. 
  replace (MAX_VISIBLE_CHIPS <? S (S (S (S (S (length rest))))))%nat with true
    by (symmetry; apply Nat.ltb_lt; unfold MAX_VISIBLE_CHIPS; lia).
  change (create_chip 0 n1) with (chip_shown n1).
  change (create_chip 1 n2) with (chip_shown n2).
  change (create_chip 2 n3) with (chip_shown n3).
  change (create_chip 3 n4) with (chip_shown n4).
  cbn [app List.map]. do 4 f_equal.
  change ((create_chip ∘ S ∘ S ∘ S ∘ S) 0%nat x)
    with (chip_overflow "chip--hidden" x).
  change (create_expandBtn ?hc)
    with (expand_control str_false (expand_label hc) (expand_title hc)).
  f_equal. f_equal.
  erewrite imap_ext; [apply (imap_const (chip_overflow "chip--hidden"))|].
  intros i y _. reflexivity.
Qed.

Lemma toggle_children_overflow_reveal n1 n2 n3 n4 rest count aria label title :
  toggle_children (4 + length rest)%nat count false
    (chip_shown n1 :: chip_shown n2 :: chip_shown n3 :: chip_shown n4
       :: List.map (chip_overflow "chip--hidden") rest
       ++ [expand_control aria label title])
  = chip_shown n1 :: chip_shown n2 :: chip_shown n3 :: chip_shown n4
      :: List.map (chip_overflow "chip--visible") rest
      ++ [expand_control str_true (lit "Ver menos") (lit "Ocultar participantes")].
Proof.
  unfold toggle_children.
  change (alter ?f (4 + length rest)%nat (?a :: ?b :: ?c :: ?d :: ?l))
    with (a :: b :: c :: d :: alter f (length rest) l).
  rewrite alter_after_map.
  change (alter ?f (4 + length rest)%nat (?a :: ?b :: ?c :: ?d :: ?l))
    with (a :: b :: c :: d :: alter f (length rest) l).
  rewrite alter_after_map.
  change (alter ?f (4 + length rest)%nat (?a :: ?b :: ?c :: ?d :: ?l))
    with (a :: b :: c :: d :: alter f (length rest) l).
  rewrite alter_after_map.
  rewrite update_selected_skip_shown.
  rewrite update_selected_overflow by reflexivity. reflexivity.
Qed.

Lemma toggle_children_overflow_hide n1 n2 n3 n4 rest count aria label title :
  toggle_children (4 + length rest)%nat count true
    (chip_shown n1 :: chip_shown n2 :: chip_shown n3 :: chip_shown n4
       :: List.map (chip_overflow "chip--visible") rest
       ++ [expand_control aria label title])
  = chip_shown n1 :: chip_shown n2 :: chip_shown n3 :: chip_shown n4
      :: List.map (chip_overflow "chip--hidden") rest
      ++ [expand_control str_false
            (expand_label (Z.of_nat count - Z.of_nat MAX_VISIBLE_CHIPS))
            (expand_title (Z.of_nat count - Z.of_nat MAX_VISIBLE_CHIPS))].
Proof.
  unfold toggle_children.
  change (alter ?f (4 + length rest)%nat (?a :: ?b :: ?c :: ?d :: ?l))
    with (a :: b :: c :: d :: alter f (length rest) l).
  rewrite alter_after_map.
  change (alter ?f (4 + length rest)%nat (?a :: ?b :: ?c :: ?d :: ?l))
    with (a :: b :: c :: d :: alter f (length rest) l).
  rewrite alter_after_map.
  change (alter ?f (4 + length rest)%nat (?a :: ?b :: ?c :: ?d :: ?l))
    with (a :: b :: c :: d :: alter f (length rest) l).
  rewrite alter_after_map.
  rewrite update_selected_skip_shown.
  rewrite update_selected_overflow by reflexivity. reflexivity.
Qed.

Lemma chip_texts_of_overflow n1 n2 n3 n4 (h : jsstring -> Element) rest ctl :
  (forall y, sel_chip_not_expand (h y) = true) ->
  (forall y, el_textContent (h y) = y) ->
  sel_chip_not_expand ctl = false ->
  List.map el_textContent
    (List.filter sel_chip_not_expand
       (chip_shown n1 :: chip_shown n2 :: chip_shown n3 :: chip_shown n4
          :: List.map h rest ++ [ctl]))
  = n1 :: n2 :: n3 :: n4 :: rest.
Proof.
  intros Hsel Htext Hctl.
  change (chip_shown n1 :: chip_shown n2 :: chip_shown n3 :: chip_shown n4
            :: List.map h rest ++ [ctl])
    with ([chip_shown n1; chip_shown n2; chip_shown n3; chip_shown n4]
            ++ List.map h rest ++ [ctl]).
  rewrite !List.filter_app, !List.map_app. simpl List.filter at 3.
  rewrite Hctl. simpl. rewrite app_nil_r. do 4 f_equal.
  induction rest as [|y r IH]; simpl; [reflexivity|].
  rewrite Hsel. simpl. rewrite Htext, IH. reflexivity.
Qed.

(** X10.  For a card that lists more than four names, the expand control
    rendered by [generateChips] sits right after the chips; a first
    [toggleChips] leaves no chip hidden and turns the control to "Ver
    menos", and a second one gives back exactly the page [generateChips]
    left. *)
Theorem toggleChips_twice_restores card g c p :
  videoCards g !! card = Some c ->
  card_data_participants c = Some p ->
  (MAX_VISIBLE_CHIPS < length (participants_of p))%nat ->
  exists g1 g2 c2 btn,
    generateChips card g = (Normal tt, g1)
    /\ enabled (ClickExpandControl card (length (participants_of p))) g1 = true
    /\ toggleChips card (length (participants_of p)) g1 = (Normal tt, g2)
    /\ videoCards g2 !! card = Some c2
    /\ (forall e, In e (chips_children c2) ->
          classList_contains "chip--hidden" (el_classList e) = false)
    /\ List.map el_textContent
         (List.filter sel_chip_not_expand (chips_children c2))
       = participants_of p
    /\ chips_children c2 !! length (participants_of p) = Some btn
    /\ el_textContent btn = lit "Ver menos"
    /\ el_aria_expanded btn = Some str_true
    /\ el_title btn = Some (lit "Ocultar participantes")
    /\ toggleChips card (length (participants_of p)) g2 = (Normal tt, g1).
Proof.
  intros H Hp Hmore.
  assert (Hlt : (card < length (videoCards g))%nat) by (eapply lookup_lt_Some, H).
  assert (Hcount : length (split_comma p) = length (participants_of p))
    by (unfold participants_of; rewrite length_map; reflexivity).
  destruct (participants_of p) as [|n1 [|n2 [|n3 [|n4 [|x rest]]]]] eqn:Hn;
    try (unfold MAX_VISIBLE_CHIPS in Hmore; simpl in Hmore; lia).
  clear Hmore.
  set (shown := fun l => chip_shown n1 :: chip_shown n2 :: chip_shown n3
                         :: chip_shown n4 :: l).
  set (hc := (Z.of_nat (5 + length rest) - Z.of_nat MAX_VISIBLE_CHIPS)%Z).
  set (L1 := shown (List.map (chip_overflow "chip--hidden") (x :: rest)
                    ++ [expand_control str_false (expand_label hc) (expand_title hc)])).
  set (L2 := shown (List.map (chip_overflow "chip--visible") (x :: rest)
                    ++ [expand_control str_true (lit "Ver menos")
                          (lit "Ocultar participantes")])).
  set (c1 := set_chips_children (fun _ => L1) c).
  set (c2 := set_chips_children (fun _ => L2) c).
  set (g1 := set_videoCards (fun _ => <[card := c1]> (videoCards g)) g).
  set (g2 := set_videoCards (fun _ => <[card := c2]> (videoCards g)) g).
  assert (H1 : videoCards g1 !! card = Some c1)
    by (simpl; apply list_lookup_insert_eq, Hlt).
  assert (H2 : videoCards g2 !! card = Some c2)
    by (simpl; apply list_lookup_insert_eq, Hlt).
  assert (Hb : forall s ctl,
             shown (List.map (chip_overflow s) (x :: rest) ++ [ctl])
               !! length (n1 :: n2 :: n3 :: n4 :: x :: rest) = Some ctl).
  { intros s ctl. unfold shown.
    change ((List.map (chip_overflow s) (x :: rest) ++ [ctl])
              !! length (x :: rest) = Some ctl).
    rewrite lookup_app_r by (rewrite length_map; lia).
    rewrite length_map, Nat.sub_diag. reflexivity. }
  exists g1, g2, c2,
    (expand_control str_true (lit "Ver menos") (lit "Ocultar participantes")).
  split.
  { rewrite (generateChips_Some _ _ _ _ H Hp), Hn, render_chips_overflow.
    reflexivity. }
  split.
  { cbn [enabled]. rewrite H1. unfold c1. cbn [chips_children set_chips_children].
    unfold L1. rewrite Hb. reflexivity. }
  assert (Hreveal : toggle_children (length (n1 :: n2 :: n3 :: n4 :: x :: rest))
                      (length (n1 :: n2 :: n3 :: n4 :: x :: rest)) false L1 = L2)
    by apply (toggle_children_overflow_reveal n1 n2 n3 n4 (x :: rest)).
  assert (Hhide : toggle_children (length (n1 :: n2 :: n3 :: n4 :: x :: rest))
                    (length (n1 :: n2 :: n3 :: n4 :: x :: rest)) true L2 = L1)
    by apply (toggle_children_overflow_hide n1 n2 n3 n4 (x :: rest)).
  assert (Hon1 : forall f,
             set_videoCards
               (fun _ => <[card := set_chips_children f c1]> (videoCards g1)) g1
             = set_videoCards
                 (fun _ => <[card := set_chips_children (fun _ => f L1) c]>
                             (videoCards g)) g).
  { intros f. unfold g1, c1, set_videoCards, set_chips_children. simpl.
    rewrite list_insert_insert_eq. reflexivity. }
  assert (Hon2 : forall f,
             set_videoCards
               (fun _ => <[card := set_chips_children f c2]> (videoCards g2)) g2
             = set_videoCards
                 (fun _ => <[card := set_chips_children (fun _ => f L2) c]>
                             (videoCards g)) g).
  { intros f. unfold g2, c2, set_videoCards, set_chips_children. simpl.
    rewrite list_insert_insert_eq. reflexivity. }
  split.
  { rewrite (toggleChips_Some card _ g1 c1 p _ H1 Hp (Hb _ _)).
    change (bool_decide (el_aria_expanded _ = Some str_true)) with false.
    rewrite Hcount, Hon1, Hreveal. reflexivity. }
  split; [exact H2|].
  split.
  { intros e He. unfold c2, L2, shown in He. simpl in He.
    destruct He as [<-|[<-|[<-|[<-|[<-|He]]]]]; try reflexivity.
    apply in_app_iff in He as [He|[<-|[]]]; [|reflexivity].
    apply in_map_iff in He as (y & <- & _). reflexivity. }
  split.
  { unfold c2, L2, shown. cbn [chips_children set_chips_children].
    apply chip_texts_of_overflow; reflexivity. }
  split; [unfold c2, L2; apply Hb|].
  do 3 (split; [reflexivity|]).
  rewrite (toggleChips_Some card _ g2 c2 p _ H2 Hp (Hb _ _)).
  change (bool_decide (el_aria_expanded _ = Some str_true)) with true.
  rewrite Hcount, Hon2, Hhide. reflexivity.
Qed.

Lemma toggleChips_twice_restores_witness :
  exists g1 g2,
    generateChips 0 page_seven = (Normal tt, g1)
    /\ toggleChips 0 7 g1 = (Normal tt, g2)
    /\ toggleChips 0 7 g2 = (Normal tt, g1).
Proof.
  destruct (toggleChips_twice_restores 0 page_seven card_seven
              (lit "Ana, Beto,  Caro ,Dani,,Ana,Fer") eq_refl eq_refl)
    as (g1 & g2 & c2 & btn & Hgen & _ & Ht1 & _ & _ & _ & _ & _ & _ & _ & Ht2).
  { vm_compute. lia. }
  exists g1, g2. split; [exact Hgen|]. split; [exact Ht1 | exact Ht2].
Defined.

(** ** The embed *)

(** X11.  [loadYouTubeEmbed] never throws on a card of the page, with or
    without a video identifier: it marks the player as loading and appends
    one iframe after those the player already holds, addressed to the
    card's identifier (to the text "undefined" when the card has none) and
    titled as the card; the other cards are untouched.  The iframe's load
    event then clears the loading mark and keeps the iframe. *)
Theorem loadYouTubeEmbed_appends card g c :
  videoCards g !! card = Some c ->
  exists g' c' g'' c'',
    loadYouTubeEmbed card g = (Normal tt, g')
    /\ videoCards g' !! card = Some c'
    /\ (forall j, j <> card -> videoCards g' !! j = videoCards g !! j)
    /\ player_iframes c' = player_iframes c ++ [embed_iframe c]
    /\ iframe_src (embed_iframe c)
       = lit "https://www.youtube-nocookie.com/embed/"
         ++ match card_data_videoId c with
            | Some videoId => videoId
            | None => lit "undefined"
            end
         ++ lit "?rel=0&modestbranding=1&autoplay=1&enablejsapi=0"
    /\ iframe_title (embed_iframe c) = title_textContent c
    /\ classList_contains "video-card__player--loading" (player_classList c') = true
    /\ enabled (IframeLoad card) g' = true
    /\ iframe_load card g' = (Normal tt, g'')
    /\ videoCards g'' !! card = Some c''
    /\ classList_contains "video-card__player--loading" (player_classList c'') = false
    /\ player_iframes c'' = player_iframes c'.
Proof.
  intros H.
  assert (Hlt : (card < length (videoCards g))%nat) by (eapply lookup_lt_Some, H).
  set (c' := set_player_iframes (fun fs => fs ++ [embed_iframe c])
               (set_player_classList
                  (classList_add "video-card__player--loading") c)).
  set (g' := set_videoCards (fun _ => <[card := c']> (videoCards g)) g).
  assert (H' : videoCards g' !! card = Some c')
    by (simpl; apply list_lookup_insert_eq, Hlt).
  eexists g', c', _, _.
  split.
  { unfold loadYouTubeEmbed. run_read H. run_read H. run_write H.
    erewrite writeCard_Some by lookup_written H.
    unfold g'. simpl. rewrite list_insert_insert_eq. reflexivity. }
  split; [exact H'|].
  split; [intros j Hne; simpl; apply list_lookup_insert_ne; congruence|].
  split; [reflexivity|].
  split; [unfold embed_iframe, embed_url; simpl; destruct (card_data_videoId c);
          reflexivity|].
  split; [reflexivity|].
  split; [simpl; rewrite classList_contains_add; reflexivity|].
  split.
  { cbn [enabled]. rewrite H'. simpl.
    destruct (player_iframes c); reflexivity. }
  split; [apply writeCard_Some, H'|].
  split; [simpl; apply list_lookup_insert_eq; rewrite length_insert; exact Hlt|].
  split; [simpl; rewrite classList_contains_remove; reflexivity | reflexivity].
Qed.

Lemma loadYouTubeEmbed_appends_witness :
  exists g' c',
    loadYouTubeEmbed 0 (sample_page [card_no_video]) = (Normal tt, g')
    /\ videoCards g' !! 0%nat = Some c'
    /\ List.map iframe_src (player_iframes c')
       = [lit "https://www.youtube-nocookie.com/embed/undefined?rel=0&modestbranding=1&autoplay=1&enablejsapi=0"].
Proof.
  destruct (loadYouTubeEmbed_appends 0 (sample_page [card_no_video]) card_no_video
              eq_refl) as (g' & c' & _ & _ & Hrun & Hc' & _).
  exists g', c'. split; [exact Hrun|]. split; [exact Hc'|].
  vm_compute in Hrun. injection Hrun as <-.
  vm_compute in Hc'. injection Hc' as <-. reflexivity.
Defined.

(** ** The filter control *)

Lemma trimStart_In c s : In c (trimStart s) -> In c s.
Proof.
  induction s as [|d r IH]; simpl; [auto|].
  destruct (isWhiteSpace d); simpl; auto.
Qed.

Lemma trim_In c s : In c (trim s) -> In c s.
Proof.
  unfold trim, trimEnd. intros Hc.
  apply in_rev, trimStart_In, in_rev in Hc. apply trimStart_In, Hc.
Qed.

Lemma split_comma_no_comma s piece :
  In piece (split_comma s) -> ~ In comma piece.
Proof.
  revert piece. induction s as [|c r IH]; intros piece; simpl.
  - intros [<-|[]] [].
  - destruct (c =? comma) eqn:E.
    + intros [<-|Hp]; [intros [] | apply IH, Hp].
    + destruct (split_comma r) as [|first more] eqn:Er.
      * intros [<-|[]] [Hc|[]]. subst. rewrite N.eqb_refl in E. discriminate.
      * intros [<-|Hp] Hin.
        -- destruct Hin as [Hc|Hin].
           ++ subst. rewrite N.eqb_refl in E. discriminate.
           ++ apply (IH first); [left; reflexivity | exact Hin].
        -- apply (IH piece); [right; exact Hp | exact Hin].
Qed.

(** X12.  On cards that all list participants, [populateFilterDropdown]
    appends to the filter control one option per name of the directory, in
    directory order, value and label both the name, and changes nothing
    else; the appended values are pairwise distinct, trimmed and free of
    commas.  When some card lacks the list it throws and leaves the
    control as it was. *)
Theorem populateFilterDropdown_appends cmp g :
  (forallb has_participants (videoCards g) = true ->
   exists names g',
     collectParticipants cmp g = (Normal names, g)
     /\ populateFilterDropdown cmp g = (Normal tt, g')
     /\ participantFilter_options g'
        = participantFilter_options g ++ List.map (fun x => mkOption x x) names
     /\ videoCards g' = videoCards g
     /\ participantFilter_value g' = participantFilter_value g
     /\ emptyState_hidden g' = emptyState_hidden g
     /\ NoDup names
     /\ forall x, In x names -> trim x = x /\ ~ In comma x)
  /\ (forallb has_participants (videoCards g) = false ->
      populateFilterDropdown cmp g = (Throw TypeError, g)).
Proof.
  split; [|apply populateFilterDropdown_Throw].
  intros Hall. eexists _, _.
  split; [apply collectParticipants_Normal, Hall|].
  split; [apply populateFilterDropdown_Normal, Hall|].
  do 4 (split; [reflexivity|]).
  pose proof (sort_Permutation cmp (fold_left collect_card (videoCards g) [])) as HP.
  split; [rewrite HP; apply fold_collect_card_NoDup; constructor|].
  intros x Hx. apply (Permutation_in _ HP) in Hx.
  apply fold_collect_card_In in Hx as [[]|(c & p & _ & _ & Hx)].
  apply in_map_iff in Hx as (piece & <- & Hpiece).
  split; [apply trim_idempotent|].
  intros Hc. apply trim_In in Hc. exact (split_comma_no_comma _ _ Hpiece Hc).
Qed.

Lemma populateFilterDropdown_appends_witness :
  exists g',
    populateFilterDropdown sample_compare page_seven = (Normal tt, g')
    /\ List.map option_value (participantFilter_options g')
       = [[]; []; lit "Ana"; lit "Beto"; lit "Caro"; lit "Dani"; lit "Fer"].
Proof.
  destruct (proj1 (populateFilterDropdown_appends sample_compare page_seven) eq_refl)
    as (names & g' & _ & Hrun & _).
  exists g'. split; [exact Hrun|].
  vm_compute in Hrun. injection Hrun as <-. reflexivity.
Defined.

(** X13.  Every name of the directory, chosen as the selection, shows at
    least one card: [filterVideos] then completes with the placeholder
    hidden and some card visible.  (The empty name, which a card with an
    empty list entry contributes, shows every card.) *)
Theorem directory_name_selects_a_card cmp rev g names x :
  collectParticipants cmp g = (Normal names, g) ->
  In x names ->
  exists g' c',
    filterVideos rev x g = (Normal tt, g')
    /\ emptyState_hidden g' = true
    /\ In c' (videoCards g')
    /\ card_hidden c' = false.
Proof.
  intros Hcollect Hx.
  assert (Hall : forallb has_participants (videoCards g) = true).
  { destruct (forallb has_participants (videoCards g)) eqn:E; [reflexivity|].
    rewrite (collectParticipants_Throw cmp g E) in Hcollect. discriminate. }
  rewrite (collectParticipants_Normal cmp g Hall) in Hcollect.
  injection Hcollect as <-.
  apply (Permutation_in _ (sort_Permutation cmp _)) in Hx.
  apply fold_collect_card_In in Hx as [[]|(c & p & Hc & Ep & Hx)].
  assert (Hm : matches x p = true) by (apply matches_iff; right; exact Hx).
  exists (set_emptyState_hidden
            (negb (fold_left (count_visible x) (videoCards g) 0 =? 0)%nat)
            (set_videoCards (fun _ => List.map (filter_card rev x) (videoCards g)) g)),
         (filter_card rev x c).
  split; [apply filterVideos_Normal, Hall|].
  split.
  { simpl. rewrite count_visible_fold. simpl.
    apply negb_true_iff, Nat.eqb_neq. intros Hzero.
    apply length_filter_zero with (x := c) in Hzero; [|exact Hc].
    rewrite Ep, Hm in Hzero. discriminate. }
  split; [simpl; apply in_map, Hc|].
  rewrite (card_hidden_filter_card _ _ _ _ Ep), Hm. reflexivity.
Qed.

Lemma directory_name_selects_a_card_witness :
  exists g',
    filterVideos part_000 [] page_seven = (Normal tt, g')
    /\ List.map card_hidden (videoCards g') = [false; false]
    /\ emptyState_hidden g' = true.
Proof.
  destruct (directory_name_selects_a_card sample_compare part_000 page_seven
              [[]; lit "Ana"; lit "Beto"; lit "Caro"; lit "Dani"; lit "Fer"] []
              eq_refl (or_introl eq_refl)) as (g' & c' & Hrun & _).
  exists g'. split; [exact Hrun|].
  vm_compute in Hrun. injection Hrun as <-. split; reflexivity.
Defined.

(** ** Start-up *)

Lemma participants_set_rendered cs s :
  fold_left collect_card (List.map rendered_card cs) s = fold_left collect_card cs s.
Proof.
  revert s. induction cs as [|c r IH]; intros s; simpl; [reflexivity|].
  rewrite IH. f_equal. unfold collect_card, rendered_card.
  destruct (card_data_participants c) eqn:E; simpl; rewrite ?E; reflexivity.
Qed.

Lemma generateChips_fault g good c bad :
  videoCards g = good ++ c :: bad ->
  forallb has_participants good = true ->
  card_data_participants c = None ->
  forEach (seq 0 (length (videoCards g))) generateChips g
  = (Throw TypeError,
     set_videoCards (fun _ => List.map rendered_card good ++ c :: bad) g).
Proof.
  intros Hg Hgood Hc. rewrite forEach_as_local.
  apply (forEach_local_fault rendered_card (fun (_ : unit) _ => tt)
           has_participants) with (c := c) (bad := bad); try assumption.
  - intros j [] g0 c0 H Hp. destruct (has_participants_Some c0 Hp) as [p Ep].
    rewrite (generateChips_Some _ _ _ _ H Ep). unfold rendered_card.
    rewrite Ep. reflexivity.
  - intros j [] g0 c0 H Hp. unfold has_participants in Hp.
    destruct (card_data_participants c0) eqn:Ep; [discriminate|].
    apply generateChips_None with (c := c0); assumption.
  - unfold has_participants. rewrite Hc. reflexivity.
Qed.

(** X14.  [init] completes exactly when every card lists its participants.
    It then leaves the cards with their chips rendered ([part_000]) or as
    they were ([script_js]) and the directory appended to the filter
    control.  Otherwise it throws a [TypeError] and the filter control gets
    no option; in [part_000] the cards before the first faulty one have
    their chips rendered, the others not. *)
Theorem init_completes_iff cmp rev g0 :
  (forallb has_participants (videoCards g0) = true ->
   exists g,
     init cmp rev g0 = (Normal tt, g)
     /\ videoCards g
        = match rev with
          | part_000 => List.map rendered_card (videoCards g0)
          | script_js => videoCards g0
          end
     /\ participantFilter_options g
        = participantFilter_options g0
          ++ List.map (fun x => mkOption x x)
               (sort cmp (participants_set (videoCards g0))))
  /\ (forallb has_participants (videoCards g0) = false ->
      exists g good c bad,
        init cmp rev g0 = (Throw TypeError, g)
        /\ participantFilter_options g = participantFilter_options g0
        /\ videoCards g0 = good ++ c :: bad
        /\ forallb has_participants good = true
        /\ card_data_participants c = None
        /\ videoCards g
           = match rev with
             | part_000 => List.map rendered_card good ++ c :: bad
             | script_js => videoCards g0
             end).
Proof.
  split.
  - intros Hall. destruct rev; simpl.
    + eexists. split.
      * erewrite bind_Normal by apply videoCards_positions_eq.
        erewrite bind_Normal by (apply generateChips_all, Hall).
        apply populateFilterDropdown_Normal. simpl.
        rewrite forallb_has_participants_rendered. exact Hall.
      * split; [reflexivity|]. simpl. unfold participants_set.
        rewrite participants_set_rendered. reflexivity.
    + eexists. split; [apply populateFilterDropdown_Normal, Hall|].
      split; reflexivity.
  - intros Hall.
    destruct (forallb_false_split _ _ Hall) as (good & c & bad & Hg & Hgood & Hc).
    assert (Ec : card_data_participants c = None).
    { unfold has_participants in Hc. destruct (card_data_participants c);
        [discriminate | reflexivity]. }
    destruct rev; simpl.
    + eexists _, good, c, bad. split.
      * erewrite bind_Normal by apply videoCards_positions_eq.
        erewrite bind_Throw; [reflexivity|].
        apply generateChips_fault with (good := good) (c := c) (bad := bad);
          assumption.
      * repeat split; assumption.
    + exists g0, good, c, bad.
      split; [apply populateFilterDropdown_Throw, Hall|].
      repeat split; assumption.
Qed.

Lemma init_completes_iff_witness :
  exists g,
    init sample_compare part_000 page_unlisted = (Throw TypeError, g)
    /\ List.map (fun c => length (chips_children c)) (videoCards g) = [2; 0; 0]%nat
    /\ participantFilter_options g = participantFilter_options page_unlisted.
Proof.
  destruct (proj2 (init_completes_iff sample_compare part_000 page_unlisted) eq_refl)
    as (g & good & c & bad & Hrun & _).
  exists g. split; [exact Hrun|].
  vm_compute in Hrun. injection Hrun as <-. split; reflexivity.
Defined.

(** ** Events as steps of the cards *)

Lemma Forall2_card_step_insert rev cs i c c' :
  cs !! i = Some c ->
  card_step rev None c c' ->
  Forall2 (card_step rev None) cs (<[i := c']> cs).
Proof.
  intros H Hstep. rewrite <- (list_insert_id cs i c H) at 1.
  apply Forall2_insert; [|exact Hstep].
  apply Forall_Forall2_diag, list.Forall_forall. intros x _. constructor.
Qed.

Lemma card_step_collapse_if_expanded rev c :
  card_step rev None c (collapse_if_expanded c).
Proof.
  unfold collapse_if_expanded. destruct (isExpanded c) eqn:E;
    [apply step_collapse, E | apply step_same].
Qed.

Lemma Forall2_card_step_collapse_all rev cs :
  Forall2 (card_step rev None) cs (List.map collapse_if_expanded cs).
Proof.
  induction cs as [|c r IH]; simpl; constructor;
    [apply card_step_collapse_if_expanded | exact IH].
Qed.

Lemma Forall2_card_step_filter rev selection cs :
  Forall2 (card_step rev (Some selection)) cs
          (List.map (filter_card rev selection) cs).
Proof.
  induction cs as [|c r IH]; simpl; constructor; [constructor | exact IH].
Qed.

(** On a well formed page every event that can occur completes; it either
    filters every card with the value the control then shows, or keeps the
    control's value and lets each card make one step of the other kinds.
    The options of the control are kept. *)
Lemma dispatch_steps rev g ev :
  page_ok rev g ->
  enabled ev g = true ->
  exists g' kind,
    dispatch rev ev g = (Normal tt, g')
    /\ Forall2 (card_step rev kind) (videoCards g) (videoCards g')
    /\ participantFilter_value g' = value_after kind g
    /\ participantFilter_options g' = participantFilter_options g.
Proof.
  intros Hok He.
  assert (Hsame : Forall2 (card_step rev None) (videoCards g) (videoCards g)).
  { apply Forall_Forall2_diag, list.Forall_forall. intros x _. constructor. }
  assert (Htoggle : forall card, (card < length (videoCards g))%nat ->
            exists g' kind, toggleVideoCard card g = (Normal tt, g')
              /\ Forall2 (card_step rev kind) (videoCards g) (videoCards g')
              /\ participantFilter_value g' = value_after kind g
              /\ participantFilter_options g' = participantFilter_options g).
  { intros card Hlt. destruct (lookup_lt_is_Some_2 _ _ Hlt) as [c H].
    destruct (isExpanded c) eqn:E.
    - eexists _, None. split; [apply toggleVideoCard_collapse; eassumption|].
      split; [|split; reflexivity]. simpl.
      eapply Forall2_card_step_insert; [exact H | apply step_collapse, E].
    - eexists _, None. split; [apply toggleVideoCard_expand; eassumption|].
      split; [|split; reflexivity]. simpl.
      apply Forall2_lookup. intros i.
      destruct (decide (i = card)) as [->|Hne].
      + rewrite list_lookup_insert_eq by (rewrite length_map; exact Hlt).
        rewrite H. constructor. apply step_expand, E.
      + rewrite list_lookup_insert_ne by congruence.
        change (List.map ?f ?l) with (f <$> l). rewrite list_lookup_fmap.
        destruct (videoCards g !! i); constructor.
        apply card_step_collapse_if_expanded. }
  assert (Hkey : forall key,
            exists g' kind, document_keydown key g = (Normal tt, g')
              /\ Forall2 (card_step rev kind) (videoCards g) (videoCards g')
              /\ participantFilter_value g' = value_after kind g
              /\ participantFilter_options g' = participantFilter_options g).
  { intros key. destruct (decide (key = key_Escape)) as [->|Hne].
    - eexists _, None. split; [apply document_keydown_Escape|].
      split; [|split; reflexivity].
      apply Forall2_card_step_collapse_all.
    - exists g, None. split; [|split; [exact Hsame | split; reflexivity]].
      unfold document_keydown. rewrite bool_decide_false by exact Hne. reflexivity. }
  assert (Hfilter : forall value,
            exists g' kind, participantFilter_change rev value g = (Normal tt, g')
              /\ Forall2 (card_step rev kind) (videoCards g) (videoCards g')
              /\ participantFilter_value g' = value_after kind g
              /\ participantFilter_options g' = participantFilter_options g).
  { intros value. eexists _, (Some value). split.
    - unfold participantFilter_change. erewrite bind_Normal by reflexivity.
      apply filterVideos_Normal. exact (page_ok_has_participants _ _ Hok).
    - split; [|split; reflexivity]. simpl.
      apply Forall2_card_step_filter. }
  destruct ev as [card|card key|key|value| |card expandBtn|card| ]; simpl.
  - apply Htoggle. simpl in He. apply bool_decide_eq_true in He. exact He.
  - simpl in He. apply bool_decide_eq_true in He.
    unfold thumbnail_keydown.
    destruct (bool_decide (key = key_Enter)) eqn:E1; simpl.
    + apply bool_decide_eq_true in E1. subst key.
      rewrite bind_ret_tt. apply Htoggle, He.
    + destruct (bool_decide (key = key_Space)) eqn:E2.
      * apply bool_decide_eq_true in E2. subst key.
        rewrite bind_ret_tt. apply Htoggle, He.
      * erewrite bind_Normal by reflexivity. apply Hkey.
  - apply Hkey.
  - apply Hfilter.
  - apply (Hfilter []).
  - simpl in He.
    destruct (videoCards g !! card) as [c|] eqn:H; [|discriminate].
    destruct (chips_children c !! expandBtn) as [btn|] eqn:Hb; [|discriminate].
    destruct (has_participants_Some c (proj1 (page_ok_lookup _ _ _ _ Hok H)))
      as [p Ep].
    eexists _, None. split; [eapply toggleChips_Some; eassumption|].
    split; [|split; reflexivity]. simpl.
    eapply Forall2_card_step_insert; [exact H|].
    eapply step_toggle_chips; eassumption.
  - simpl in He.
    destruct (videoCards g !! card) as [c|] eqn:H; [|discriminate].
    eexists _, None. split; [apply writeCard_Some, H|].
    split; [|split; reflexivity]. simpl.
    eapply Forall2_card_step_insert; [exact H | apply step_loaded].
  - eexists _, None. split; [reflexivity|].
    split; [exact Hsame | split; reflexivity].
Qed.

Lemma Forall2_card_step_preserves rev kind selection (P : Card -> Prop) cs cs' :
  Forall2 (card_step rev kind) cs cs' ->
  Forall (card_ok rev selection) cs ->
  Forall P cs ->
  (forall c c', card_ok rev selection c -> P c -> card_step rev kind c c' -> P c') ->
  Forall P cs'.
Proof.
  intros Hsteps Hok HP Hstep. revert Hok HP.
  induction Hsteps as [|c c' cs cs' Hc _ IH]; intros Hok HP; [constructor|].
  apply Forall_cons in Hok as [Hokc Hok]. apply Forall_cons in HP as [HPc HP].
  constructor; [eapply Hstep; eassumption | apply IH; assumption].
Qed.

(** A property of single cards that holds of the cards [init] leaves and
    that every step of a well formed card keeps holds of every card of
    every reachable page. *)
Lemma reachable_cards_invariant cmp rev (P : Card -> Prop) :
  (forall c, markup_card c -> has_participants c = true ->
     P match rev with part_000 => rendered_card c | script_js => c end) ->
  (forall kind selection c c',
     card_ok rev selection c -> P c -> card_step rev kind c c' -> P c') ->
  forall g, reachable cmp rev g -> Forall P (videoCards g).
Proof.
  intros Hinit Hstep g Hr.
  induction Hr as [g0 g Hm Hi | g ev r g' Hr IH He Hd].
  - destruct (init_Normal _ _ _ _ Hi) as (Hall & Hcs & _).
    destruct Hm as (Hcards & _). rewrite forallb_forall in Hall.
    assert (HP : Forall (fun c => P match rev with
                                    | part_000 => rendered_card c
                                    | script_js => c
                                    end) (videoCards g0)).
    { apply list.Forall_forall. intros c Hc. apply Hinit.
      - rewrite list.Forall_forall in Hcards. apply Hcards, Hc.
      - apply Hall, list_elem_of_In, Hc. }
    rewrite Hcs. destruct rev; [|exact HP].
    change (List.map ?f ?l) with (f <$> l). apply Forall_fmap. exact HP.
  - pose proof (reachable_ok _ _ _ Hr) as Hok.
    destruct (dispatch_steps rev g ev Hok He) as (g1 & kind & Hd1 & Hsteps & _).
    assert (g' = g1) by congruence. subst g'.
    eapply Forall2_card_step_preserves; [exact Hsteps | apply Hok | exact IH |].
    apply Hstep.
Qed.

Lemma card_step_attributes rev kind c c' :
  card_step rev kind c c' ->
  card_data_participants c' = card_data_participants c
  /\ card_data_videoId c' = card_data_videoId c
  /\ title_textContent c' = title_textContent c.
Proof.
  intros [selection c0|c0|c0 E|c0 E|c0 b btn p Hb Hl Ep|c0]; try (repeat split).
  - apply card_data_participants_filter_card.
  - unfold filter_card. destruct (card_data_participants c0) as [p|]; [|reflexivity].
    destruct (matches selection p); [reflexivity|].
    unfold collapse_if_expanded. destruct (isExpanded _); reflexivity.
  - unfold filter_card. destruct (card_data_participants c0) as [p|]; [|reflexivity].
    destruct (matches selection p); [reflexivity|].
    unfold collapse_if_expanded. destruct (isExpanded _); reflexivity.
Qed.

(** ** Invariants of the reachable pages *)

(** X15.  On a reachable page every event that can occur completes
    without throwing; it keeps the number of cards, each card's participant
    list, video identifier and title, and the options of the filter
    control. *)
Theorem reachable_event_frame cmp rev g ev :
  reachable cmp rev g ->
  enabled ev g = true ->
  exists g',
    dispatch rev ev g = (Normal tt, g')
    /\ length (videoCards g') = length (videoCards g)
    /\ participantFilter_options g' = participantFilter_options g
    /\ forall i c', videoCards g' !! i = Some c' ->
         exists c,
           videoCards g !! i = Some c
           /\ card_data_participants c' = card_data_participants c
           /\ card_data_videoId c' = card_data_videoId c
           /\ title_textContent c' = title_textContent c.
Proof.
  intros Hr He.
  destruct (dispatch_steps rev g ev (reachable_ok _ _ _ Hr) He)
    as (g' & kind & Hd & Hsteps & _ & Hopts).
  exists g'. split; [exact Hd|].
  split; [symmetry; eapply Forall2_length, Hsteps|].
  split; [exact Hopts|].
  intros i c' Hc'.
  destruct (Forall2_lookup_r _ _ _ _ _ Hsteps Hc') as (c & Hc & Hstep).
  exists c. split; [exact Hc|]. eapply card_step_attributes, Hstep.
Qed.

Lemma reachable_event_frame_witness :
  exists g',
    dispatch part_000 (KeydownThumbnail 1 key_Enter) page_two_ana = (Normal tt, g')
    /\ List.map card_data_participants (videoCards g')
       = [Some (lit "Ana, Beto"); Some (lit "Beto")].
Proof.
  destruct (reachable_event_frame sample_compare part_000 page_two_ana
              (KeydownThumbnail 1 key_Enter) reachable_page_two_ana eq_refl)
    as (g' & Hrun & _).
  exists g'. split; [exact Hrun|].
  vm_compute in Hrun. injection Hrun as <-. reflexivity.
Defined.

(** X16.  On a reachable page the player of an expanded card holds exactly
    one iframe, the embed of that card's own video and title, and the
    player of a collapsed card holds none. *)
Theorem reachable_player_holds_own_embed cmp rev g c :
  reachable cmp rev g ->
  In c (videoCards g) ->
  player_iframes c = if isExpanded c then [embed_iframe c] else [].
Proof.
  intros Hr Hc.
  revert c Hc. setoid_rewrite <- list_elem_of_In. apply list.Forall_forall.
  apply (reachable_cards_invariant cmp rev
           (fun c => player_iframes c
                     = if isExpanded c then [embed_iframe c] else []));
    [| |exact Hr].
  - intros c0 (E & Hif & _) _.
    destruct rev; [unfold rendered_card; destruct (card_data_participants c0)|];
      simpl; change (isExpanded _) with (isExpanded c0); rewrite E; exact Hif.
  - intros kind selection c0 c' _ HP Hstep.
    destruct Hstep as [sel c0|c0|c0 E|c0 E|c0 b btn p Hb Hl Ep|c0];
      try exact HP.
    + unfold filter_card. destruct (card_data_participants c0) as [p|]; [|exact HP].
      destruct (matches sel p); [exact HP|].
      unfold collapse_if_expanded.
      change (isExpanded (set_card_hidden true c0)) with (isExpanded c0).
      destruct (isExpanded c0) eqn:E; simpl.
      * rewrite HP. reflexivity.
      * change (isExpanded (set_card_hidden true c0)) with (isExpanded c0).
        rewrite E. exact HP.
    + rewrite E in HP. simpl. rewrite HP. reflexivity.
    + rewrite E in HP. simpl. rewrite HP. reflexivity.
Qed.

Lemma reachable_player_holds_own_embed_witness :
  exists c,
    videoCards page_two_playing !! 0%nat = Some c
    /\ isExpanded c = true
    /\ player_iframes c = [embed_iframe c].
Proof.
  eexists. split; [reflexivity|]. split; [reflexivity|].
  refine (reachable_player_holds_own_embed sample_compare part_000
            page_two_playing _ reachable_page_two_playing _).
  vm_compute. left. reflexivity.
Defined.

Lemma chip_texts_update_selected skip f children :
  (forall e, sel_chip_not_expand (f e) = sel_chip_not_expand e) ->
  (forall e, el_textContent (f e) = el_textContent e) ->
  List.map el_textContent
    (List.filter sel_chip_not_expand
       (update_selected sel_chip_not_expand skip f children))
  = List.map el_textContent (List.filter sel_chip_not_expand children).
Proof.
  intros Hsel Htext. revert skip.
  induction children as [|e r IH]; intros skip; simpl; [reflexivity|].
  destruct (sel_chip_not_expand e) eqn:E.
  - destruct skip; simpl; rewrite ?Hsel, E; simpl; rewrite ?Htext, IH; reflexivity.
  - simpl. rewrite E. apply IH.
Qed.

Lemma filter_selected_alter f expandBtn btn children :
  children !! expandBtn = Some btn ->
  sel_chip_not_expand btn = false ->
  sel_chip_not_expand (f btn) = false ->
  List.filter sel_chip_not_expand (alter f expandBtn children)
  = List.filter sel_chip_not_expand children.
Proof.
  revert expandBtn. induction children as [|e r IH]; intros [|b] Hb Hs Hf;
    simpl in *; try discriminate.
  - injection Hb as ->. rewrite Hs, Hf. reflexivity.
  - destruct (sel_chip_not_expand e); [f_equal|]; apply (IH b Hb Hs Hf).
Qed.

Lemma chip_texts_render_chips names :
  List.map el_textContent (List.filter sel_chip_not_expand (render_chips names))
  = names.
Proof.
  unfold render_chips.
  rewrite List.filter_app, filter_imap_create_chip, List.map_app,
    map_el_textContent_imap_create_chip.
  destruct (MAX_VISIBLE_CHIPS <? length names)%nat; simpl; apply app_nil_r.
Qed.

Lemma chip_texts_invariant cmp g :
  reachable cmp part_000 g ->
  Forall (fun c => exists p, card_data_participants c = Some p
                             /\ chip_texts c = List.map trim (split_comma p))
         (videoCards g).
Proof.
  intros Hr.
  apply (reachable_cards_invariant cmp part_000
           (fun c => exists p, card_data_participants c = Some p
                               /\ chip_texts c = List.map trim (split_comma p)));
    [| |exact Hr].
  - intros c0 _ Hp. destruct (has_participants_Some c0 Hp) as [p Ep].
    exists p. unfold rendered_card. rewrite Ep. split; [exact Ep|].
    apply chip_texts_render_chips.
  - intros kind selection c0 c' Hok (p & Ep & Ht) Hstep. exists p.
    destruct Hstep as [sel c0|c0|c0 E|c0 E|c0 b btn p' Hb Hl Ep'|c0];
      try (split; [exact Ep | exact Ht]).
    + split; [rewrite card_data_participants_filter_card; exact Ep|].
      unfold filter_card. rewrite Ep. destruct (matches sel p).
      * unfold chip_texts. simpl. rewrite chip_texts_update_selected; [exact Ht| |].
        -- intros e. apply (chip_selector_highlight_chip part_000).
        -- intros e. apply el_textContent_highlight_chip.
      * unfold collapse_if_expanded. destruct (isExpanded _); exact Ht.
    + split; [exact Ep|]. unfold chip_texts. simpl.
      destruct (toggle_children_alter b (length (split_comma p'))
                  (bool_decide (el_aria_expanded btn = Some str_true))
                  (chips_children c0))
        as (control & overflow & -> & Hcl & Hsel & _ & Htext & _).
      rewrite chip_texts_update_selected by assumption.
      destruct Hok as (_ & _ & Hch & _). rewrite list.Forall_forall in Hch.
      destruct (Hch btn (list_elem_of_lookup_2 _ _ _ Hb)) as [(_ & _ & Hl')|(Hs & _)];
        [congruence|].
      rewrite (filter_selected_alter control b btn); [exact Ht | exact Hb | exact Hs |].
      unfold sel_chip_not_expand in *. rewrite Hcl. exact Hs.
Qed.

(** X17.  On every page reachable in [part_000] the participant chips of a
    card read, in order, the trimmed names of its participant list,
    whatever was filtered, expanded or toggled before. *)
Theorem reachable_chips_list_participants cmp g c :
  reachable cmp part_000 g ->
  In c (videoCards g) ->
  exists p,
    card_data_participants c = Some p
    /\ chip_texts c = List.map trim (split_comma p).
Proof.
  intros Hr Hc. pose proof (chip_texts_invariant cmp g Hr) as Hall.
  rewrite list.Forall_forall in Hall. apply Hall, list_elem_of_In, Hc.
Qed.

Lemma reachable_chips_list_participants_witness :
  exists c,
    videoCards page_two_ana !! 0%nat = Some c
    /\ chip_texts c = [lit "Ana"; lit "Beto"].
Proof.
  eexists. split; [reflexivity|].
  destruct (reachable_chips_list_participants sample_compare page_two_ana _
              reachable_page_two_ana (or_introl eq_refl)) as (p & Ep & Ht).
  rewrite Ht. vm_compute in Ep. injection Ep as <-. reflexivity.
Defined.

(** ** Visibility follows the filter *)

Lemma card_step_None_hidden rev c c' :
  card_step rev None c c' -> card_hidden c' = card_hidden c.
Proof.
  intros Hstep. inversion Hstep; subst; reflexivity.
Qed.

Lemma card_step_Some_filter rev selection c c' :
  card_step rev (Some selection) c c' -> c' = filter_card rev selection c.
Proof. intros Hstep. inversion Hstep; subst; reflexivity. Qed.

Lemma visibility_invariant cmp rev g :
  reachable cmp rev g ->
  participantFilter_value g <> [] ->
  Forall (fun c => exists p, card_data_participants c = Some p
                             /\ card_hidden c
                                = negb (matches (participantFilter_value g) p))
         (videoCards g).
Proof.
  intros Hr. induction Hr as [g0 g Hm Hi | g ev r g' Hr IH He Hd]; intros Hv.
  - exfalso. apply Hv. destruct (init_Normal _ _ _ _ Hi) as (_ & _ & -> & _).
    apply Hm.
  - pose proof (reachable_ok _ _ _ Hr) as Hok.
    destruct (dispatch_steps rev g ev Hok He)
      as (g1 & kind & Hd1 & Hsteps & Hval & _).
    assert (g' = g1) by congruence. subst g'. rewrite Hval in *.
    destruct kind as [selection|]; simpl in *.
    + destruct Hok as [Hcards _]. clear IH Hv.
      induction Hsteps as [|c c' cs cs' Hc _ IHs]; [constructor|].
      apply Forall_cons in Hcards as [Hokc Hcards].
      constructor; [|apply IHs, Hcards].
      apply card_step_Some_filter in Hc. subst c'.
      destruct (has_participants_Some c (proj1 Hokc)) as [p Ep].
      exists p. rewrite card_data_participants_filter_card.
      split; [exact Ep | apply card_hidden_filter_card, Ep].
    + specialize (IH Hv). clear Hok.
      induction Hsteps as [|c c' cs cs' Hc _ IHs]; [constructor|].
      apply Forall_cons in IH as [(p & Ep & Hh) IH].
      constructor; [|apply IHs, IH].
      exists p. rewrite (card_step_None_hidden _ _ _ Hc).
      rewrite (proj1 (card_step_attributes _ _ _ _ Hc)). auto.
Qed.

(** X18.  On a reachable page whose filter control shows a name, the
    visible cards are exactly the cards that list that name, whatever was
    clicked or toggled since the filter was chosen. *)
Theorem reachable_visibility_follows_filter cmp rev g c :
  reachable cmp rev g ->
  participantFilter_value g <> [] ->
  In c (videoCards g) ->
  exists p,
    card_data_participants c = Some p
    /\ (card_hidden c = false
        <-> In (participantFilter_value g) (List.map trim (split_comma p))).
Proof.
  intros Hr Hv Hc. pose proof (visibility_invariant cmp rev g Hr Hv) as Hall.
  rewrite list.Forall_forall in Hall.
  destruct (Hall c (proj2 (list_elem_of_In _ _) Hc)) as (p & Ep & Hh).
  exists p. split; [exact Ep|]. rewrite Hh, negb_false_iff, matches_iff.
  split; [intros [H|H]; [contradiction | exact H] | auto].
Qed.

Lemma reachable_visibility_follows_filter_witness :
  exists c p,
    videoCards page_two_ana !! 1%nat = Some c
    /\ card_data_participants c = Some p
    /\ (card_hidden c = false
        <-> In (participantFilter_value page_two_ana)
               (List.map trim (split_comma p))).
Proof.
  assert (Hc : exists c, videoCards page_two_ana !! 1%nat = Some c)
    by (eexists; reflexivity).
  destruct Hc as [c Hc].
  destruct (reachable_visibility_follows_filter sample_compare part_000
              page_two_ana c reachable_page_two_ana) as (p & Ep & Hiff).
  - vm_compute. discriminate.
  - exact (proj1 (list_elem_of_In _ _) (list_elem_of_lookup_2 _ _ _ Hc)).
  - exists c, p. auto.
Defined.

(** X19.  On a page reachable in [part_000] whose filter control shows a
    name, every visible card carries a chip that reads that name and is
    highlighted. *)
Theorem reachable_visible_card_shows_match cmp g c :
  reachable cmp part_000 g ->
  participantFilter_value g <> [] ->
  In c (videoCards g) ->
  card_hidden c = false ->
  exists e,
    In e (chips_children c)
    /\ sel_chip_not_expand e = true
    /\ el_textContent e = participantFilter_value g
    /\ highlighted e = true.
Proof.
  intros Hr Hv Hc Hvis. apply list_elem_of_In in Hc.
  pose proof (visibility_invariant _ _ _ Hr Hv) as Hvisible.
  pose proof (chip_texts_invariant _ _ Hr) as Htexts.
  destruct (reachable_ok _ _ _ Hr) as [Hok _].
  rewrite list.Forall_forall in Hvisible, Htexts, Hok.
  destruct (Hvisible c Hc) as (p & Ep & Hh).
  destruct (Htexts c Hc) as (p' & Ep' & Ht).
  destruct (Hok c Hc) as (_ & _ & Hch & Hhl).
  assert (p' = p) by congruence. subst p'.
  rewrite Hvis in Hh. symmetry in Hh. apply negb_false_iff, matches_iff in Hh.
  destruct Hh as [Hh|Hh]; [contradiction|].
  rewrite <- Ht in Hh. unfold chip_texts in Hh.
  apply in_map_iff in Hh as (e & Hte & He). apply filter_In in He as [He Hs].
  exists e. split; [exact He|]. split; [exact Hs|]. split; [exact Hte|].
  apply list_elem_of_In in He.
  specialize (Hhl Hvis). rewrite list.Forall_forall in Hch, Hhl.
  apply (Hhl e He Hs). split; [exact Hv|].
  destruct (Hch e He) as [(_ & Htrim & _)|(Hs' & _)]; [|congruence].
  rewrite Htrim. exact Hte.
Qed.

Lemma reachable_visible_card_shows_match_witness :
  exists c e,
    videoCards page_two_ana !! 0%nat = Some c
    /\ In e (chips_children c)
    /\ el_textContent e = lit "Ana"
    /\ highlighted e = true.
Proof.
  assert (Hc : exists c, videoCards page_two_ana !! 0%nat = Some c
                         /\ card_hidden c = false)
    by (eexists; split; reflexivity).
  destruct Hc as (c & Hc & Hvis).
  destruct (reachable_visible_card_shows_match sample_compare page_two_ana c
              reachable_page_two_ana) as (e & He & _ & Ht & Hh).
  - vm_compute. discriminate.
  - exact (proj1 (list_elem_of_In _ _) (list_elem_of_lookup_2 _ _ _ Hc)).
  - exact Hvis.
  - exists c, e. auto.
Defined.

(** ** The chip container on reachable pages *)

Lemma classList_remove_add_same t cl :
  classList_remove t (classList_add t cl) = classList_remove t cl.
Proof.
  unfold classList_add. destruct (bool_decide (t ∈ cl)); [reflexivity|].
  unfold classList_remove. rewrite List.filter_app. simpl.
  rewrite bool_decide_true by reflexivity. simpl. apply app_nil_r.
Qed.

Lemma classList_remove_comm t t' cl :
  classList_remove t (classList_remove t' cl)
  = classList_remove t' (classList_remove t cl).
Proof.
  unfold classList_remove. induction cl as [|x cl IH]; simpl; [reflexivity|].
  destruct (negb (bool_decide (x = t'))) eqn:E1,
           (negb (bool_decide (x = t))) eqn:E2; simpl;
    rewrite ?E1, ?E2, IH; reflexivity.
Qed.

Lemma classList_remove_add_other t t' cl :
  t <> t' ->
  classList_remove t (classList_add t' cl) = classList_add t' (classList_remove t cl).
Proof.
  intros Hne. unfold classList_add.
  assert (Hin : bool_decide (t' ∈ classList_remove t cl) = bool_decide (t' ∈ cl)).
  { pose proof (classList_contains_remove t' t cl) as H.
    unfold classList_contains in H. rewrite H.
    rewrite bool_decide_false by congruence. reflexivity. }
  rewrite Hin. destruct (bool_decide (t' ∈ cl)); [reflexivity|].
  unfold classList_remove. rewrite List.filter_app. simpl.
  rewrite bool_decide_false by congruence. reflexivity.
Qed.

Lemma without_highlight_highlight_chip selection e :
  without_highlight (highlight_chip selection e) = without_highlight e.
Proof.
  unfold without_highlight, highlight_chip.
  destruct (truthy selection && _); unfold set_el_classList; simpl;
    rewrite ?classList_remove_add_same, ?classList_remove_idempotent; reflexivity.
Qed.

Lemma without_highlight_hide_chip e :
  without_highlight (hide_chip e) = hide_chip (without_highlight e).
Proof.
  unfold without_highlight, hide_chip, set_el_classList. simpl.
  rewrite classList_remove_add_other by discriminate.
  rewrite classList_remove_comm. reflexivity.
Qed.

Lemma without_highlight_reveal_chip e :
  without_highlight (reveal_chip e) = reveal_chip (without_highlight e).
Proof.
  unfold without_highlight, reveal_chip, set_el_classList. simpl.
  rewrite classList_remove_add_other by discriminate.
  rewrite classList_remove_comm. reflexivity.
Qed.

Lemma sel_chip_not_expand_without_highlight e :
  sel_chip_not_expand (without_highlight e) = sel_chip_not_expand e.
Proof.
  unfold sel_chip_not_expand, without_highlight. simpl.
  rewrite !classList_contains_remove. reflexivity.
Qed.

Lemma map_alter_commute {A} (w f : A -> A) i l :
  (forall e, w (f e) = f (w e)) ->
  List.map w (alter f i l) = alter f i (List.map w l).
Proof.
  intros H. revert i. induction l as [|e r IH]; intros [|i]; simpl;
    rewrite ?H; try reflexivity.
  f_equal. apply IH.
Qed.

Lemma map_update_selected_commute w skip f children :
  (forall e, sel_chip_not_expand (w e) = sel_chip_not_expand e) ->
  (forall e, w (f e) = f (w e)) ->
  List.map w (update_selected sel_chip_not_expand skip f children)
  = update_selected sel_chip_not_expand skip f (List.map w children).
Proof.
  intros Hsel Hf. revert skip.
  induction children as [|e r IH]; intros skip; simpl; [reflexivity|].
  rewrite Hsel. destruct (sel_chip_not_expand e); [destruct skip|]; simpl;
    rewrite ?Hf, IH; reflexivity.
Qed.

Lemma without_highlight_toggle_children expandBtn count expanded children :
  List.map without_highlight (toggle_children expandBtn count expanded children)
  = toggle_children expandBtn count expanded (List.map without_highlight children).
Proof.
  unfold toggle_children. destruct expanded.
  - rewrite map_update_selected_commute
      by (first [apply sel_chip_not_expand_without_highlight
                | apply without_highlight_hide_chip]).
    rewrite !map_alter_commute by reflexivity. reflexivity.
  - rewrite map_update_selected_commute
      by (first [apply sel_chip_not_expand_without_highlight
                | apply without_highlight_reveal_chip]).
    rewrite !map_alter_commute by reflexivity. reflexivity.
Qed.

Lemma without_highlight_update_highlight rev selection children :
  List.map without_highlight
    (update_selected (chip_selector rev) 0 (highlight_chip selection) children)
  = List.map without_highlight children.
Proof.
  rewrite update_selected_all, map_map. apply map_ext. intros e.
  destruct (chip_selector rev e); [apply without_highlight_highlight_chip | reflexivity].
Qed.

Lemma without_highlight_render_chips names :
  List.map without_highlight (render_chips names) = render_chips names.
Proof.
  assert (Hid : Forall (fun e => without_highlight e = e) (render_chips names)).
  { unfold render_chips. apply Forall_app. split.
    - apply Forall_imap_all. intros i x _. unfold create_chip.
      destruct (MAX_VISIBLE_CHIPS <=? i)%nat; reflexivity.
    - destruct (MAX_VISIBLE_CHIPS <? length names)%nat; repeat constructor. }
  induction Hid as [|e r He _ IH]; simpl; [reflexivity|].
  rewrite He, IH. reflexivity.
Qed.

Lemma lookup_listener_overflow n1 n2 n3 n4 s rest ctl b e :
  (chip_shown n1 :: chip_shown n2 :: chip_shown n3 :: chip_shown n4
     :: List.map (chip_overflow s) rest ++ [ctl]) !! b = Some e ->
  el_onclick_toggleChips e = true ->
  b = (4 + length rest)%nat /\ e = ctl.
Proof.
  intros Hb Hl. destruct b as [|[|[|[|b]]]]; simpl in Hb;
    try (injection Hb as <-; discriminate Hl).
  destruct (decide (b < length rest)%nat) as [Hlt|Hge].
  - exfalso. rewrite lookup_app_l in Hb by (rewrite length_map; exact Hlt).
    change (List.map ?f ?l) with (f <$> l) in Hb. rewrite list_lookup_fmap in Hb.
    destruct (rest !! b); simpl in Hb; [|discriminate].
    injection Hb as <-. discriminate Hl.
  - rewrite lookup_app_r in Hb by (rewrite length_map; lia).
    rewrite length_map in Hb.
    destruct (b - length rest)%nat as [|k] eqn:Ek; simpl in Hb; [|discriminate].
    injection Hb as <-. split; [lia | reflexivity].
Qed.

(** Only the expand control carries the listener; it sits right after the
    chips, exists only for more than four names, and toggling it flips the
    view. *)
Lemma chips_view_listener names expanded b e :
  chips_view names expanded !! b = Some e ->
  el_onclick_toggleChips e = true ->
  b = length names
  /\ (MAX_VISIBLE_CHIPS < length names)%nat
  /\ el_aria_expanded e = Some (if expanded then str_true else str_false)
  /\ toggle_children (length names) (length names) expanded
       (chips_view names expanded)
     = chips_view names (negb expanded).
Proof.
  intros Hb Hl.
  destruct names as [|n1 [|n2 [|n3 [|n4 [|x rest]]]]];
    try (exfalso; apply list_elem_of_lookup_2, list_elem_of_In in Hb;
         destruct expanded; cbv in Hb;
         repeat (destruct Hb as [<-|Hb]; [discriminate Hl|]); exact Hb).
  assert (Hrender : render_chips (n1 :: n2 :: n3 :: n4 :: x :: rest)
            = chip_shown n1 :: chip_shown n2 :: chip_shown n3 :: chip_shown n4
                :: List.map (chip_overflow "chip--hidden") (x :: rest)
                ++ [expand_control str_false
                      (expand_label (Z.of_nat (5 + length rest)
                                     - Z.of_nat MAX_VISIBLE_CHIPS))
                      (expand_title (Z.of_nat (5 + length rest)
                                     - Z.of_nat MAX_VISIBLE_CHIPS))])
    by apply render_chips_overflow.
  assert (Hview : chips_view (n1 :: n2 :: n3 :: n4 :: x :: rest) true
            = chip_shown n1 :: chip_shown n2 :: chip_shown n3 :: chip_shown n4
                :: List.map (chip_overflow "chip--visible") (x :: rest)
                ++ [expand_control str_true (lit "Ver menos")
                      (lit "Ocultar participantes")]).
  { unfold chips_view. rewrite Hrender.
    apply (toggle_children_overflow_reveal n1 n2 n3 n4 (x :: rest)). }
  assert (Hback : toggle_children (length (n1 :: n2 :: n3 :: n4 :: x :: rest))
                    (length (n1 :: n2 :: n3 :: n4 :: x :: rest)) true
                    (chips_view (n1 :: n2 :: n3 :: n4 :: x :: rest) true)
                  = render_chips (n1 :: n2 :: n3 :: n4 :: x :: rest)).
  { rewrite Hview, Hrender.
    apply (toggle_children_overflow_hide n1 n2 n3 n4 (x :: rest)). }
  destruct expanded.
  - rewrite Hview in Hb.
    destruct (lookup_listener_overflow _ _ _ _ _ _ _ _ _ Hb Hl) as [-> ->].
    split; [reflexivity|]. split; [unfold MAX_VISIBLE_CHIPS; simpl; lia|].
    split; [reflexivity | exact Hback].
  - unfold chips_view in Hb. rewrite Hrender in Hb.
    destruct (lookup_listener_overflow _ _ _ _ _ _ _ _ _ Hb Hl) as [-> ->].
    split; [reflexivity|]. split; [unfold MAX_VISIBLE_CHIPS; simpl; lia|].
    split; reflexivity.
Qed.

Lemma chips_view_invariant cmp g :
  reachable cmp part_000 g ->
  Forall (fun c => exists p expanded,
            card_data_participants c = Some p
            /\ List.map without_highlight (chips_children c)
               = chips_view (participants_of p) expanded)
         (videoCards g).
Proof.
  intros Hr.
  apply (reachable_cards_invariant cmp part_000
           (fun c => exists p expanded,
              card_data_participants c = Some p
              /\ List.map without_highlight (chips_children c)
                 = chips_view (participants_of p) expanded));
    [| |exact Hr].
  - intros c0 _ Hp. destruct (has_participants_Some c0 Hp) as [p Ep].
    exists p, false. unfold rendered_card. rewrite Ep. split; [exact Ep|].
    apply without_highlight_render_chips.
  - intros kind selection c0 c' Hok (p & expanded & Ep & Hview) Hstep.
    destruct Hstep as [sel c0|c0|c0 E|c0 E|c0 b btn p' Hb Hl Ep'|c0];
      try (exists p, expanded; split; [exact Ep | exact Hview]).
    + exists p, expanded.
      split; [rewrite card_data_participants_filter_card; exact Ep|].
      unfold filter_card. rewrite Ep. destruct (matches sel p).
      * etransitivity;
          [apply (without_highlight_update_highlight part_000) | exact Hview].
      * unfold collapse_if_expanded. destruct (isExpanded _); exact Hview.
    + assert (p' = p) by congruence. subst p'.
      exists p, (negb expanded). split; [exact Ep|]. simpl.
      assert (Hb' : chips_view (participants_of p) expanded !! b
                    = Some (without_highlight btn)).
      { rewrite <- Hview. change (List.map ?f ?l) with (f <$> l).
        rewrite list_lookup_fmap, Hb. reflexivity. }
      destruct (chips_view_listener _ _ _ _ Hb' Hl) as (-> & _ & Haria & Hflip).
      assert (Hx : bool_decide (el_aria_expanded btn = Some str_true) = expanded).
      { change (el_aria_expanded (without_highlight btn))
          with (el_aria_expanded btn) in Haria.
        rewrite Haria. destruct expanded; reflexivity. }
      assert (Hcount : length (split_comma p) = length (participants_of p))
        by (unfold participants_of; rewrite length_map; reflexivity).
      rewrite Hx, Hcount, without_highlight_toggle_children, Hview. exact Hflip.
Qed.

Lemma chips_view_overflow names expanded i e :
  chips_view names expanded !! i = Some e ->
  (MAX_VISIBLE_CHIPS <= i)%nat ->
  ((i < length names)%nat ->
   classList_contains "chip--hidden" (el_classList e) = negb expanded
   /\ classList_contains "chip--visible" (el_classList e) = expanded)
  /\ (i = length names ->
      el_textContent e
      = if expanded then lit "Ver menos"
        else expand_label (Z.of_nat (length names) - Z.of_nat MAX_VISIBLE_CHIPS)).
Proof.
  intros Hi Hge. unfold MAX_VISIBLE_CHIPS in Hge.
  destruct names as [|n1 [|n2 [|n3 [|n4 [|x rest]]]]];
    try (exfalso; apply lookup_lt_Some in Hi; destruct expanded; cbv in Hi; lia).
  assert (Hshape : exists s aria label title,
            chips_view (n1 :: n2 :: n3 :: n4 :: x :: rest) expanded
            = chip_shown n1 :: chip_shown n2 :: chip_shown n3 :: chip_shown n4
                :: List.map (chip_overflow s) (x :: rest)
                ++ [expand_control aria label title]
            /\ (forall y,
                  classList_contains "chip--hidden" (el_classList (chip_overflow s y))
                  = negb expanded
                  /\ classList_contains "chip--visible"
                       (el_classList (chip_overflow s y)) = expanded)
            /\ label = if expanded then lit "Ver menos"
                       else expand_label
                              (Z.of_nat (length (n1 :: n2 :: n3 :: n4 :: x :: rest))
                               - Z.of_nat MAX_VISIBLE_CHIPS)).
  { destruct expanded.
    - eexists "chip--visible"%string, _, _, _. split; [|split; [intros y; split|]];
        [|reflexivity..].
      unfold chips_view. rewrite render_chips_overflow.
      apply (toggle_children_overflow_reveal n1 n2 n3 n4 (x :: rest)).
    - eexists "chip--hidden"%string, _, _, _. split; [|split; [intros y; split|]];
        [|reflexivity..].
      unfold chips_view. apply render_chips_overflow. }
  destruct Hshape as (s & aria & label & title & Hshape & Hclasses & Hlabel).
  rewrite Hshape in Hi.
  destruct i as [|[|[|[|k]]]]; try lia.
  change ((List.map (chip_overflow s) (x :: rest)
           ++ [expand_control aria label title]) !! k = Some e) in Hi.
  destruct (decide (k < length (x :: rest))%nat) as [Hlt|Hnlt].
  - rewrite lookup_app_l in Hi by (rewrite length_map; exact Hlt).
    change (List.map ?f ?l) with (f <$> l) in Hi. rewrite list_lookup_fmap in Hi.
    destruct ((x :: rest) !! k); simpl in Hi; [|discriminate].
    injection Hi as <-. split; [intros _; apply Hclasses|].
    simpl in *. lia.
  - rewrite lookup_app_r in Hi by (rewrite length_map; lia).
    rewrite length_map in Hi.
    destruct (k - length (x :: rest))%nat as [|k'] eqn:Ek; simpl in Hi;
      [|discriminate].
    injection Hi as <-. split; [simpl in *; lia|].
    intros _. exact Hlabel.
Qed.

(** X20.  On every page reachable in [part_000], the chip container of a
    card is, highlight marks apart, exactly what [generateChips] rendered
    from the card's list or that with the overflow revealed.  So the chips
    from the fifth on are all hidden while the control reads its count and
    all revealed while it reads "Ver menos"; the two never disagree. *)
Theorem reachable_overflow_consistent cmp g c :
  reachable cmp part_000 g ->
  In c (videoCards g) ->
  exists p expanded,
    card_data_participants c = Some p
    /\ List.map without_highlight (chips_children c)
       = chips_view (List.map trim (split_comma p)) expanded
    /\ (forall i e,
          chips_children c !! i = Some e ->
          (MAX_VISIBLE_CHIPS <= i)%nat ->
          (i < length (split_comma p))%nat ->
          classList_contains "chip--hidden" (el_classList e) = negb expanded
          /\ classList_contains "chip--visible" (el_classList e) = expanded)
    /\ (forall btn,
          chips_children c !! length (split_comma p) = Some btn ->
          (MAX_VISIBLE_CHIPS < length (split_comma p))%nat ->
          el_textContent btn
          = if expanded then lit "Ver menos"
            else expand_label (Z.of_nat (length (split_comma p))
                               - Z.of_nat MAX_VISIBLE_CHIPS)).
Proof.
  intros Hr Hc. pose proof (chips_view_invariant cmp g Hr) as Hall.
  rewrite list.Forall_forall in Hall.
  destruct (Hall c (proj2 (list_elem_of_In _ _) Hc)) as (p & expanded & Ep & Hview).
  exists p, expanded. split; [exact Ep|]. split; [exact Hview|].
  assert (Hcount : length (participants_of p) = length (split_comma p))
    by (unfold participants_of; apply length_map).
  assert (Hlook : forall i e, chips_children c !! i = Some e ->
            chips_view (participants_of p) expanded !! i
            = Some (without_highlight e)).
  { intros i e He. rewrite <- Hview. change (List.map ?f ?l) with (f <$> l).
    rewrite list_lookup_fmap, He. reflexivity. }
  split.
  - intros i e He Hge Hlt.
    destruct (chips_view_overflow _ _ _ _ (Hlook i e He) Hge) as [Hclasses _].
    rewrite Hcount in Hclasses. specialize (Hclasses Hlt).
    unfold without_highlight in Hclasses. simpl in Hclasses.
    rewrite !classList_contains_remove in Hclasses. exact Hclasses.
  - intros btn Hb Hmore.
    destruct (chips_view_overflow _ _ _ _ (Hlook _ btn Hb)) as [_ Hlabel].
    + lia.
    + rewrite Hcount in Hlabel. apply Hlabel. reflexivity.
Qed.

Lemma reachable_page_seven_revealed :
  reachable sample_compare part_000 page_seven_revealed.
Proof.
  apply (reachable_step _ _ page_seven_ready (ClickExpandControl 0 7) (Normal tt));
    [|vm_compute; reflexivity | vm_compute; reflexivity].
  apply (reachable_init _ _ page_seven); [|vm_compute; reflexivity].
  split; [|split; reflexivity]. repeat constructor.
Qed.

Lemma reachable_overflow_consistent_witness :
  exists c p expanded,
    videoCards page_seven_revealed !! 0%nat = Some c
    /\ card_data_participants c = Some p
    /\ List.map without_highlight (chips_children c)
       = chips_view (List.map trim (split_comma p)) expanded.
Proof.
  assert (Hc : exists c, videoCards page_seven_revealed !! 0%nat = Some c)
    by (eexists; vm_compute; reflexivity).
  destruct Hc as [c Hc].
  destruct (reachable_overflow_consistent sample_compare page_seven_revealed c
              reachable_page_seven_revealed) as (p & expanded & Ep & Hview & _).
  - exact (proj1 (list_elem_of_In _ _) (list_elem_of_lookup_2 _ _ _ Hc)).
  - exists c, p, expanded. auto.
Defined.
